(** * POSM catalogue: cache, data service, session, rate limiter, drafts

    A shallow embedding of the TypeScript services of the catalogue: the
    in-memory TTL cache; the data service (loading the catalogue and the
    models through the cache, searching, filtering by category,
    [validateModel], exporting) with the filter of the home page and the
    export utilities; the session store with its login rate limiter; the
    draft store; and, of the security utilities, the sanitising of file
    names, the password score and the test of e-mail addresses.  The facts
    that the specification states about them come with further facts read
    off the code.

    The first part holds the definitions, the second part the theorems. *)

From Stdlib Require Import ZArith Ascii String List Bool Lia.
From Stdlib Require Import Decimal DecimalString DecimalZ DecimalPos DecimalFacts.
From stdpp Require Import base option list gmap strings fin_maps.

Local Open Scope Z_scope.

(* ===================================================================== *)
(** * Part I: definitions                                                 *)
(* ===================================================================== *)

(** ** JavaScript values

    The data the services handle is JSON-like: it comes out of
    [JSON.parse], [fetch] or the browser storage.  Numbers are modelled by
    the integers (millisecond timestamps, counters, pixel sizes, whole
    percentages) plus [NaN], which the coercions of the language produce;
    fractions and infinities are outside the model.  A string is a list of
    characters of one byte; the functions on text below ([trim],
    [toLowerCase], the class of white space) are those of the language on
    ASCII text, which [ascii_text] delimits. *)

Inductive number : Type :=
| NaN
| Int (z : Z).

#[warnings="-register-all"] Inductive value : Type :=
| VUndefined
| VNull
| VBool (b : bool)
| VNum (n : number)
| VStr (s : string)
| VArr (elems : list value)
| VObj (props : list (string * value)).

(** Exceptions of the language and of the browser APIs. *)
Inductive exn : Type :=
| TypeError
| SyntaxError
| RangeError
| SecurityError
| QuotaExceededError
| Error (msg : string).

(** The result of running code that may throw. *)
Inductive outcome (A : Type) : Type :=
| Ret (a : A)
| Throw (e : exn).
Arguments Ret {A} a.
Arguments Throw {A} e.

#[global] Instance outcome_ret : MRet outcome := fun _ a => Ret a.
#[global] Instance outcome_bind : MBind outcome := fun _ _ k m =>
  match m with
  | Ret a => k a
  | Throw e => Throw e
  end.

Module JS.

(** [ToBoolean]: the falsy values are [undefined], [null], [false], [0],
    [NaN] and the empty string. *)
Definition truthy (v : value) : bool :=
  match v with
  | VUndefined | VNull => false
  | VBool b => b
  | VNum NaN => false
  | VNum (Int z) => negb (z =? 0)
  | VStr s => negb (bool_decide (s = ""))
  | VArr _ | VObj _ => true
  end.

Inductive type_tag : Type :=
| TUndefined | TObject | TBoolean | TNumber | TString.

(** The [typeof] operator ([typeof null] is ["object"], as is an array). *)
Definition typeof (v : value) : type_tag :=
  match v with
  | VUndefined => TUndefined
  | VNull | VArr _ | VObj _ => TObject
  | VBool _ => TBoolean
  | VNum _ => TNumber
  | VStr _ => TString
  end.

Definition is_number (v : value) : bool :=
  match v with VNum _ => true | _ => false end.
Definition is_string (v : value) : bool :=
  match v with VStr _ => true | _ => false end.
Definition is_object (v : value) : bool :=
  match typeof v with TObject => true | _ => false end.
Definition is_null (v : value) : bool :=
  match v with VNull => true | _ => false end.
Definition isArray (v : value) : bool :=
  match v with VArr _ => true | _ => false end.

(** The binding of [k] in a property list; a later binding of the same
    name wins, as in an object literal or a parsed JSON text. *)
Fixpoint lookup_prop (k : string) (props : list (string * value)) : option value :=
  match props with
  | [] => None
  | (k', v) :: rest =>
      match lookup_prop k rest with
      | Some w => Some w
      | None => if bool_decide (k' = k) then Some v else None
      end
  end.

(** Member access [v.k], for the property names the services use (none is
    [length], an array index or a name of a prototype): reading a
    property of [undefined] or [null] throws a [TypeError]; a primitive
    or an array has no such property. *)
Definition prop (v : value) (k : string) : outcome value :=
  match v with
  | VUndefined | VNull => Throw TypeError
  | VObj props => Ret (default VUndefined (lookup_prop k props))
  | _ => Ret VUndefined
  end.

(** [Number.prototype.toString] on the modelled numbers. *)
Definition Z_to_string (z : Z) : string :=
  DecimalString.NilZero.string_of_int (Z.to_int z).

Definition number_to_string (n : number) : string :=
  match n with
  | NaN => "NaN"
  | Int z => Z_to_string z
  end.

Definition is_digit (c : ascii) : bool :=
  let n := N_of_ascii c in ((48 <=? n) && (n <=? 57))%N.

(** White space: tab, line feed, vertical tab, form feed, carriage return
    and space. *)
Definition is_space (c : ascii) : bool :=
  let n := N_of_ascii c in (((9 <=? n) && (n <=? 13)) || (n =? 32))%N.

(** ASCII text: every character is below 128.  On such text the white
    space of the language is [is_space] and its letters with a case are
    [A] to [Z] and [a] to [z]. *)
Fixpoint ascii_text (s : string) : bool :=
  match s with
  | EmptyString => true
  | String c s' => (N_of_ascii c <? 128)%N && ascii_text s'
  end.

Fixpoint all_digits (s : string) : bool :=
  match s with
  | EmptyString => true
  | String c s' => is_digit c && all_digits s'
  end.

(** The value of a non-empty run of decimal digits. *)
Definition digits_value (s : string) : option Z :=
  match s with
  | EmptyString => None
  | _ => Z.of_uint <$> DecimalString.NilEmpty.uint_of_string s
  end.

Fixpoint join (sep : string) (l : list string) : string :=
  match l with
  | [] => ""
  | [x] => x
  | x :: rest => x +:+ sep +:+ join sep rest
  end.

(** [ToString]: an array joins its elements with a comma, printing
    [undefined] and [null] elements as nothing; a plain object is
    ["[object Object]"]. *)
Fixpoint ToString (v : value) : string :=
  match v with
  | VUndefined => "undefined"
  | VNull => "null"
  | VBool true => "true"
  | VBool false => "false"
  | VNum n => number_to_string n
  | VStr s => s
  | VArr elems =>
      join "," (map (fun e => match e with
                              | VUndefined | VNull => ""
                              | _ => ToString e
                              end) elems)
  | VObj _ => "[object Object]"
  end.

(** [ToPrimitive]: arrays and objects convert through [toString]. *)
Definition ToPrimitive (v : value) : value :=
  match v with
  | VArr _ | VObj _ => VStr (ToString v)
  | _ => v
  end.

Fixpoint drop_space (s : string) : string :=
  match s with
  | String c s' => if is_space c then drop_space s' else s
  | EmptyString => s
  end.

Definition trim (s : string) : string :=
  String.rev (drop_space (String.rev (drop_space s))).

(** [StringToNumber], for integer numerals: the trimmed text is empty
    (zero) or an optionally signed run of digits; any other text is [NaN]
    (numerals with a fraction, an exponent or a radix prefix denote numbers
    outside the model). *)
Definition StringToNumber (s : string) : number :=
  match trim s with
  | EmptyString => Int 0
  | String c d as t =>
      if Ascii.eqb c "-" then
        match digits_value d with Some z => Int (- z) | None => NaN end
      else if Ascii.eqb c "+" then
        match digits_value d with Some z => Int z | None => NaN end
      else
        match digits_value t with Some z => Int z | None => NaN end
  end.

Definition ToNumber (v : value) : number :=
  match ToPrimitive v with
  | VUndefined => NaN
  | VNull => Int 0
  | VBool b => Int (if b then 1 else 0)
  | VNum n => n
  | VStr s => StringToNumber s
  | VArr _ | VObj _ => NaN
  end.

(** The relational operators [a < b], [a > b], [a <= b]: two strings
    compare by code units, anything else numerically, and a comparison
    with [NaN] is false. *)
Definition lt (a b : value) : bool :=
  match ToPrimitive a, ToPrimitive b with
  | VStr s, VStr t => String.ltb s t
  | pa, pb =>
      match ToNumber pa, ToNumber pb with
      | Int x, Int y => x <? y
      | _, _ => false
      end
  end.

Definition gt (a b : value) : bool := lt b a.

Definition le (a b : value) : bool :=
  match ToPrimitive a, ToPrimitive b with
  | VStr s, VStr t => negb (String.ltb t s)
  | pa, pb =>
      match ToNumber pa, ToNumber pb with
      | Int x, Int y => x <=? y
      | _, _ => false
      end
  end.

(** The operator [a + b]: concatenation when either operand is a string
    after [ToPrimitive], numeric addition otherwise. *)
Definition add (a b : value) : value :=
  match ToPrimitive a, ToPrimitive b with
  | VStr s, pb => VStr (s +:+ ToString pb)
  | pa, VStr t => VStr (ToString pa +:+ t)
  | pa, pb =>
      match ToNumber pa, ToNumber pb with
      | Int x, Int y => VNum (Int (x + y))
      | _, _ => VNum NaN
      end
  end.

(** [v.length]: an array and a string have one, an object may carry a
    property of that name; reading it off [undefined] or [null] throws. *)
Definition length_of (v : value) : outcome value :=
  match v with
  | VUndefined | VNull => Throw TypeError
  | VArr elems => Ret (VNum (Int (Z.of_nat (length elems))))
  | VStr s => Ret (VNum (Int (Z.of_nat (String.length s))))
  | VObj _ => prop v "length"
  | VBool _ | VNum _ => Ret VUndefined
  end.

Definition lower_char (c : ascii) : ascii :=
  let n := N_of_ascii c in
  if ((65 <=? n) && (n <=? 90))%N then ascii_of_N (n + 32) else c.

(** [s.toLowerCase()], on ASCII text. *)
Fixpoint toLowerCase (s : string) : string :=
  match s with
  | EmptyString => ""
  | String c s' => String (lower_char c) (toLowerCase s')
  end.

(** [s.includes(t)]. *)
Fixpoint includes (s t : string) : bool :=
  String.prefix t s
  || match s with
     | String _ s' => includes s' t
     | EmptyString => false
     end.

(** [s.substring(0, n)]. *)
Fixpoint substring_to (n : nat) (s : string) : string :=
  match n, s with
  | S n, String c s' => String c (substring_to n s')
  | _, _ => ""
  end.

(** The method call [v.toLowerCase()]: only a string has the method. *)
Definition call_toLowerCase (v : value) : outcome string :=
  match v with
  | VStr s => Ret (toLowerCase s)
  | _ => Throw TypeError
  end.

(** [l.filter(f)] with a callback that may throw. *)
Fixpoint filter_elems (f : value -> outcome bool) (l : list value)
    : outcome (list value) :=
  match l with
  | [] => Ret []
  | x :: rest =>
      keep ← f x;
      kept ← filter_elems f rest;
      Ret (if (keep : bool) then x :: kept else kept)
  end.

(** The method call [v.filter(f)]: only an array has the method. *)
Definition call_filter (v : value) (f : value -> outcome bool) : outcome value :=
  match v with
  | VArr elems => kept ← filter_elems f elems; mret (VArr kept)
  | _ => Throw TypeError
  end.

(** [o.k = w] on the property list of an object: an existing property
    keeps its place and takes the new value, a new one is added last. *)
Definition assign (k : string) (w : value) (props : list (string * value))
    : list (string * value) :=
  if existsb (fun kv => bool_decide (kv.1 = k)) props then
    map (fun kv => if bool_decide (kv.1 = k) then (kv.1, w) else kv) props
  else props ++ [(k, w)].

(** The assignment [v.k = w] in strict mode (the code is an ES module):
    it throws on a primitive.  An array takes the property, which
    [JSON.stringify] does not print, so the array is left as it is. *)
Definition set_prop (v : value) (k : string) (w : value) : outcome value :=
  match v with
  | VObj props => Ret (VObj (assign k w props))
  | VArr elems => Ret (VArr elems)
  | _ => Throw TypeError
  end.

End JS.

(** ** [JSON.stringify] and [JSON.parse]

    The texts are the JSON texts over the modelled values: integer
    numerals, the escapes of ASCII characters, white space between
    tokens. *)

Module JSON.
Import JS.

Definition hex_digit (n : N) : ascii :=
  ascii_of_N (if (n <? 10)%N then 48 + n else 87 + n)%N.

Definition hex_value (c : ascii) : option N :=
  let n := N_of_ascii c in
  if ((48 <=? n) && (n <=? 57))%N then Some (n - 48)%N
  else if ((97 <=? n) && (n <=? 102))%N then Some (n - 87)%N
  else if ((65 <=? n) && (n <=? 70))%N then Some (n - 55)%N
  else None.

(** The escape of one character inside a quoted string ([QuoteJSONString]):
    the quote, the backslash and the control characters are escaped. *)
Definition escape_char (c : ascii) : string :=
  let n := N_of_ascii c in
  if (n =? 34)%N then String "\" (String "034" "")
  else if (n =? 92)%N then "\\"
  else if (n =? 8)%N then "\b"
  else if (n =? 12)%N then "\f"
  else if (n =? 10)%N then "\n"
  else if (n =? 13)%N then "\r"
  else if (n =? 9)%N then "\t"
  else if (n <? 32)%N then
    "\u00" +:+ String (hex_digit (n / 16)) (String (hex_digit (n mod 16)) "")
  else String c "".

Fixpoint escape (s : string) : string :=
  match s with
  | EmptyString => ""
  | String c s' => escape_char c +:+ escape s'
  end.

Definition quote (s : string) : string :=
  String "034" "" +:+ escape s +:+ String "034" "".

Definition is_undefined (v : value) : bool :=
  match v with VUndefined => true | _ => false end.

(** The text of a value in element position: [undefined] and [NaN] print
    as [null], a property whose value is [undefined] is left out. *)
Fixpoint print (v : value) : string :=
  match v with
  | VUndefined | VNull => "null"
  | VBool true => "true"
  | VBool false => "false"
  | VNum NaN => "null"
  | VNum (Int z) => Z_to_string z
  | VStr s => quote s
  | VArr elems => "[" +:+ join "," (map print elems) +:+ "]"
  | VObj props =>
      "{" +:+ join ","
                ((fix members (ps : list (string * value)) : list string :=
                    match ps with
                    | [] => []
                    | (k, e) :: ps' =>
                        if is_undefined e then members ps'
                        else (quote k +:+ ":" +:+ print e) :: members ps'
                    end) props)
          +:+ "}"
  end.

(** [JSON.stringify(v)]: [undefined] at the top has no text. *)
Definition stringify (v : value) : option string :=
  match v with
  | VUndefined => None
  | _ => Some (print v)
  end.

(** The string handed to the storage for [JSON.stringify(v)]: the missing
    text converts to ["undefined"]. *)
Definition stringify_text (v : value) : string :=
  default "undefined" (stringify v).

(** *** Parsing *)

Fixpoint strip_prefix (p s : string) : option string :=
  match p with
  | EmptyString => Some s
  | String c p' =>
      match s with
      | String d s' => if Ascii.eqb c d then strip_prefix p' s' else None
      | EmptyString => None
      end
  end.

Fixpoint span_digits (s : string) : string * string :=
  match s with
  | String c s' =>
      if is_digit c then
        let '(d, r) := span_digits s' in (String c d, r)
      else ("", s)
  | EmptyString => ("", "")
  end.

(** An unsigned integer numeral: a run of digits with no superfluous
    leading zero. *)
Definition parse_unsigned (s : string) : option (Z * string) :=
  let '(d, r) := span_digits s in
  match d with
  | String c (String _ _) =>
      if Ascii.eqb c "0" then None
      else z ← digits_value d; Some (z, r)
  | _ => z ← digits_value d; Some (z, r)
  end.

Definition parse_number (s : string) : option (Z * string) :=
  match s with
  | String c s' =>
      if Ascii.eqb c "-" then
        '(z, r) ← parse_unsigned s'; Some (- z, r)
      else parse_unsigned s
  | EmptyString => None
  end.

(** The character an escape stands for, after the backslash (the
    [\u] escape apart). *)
Definition unescape (c : ascii) : option ascii :=
  let n := N_of_ascii c in
  if (n =? 34)%N then Some c
  else if (n =? 92)%N then Some c
  else if (n =? 47)%N then Some c
  else if (n =? 98)%N then Some (ascii_of_N 8)
  else if (n =? 102)%N then Some (ascii_of_N 12)
  else if (n =? 110)%N then Some (ascii_of_N 10)
  else if (n =? 114)%N then Some (ascii_of_N 13)
  else if (n =? 116)%N then Some (ascii_of_N 9)
  else None.

(** The code unit of [\uXXXX], when it is an ASCII character. *)
Definition unicode_escape (a b c d : ascii) : option ascii :=
  a ← hex_value a; b ← hex_value b; c ← hex_value c; d ← hex_value d;
  let n := (((a * 16 + b) * 16 + c) * 16 + d)%N in
  if (n <? 128)%N then Some (ascii_of_N n) else None.

(** The characters of a string up to its closing quote. *)
Fixpoint parse_chars (s : string) : option (string * string) :=
  match s with
  | EmptyString => None
  | String c s' =>
      if Ascii.eqb c "034" then Some ("", s')
      else if Ascii.eqb c "\" then
        match s' with
        | String e s'' =>
            if Ascii.eqb e "u" then
              match s'' with
              | String h1 (String h2 (String h3 (String h4 s5))) =>
                  x ← unicode_escape h1 h2 h3 h4;
                  '(t, r) ← parse_chars s5;
                  Some (String x t, r)
              | _ => None
              end
            else
              x ← unescape e;
              '(t, r) ← parse_chars s'';
              Some (String x t, r)
        | EmptyString => None
        end
      else if (N_of_ascii c <? 32)%N then None
      else '(t, r) ← parse_chars s'; Some (String c t, r)
  end.

Definition parse_string (s : string) : option (string * string) :=
  match s with
  | String c s' => if Ascii.eqb c "034" then parse_chars s' else None
  | EmptyString => None
  end.

(** JSON white space: tab, line feed, carriage return and space. *)
Definition is_ws (c : ascii) : bool :=
  let n := N_of_ascii c in
  ((n =? 9) || (n =? 10) || (n =? 13) || (n =? 32))%N.

Fixpoint skip_ws (s : string) : string :=
  match s with
  | String c s' => if is_ws c then skip_ws s' else s
  | EmptyString => s
  end.

(** A value, and what follows it; the fuel bounds the nesting of calls. *)
Fixpoint parse_value (fuel : nat) (s : string) : option (value * string) :=
  match fuel with
  | O => None
  | S fuel =>
      match skip_ws s with
      | EmptyString => None
      | String c s' as t =>
          if Ascii.eqb c "n" then r ← strip_prefix "ull" s'; Some (VNull, r)
          else if Ascii.eqb c "t" then
            r ← strip_prefix "rue" s'; Some (VBool true, r)
          else if Ascii.eqb c "f" then
            r ← strip_prefix "alse" s'; Some (VBool false, r)
          else if Ascii.eqb c "034" then
            '(x, r) ← parse_chars s'; Some (VStr x, r)
          else if Ascii.eqb c "[" then
            match skip_ws s' with
            | String d r as u =>
                if Ascii.eqb d "]" then Some (VArr [], r)
                else '(elems, r) ← parse_elements fuel u; Some (VArr elems, r)
            | EmptyString => None
            end
          else if Ascii.eqb c "{" then
            match skip_ws s' with
            | String d r as u =>
                if Ascii.eqb d "}" then Some (VObj [], r)
                else '(props, r) ← parse_members fuel u; Some (VObj props, r)
            | EmptyString => None
            end
          else '(z, r) ← parse_number t; Some (VNum (Int z), r)
      end
  end
with parse_elements (fuel : nat) (s : string)
    : option (list value * string) :=
  match fuel with
  | O => None
  | S fuel =>
      '(v, r) ← parse_value fuel s;
      match skip_ws r with
      | String c r' =>
          if Ascii.eqb c "," then
            '(vs, r'') ← parse_elements fuel r'; Some (v :: vs, r'')
          else if Ascii.eqb c "]" then Some ([v], r')
          else None
      | EmptyString => None
      end
  end
with parse_members (fuel : nat) (s : string)
    : option (list (string * value) * string) :=
  match fuel with
  | O => None
  | S fuel =>
      '(k, r) ← parse_string (skip_ws s);
      match skip_ws r with
      | String c r' =>
          if Ascii.eqb c ":" then
            '(v, r) ← parse_value fuel r';
            match skip_ws r with
            | String c r' =>
                if Ascii.eqb c "," then
                  '(ps, r'') ← parse_members fuel r'; Some ((k, v) :: ps, r'')
                else if Ascii.eqb c "}" then Some ([(k, v)], r')
                else None
            | EmptyString => None
            end
          else None
      | EmptyString => None
      end
  end.

(** [JSON.parse(text)]: the whole text is one value, possibly followed by
    white space; anything else is a [SyntaxError].  (A JSON text with a
    numeral or an escape outside the modelled values is refused as well:
    there the result is not that of the language, and [is_json] below
    tells such a text from one that is no JSON.) *)
Definition parse (text : string) : outcome value :=
  match parse_value (S (String.length text)) text with
  | Some (v, r) =>
      match skip_ws r with
      | EmptyString => Ret v
      | _ => Throw SyntaxError
      end
  | None => Throw SyntaxError
  end.

(** *** The grammar of JSON

    [parse] reads the JSON texts over the modelled values.  The grammar
    of the language has, besides, numerals with a fraction or an exponent
    and [\u] escapes of every code unit: [is_json] recognises the JSON
    texts in full, so that a text it refuses is one [JSON.parse] throws
    on. *)

(** At least one digit. *)
Definition skip_digits (s : string) : option string :=
  match span_digits s with
  | (EmptyString, _) => None
  | (_, r) => Some r
  end.

(** The integer part of a numeral: [0], or a digit from [1] to [9] and
    any digits. *)
Definition skip_int (s : string) : option string :=
  match s with
  | String c s' =>
      if Ascii.eqb c "0" then Some s'
      else if is_digit c then Some (span_digits s').2
      else None
  | EmptyString => None
  end.

(** The fraction of a numeral, if there is one. *)
Definition skip_fraction (s : string) : option string :=
  match s with
  | String c s' => if Ascii.eqb c "." then skip_digits s' else Some s
  | EmptyString => Some s
  end.

(** The exponent of a numeral, if there is one. *)
Definition skip_exponent (s : string) : option string :=
  match s with
  | String c s' =>
      if Ascii.eqb c "e" || Ascii.eqb c "E" then
        match s' with
        | String d s'' =>
            if Ascii.eqb d "+" || Ascii.eqb d "-" then skip_digits s''
            else skip_digits s'
        | EmptyString => None
        end
      else Some s
  | EmptyString => Some s
  end.

Definition skip_number (s : string) : option string :=
  r ← match s with
      | String c s' => if Ascii.eqb c "-" then skip_int s' else skip_int s
      | EmptyString => None
      end;
  r ← skip_fraction r;
  skip_exponent r.

Definition is_hex_digit (c : ascii) : bool :=
  match hex_value c with Some _ => true | None => false end.

Definition is_escape (c : ascii) : bool :=
  match unescape c with Some _ => true | None => false end.

(** The characters of a string up to its closing quote. *)
Fixpoint skip_chars (s : string) : option string :=
  match s with
  | EmptyString => None
  | String c s' =>
      if Ascii.eqb c "034" then Some s'
      else if Ascii.eqb c "\" then
        match s' with
        | String e s'' =>
            if Ascii.eqb e "u" then
              match s'' with
              | String h1 (String h2 (String h3 (String h4 s5))) =>
                  if is_hex_digit h1 && is_hex_digit h2 && is_hex_digit h3
                     && is_hex_digit h4
                  then skip_chars s5 else None
              | _ => None
              end
            else if is_escape e then skip_chars s'' else None
        | EmptyString => None
        end
      else if (N_of_ascii c <? 32)%N then None
      else skip_chars s'
  end.

Definition skip_string (s : string) : option string :=
  match s with
  | String c s' => if Ascii.eqb c "034" then skip_chars s' else None
  | EmptyString => None
  end.

(** What follows a value; the fuel bounds the nesting of calls. *)
Fixpoint skip_value (fuel : nat) (s : string) : option string :=
  match fuel with
  | O => None
  | S fuel =>
      match skip_ws s with
      | EmptyString => None
      | String c s' as t =>
          if Ascii.eqb c "n" then strip_prefix "ull" s'
          else if Ascii.eqb c "t" then strip_prefix "rue" s'
          else if Ascii.eqb c "f" then strip_prefix "alse" s'
          else if Ascii.eqb c "034" then skip_chars s'
          else if Ascii.eqb c "[" then
            match skip_ws s' with
            | String d r as u =>
                if Ascii.eqb d "]" then Some r else skip_elements fuel u
            | EmptyString => None
            end
          else if Ascii.eqb c "{" then
            match skip_ws s' with
            | String d r as u =>
                if Ascii.eqb d "}" then Some r else skip_members fuel u
            | EmptyString => None
            end
          else skip_number t
      end
  end
with skip_elements (fuel : nat) (s : string) : option string :=
  match fuel with
  | O => None
  | S fuel =>
      r ← skip_value fuel s;
      match skip_ws r with
      | String c r' =>
          if Ascii.eqb c "," then skip_elements fuel r'
          else if Ascii.eqb c "]" then Some r'
          else None
      | EmptyString => None
      end
  end
with skip_members (fuel : nat) (s : string) : option string :=
  match fuel with
  | O => None
  | S fuel =>
      r ← skip_string (skip_ws s);
      match skip_ws r with
      | String c r' =>
          if Ascii.eqb c ":" then
            r ← skip_value fuel r';
            match skip_ws r with
            | String c r' =>
                if Ascii.eqb c "," then skip_members fuel r'
                else if Ascii.eqb c "}" then Some r'
                else None
            | EmptyString => None
            end
          else None
      | EmptyString => None
      end
  end.

(** The text is one JSON value, possibly followed by white space. *)
Definition is_json (text : string) : bool :=
  match skip_value (S (String.length text)) text with
  | Some r => bool_decide (skip_ws r = "")
  | None => false
  end.

(** A text that [parse] reads as the language does: it is refused only if
    it is no JSON text. *)
Definition modelled (text : string) : Prop :=
  is_json text = true -> exists v, parse text = Ret v.

(** What may follow a numeral without being read as its fraction or
    exponent. *)
Definition ends_numeral (s : string) : Prop :=
  match s with
  | EmptyString => True
  | String c _ =>
      Ascii.eqb c "." = false /\ Ascii.eqb c "e" = false
      /\ Ascii.eqb c "E" = false
  end.

(** The values that a JSON text denotes: no [undefined], no [NaN]. *)
Fixpoint json_data (v : value) : bool :=
  match v with
  | VUndefined => false
  | VNum NaN => false
  | VNull | VBool _ | VNum (Int _) | VStr _ => true
  | VArr elems => forallb json_data elems
  | VObj props =>
      (fix members (ps : list (string * value)) : bool :=
         match ps with
         | [] => true
         | (_, e) :: ps' => json_data e && members ps'
         end) props
  end.

(** *** Auxiliary notions for the round trip of [parse] after [print] *)

(** What may follow a numeral without being read as one of its digits. *)
Definition head_not_digit (s : string) : Prop :=
  match s with
  | EmptyString => True
  | String c _ => is_digit c = false
  end.

(** The characters a numeral starts with. *)
Definition starts_value (c : ascii) : Prop :=
  is_digit c = true \/ c = "-"%char.

(** The first character of a printed value: not white space, not a closing
    bracket. *)
Definition opens_value (c : ascii) : Prop :=
  is_ws c = false /\ Ascii.eqb c "]" = false /\ Ascii.eqb c "}" = false.

(** A bound on the nesting of calls that parsing the text of a value
    takes. *)
Fixpoint cost (v : value) : nat :=
  match v with
  | VArr elems =>
      S ((fix go (l : list value) : nat :=
            match l with
            | [] => 0
            | e :: l' => S (cost e + go l')
            end) elems)
  | VObj props =>
      S ((fix go (ps : list (string * value)) : nat :=
            match ps with
            | [] => 0
            | (_, e) :: ps' => S (cost e + go ps')
            end) props)
  | _ => 1
  end%nat.

Definition cost_elems (l : list value) : nat :=
  list_sum (map (fun e => S (cost e)) l).
Definition cost_members (ps : list (string * value)) : nat :=
  list_sum (map (fun kv => S (cost kv.2)) ps).

(** The text of one property of an object. *)
Definition member_text (kv : string * value) : string :=
  quote kv.1 +:+ ":" +:+ print kv.2.

(** Parsing the text of [v], whatever follows it, gives [v] back. *)
Definition roundtrips (v : value) : Prop :=
  json_data v = true ->
  forall fuel rest, (cost v <= fuel)%nat -> head_not_digit rest ->
  parse_value fuel (print v +:+ rest) = Some (v, rest).

End JSON.

(** ** The data service: [validateModel] *)

Module DataService.
Import JS.

(** [ValidationError]: [value] is optional, and when present it may hold
    [undefined]. *)
Record ValidationError : Type := {
  field : string;
  message : string;
  value_of : option value;
}.

(** [ValidationResult<ProductModel>]. *)
Record ValidationResult : Type := {
  valid : bool;
  data : option value;
  errors : option (list ValidationError);
}.

Definition error (f m : string) : ValidationError :=
  {| field := f; message := m; value_of := None |}.

Definition error_with (f m : string) (v : value) : ValidationError :=
  {| field := f; message := m; value_of := Some v |}.

(** [errors.push(e)] when the condition holds. *)
Definition push_if (c : bool) (e : ValidationError)
    (errors : list ValidationError) : list ValidationError :=
  if c then errors ++ [e] else errors.

(** The checks on [m.image], once it is known to be a truthy object. *)
Definition check_image (image : value) (errors : list ValidationError)
    : outcome (list ValidationError) :=
  url ← prop image "url";
  let errors := push_if (negb (truthy url))
                  (error "image.url" "Image URL is required") errors in
  width ← prop image "width";
  let errors := push_if (negb (is_number width) || le width (VNum (Int 0)))
                  (error "image.width" "Image width must be a positive number")
                  errors in
  height ← prop image "height";
  let errors := push_if (negb (is_number height) || le height (VNum (Int 0)))
                  (error "image.height" "Image height must be a positive number")
                  errors in
  mret errors.

(** [`posmMarkers[${index}]`] followed by a suffix. *)
Definition marker_field (index : nat) (suffix : string) : string :=
  "posmMarkers[" +:+ Z_to_string (Z.of_nat index) +:+ "]" +:+ suffix.

(** The first condition of the callback:
    [!marker.position || typeof marker.position.x !== 'number'
       || typeof marker.position.y !== 'number'],
    evaluated left to right with short circuit. *)
Definition position_invalid (marker : value) : outcome bool :=
  position ← prop marker "position";
  if negb (truthy position) then mret true
  else
    x ← (position ← prop marker "position"; prop position "x");
    if negb (is_number x) then mret true
    else
      y ← (position ← prop marker "position"; prop position "y");
      mret (negb (is_number y)).

(** The body of the [forEach] callback for one marker. *)
Definition check_marker (marker : value) (index : nat)
    (errors : list ValidationError) : outcome (list ValidationError) :=
  bad ← position_invalid marker;
  let errors := push_if bad
                  (error (marker_field index ".position")
                         "Invalid position coordinates") errors in
  x ← (position ← prop marker "position"; prop position "x");
  let errors := push_if (lt x (VNum (Int 0)) || gt x (VNum (Int 100)))
                  (error_with (marker_field index ".position.x")
                              "X coordinate must be between 0 and 100" x)
                  errors in
  y ← (position ← prop marker "position"; prop position "y");
  let errors := push_if (lt y (VNum (Int 0)) || gt y (VNum (Int 100)))
                  (error_with (marker_field index ".position.y")
                              "Y coordinate must be between 0 and 100" y)
                  errors in
  mret errors.

(** [m.posmMarkers.forEach(...)], from the given index on. *)
Fixpoint check_markers (markers : list value) (index : nat)
    (errors : list ValidationError) : outcome (list ValidationError) :=
  match markers with
  | [] => mret errors
  | marker :: rest =>
      errors ← check_marker marker index errors;
      check_markers rest (S index) errors
  end.

Definition validateModel (model : value) : outcome ValidationResult :=
  if negb (is_object model) || is_null model then
    mret {| valid := false; data := None;
            errors := Some [error "model" "Model must be an object"] |}
  else
    let m := model in
    let errors := [] in
    id ← prop m "id";
    let errors := push_if (negb (truthy id) || negb (is_string id))
                    (error_with "id" "ID is required and must be a string" id)
                    errors in
    name ← prop m "name";
    let errors := push_if (negb (truthy name) || negb (is_string name))
                    (error_with "name" "Name is required and must be a string" name)
                    errors in
    image ← prop m "image";
    errors ← (if negb (truthy image) || negb (is_object image)
              then mret (errors ++ [error "image" "Image is required"])
              else check_image image errors);
    posmMarkers ← prop m "posmMarkers";
    errors ← (match posmMarkers with
              | VArr markers => check_markers markers 0 errors
              | _ => mret (errors ++ [error "posmMarkers"
                                        "POSM markers must be an array"])
              end);
    if (0 <? length errors)%nat then
      mret {| valid := false; data := None; errors := Some errors |}
    else
      mret {| valid := true; data := Some m; errors := None |}.

(** A marker whose [position] can be read further. *)
Definition has_position (marker : value) : Prop :=
  exists position,
    prop marker "position" = Ret position
    /\ is_null position = false /\ JSON.is_undefined position = false.

(** A well-formed model around a list of markers. *)
Definition sample_image : value :=
  VObj [("url", VStr "/img/m1.webp"); ("width", VNum (Int 800));
        ("height", VNum (Int 600))].

Definition sample_model (markers : list value) : value :=
  VObj [("id", VStr "m1"); ("name", VStr "Shelf"); ("image", sample_image);
        ("posmMarkers", VArr markers)].


(** *** The models that [validateModel] accepts *)

(** A coordinate that passes the range checks: a number that is neither
    below 0 nor above 100 (every comparison with [NaN] is false). *)
Definition in_percent (v : value) : bool :=
  match v with
  | VNum NaN => true
  | VNum (Int z) => (0 <=? z) && (z <=? 100)
  | _ => false
  end.

(** A size that passes the check of [image.width] and [image.height]. *)
Definition positive_size (v : value) : bool :=
  match v with
  | VNum NaN => true
  | VNum (Int z) => 0 <? z
  | _ => false
  end.

(** The property [k] of a value, [undefined] when it cannot be read. *)
Definition field_of (v : value) (k : string) : value :=
  match prop v k with
  | Ret w => w
  | Throw _ => VUndefined
  end.

Definition marker_ok (marker : value) : bool :=
  let position := field_of marker "position" in
  truthy position
  && in_percent (field_of position "x") && in_percent (field_of position "y").

(** A plain object with a non-empty string [id] and [name], an [image]
    object with a truthy [url] and positive sizes, and an array of markers
    whose positions are in range. *)
Definition well_formed (model : value) : bool :=
  match model with
  | VObj _ =>
      match field_of model "id", field_of model "name",
            field_of model "image", field_of model "posmMarkers" with
      | VStr id, VStr name, VObj image, VArr markers =>
          negb (bool_decide (id = "")) && negb (bool_decide (name = ""))
          && truthy (field_of (VObj image) "url")
          && positive_size (field_of (VObj image) "width")
          && positive_size (field_of (VObj image) "height")
          && forallb marker_ok markers
      | _, _, _, _ => false
      end
  | _ => false
  end.

End DataService.

(** ** Dates

    A time value is a number of milliseconds since the epoch; the text
    form is the one [toISOString] writes, [YYYY-MM-DDTHH:mm:ss.sssZ]
    (with a signed six-digit year outside 0..9999).  Other date formats
    that engines accept are outside the model and read as invalid. *)

Module Date.
Import JS.

Definition msPerDay : Z := 86400000.

(** The largest magnitude of a valid time value. *)
Definition maxTime : Z := 8640000000000000.

Definition valid_time (t : Z) : bool := (- maxTime <=? t) && (t <=? maxTime).

(** Year, month and day of a day number counted from 1970-01-01
    (proleptic Gregorian calendar). *)
Definition civil_from_days (days : Z) : Z * Z * Z :=
  let z := days + 719468 in
  let era := z / 146097 in
  let doe := z - era * 146097 in
  let yoe := (doe - doe / 1460 + doe / 36524 - doe / 146096) / 365 in
  let doy := doe - (365 * yoe + yoe / 4 - yoe / 100) in
  let mp := (5 * doy + 2) / 153 in
  let d := doy - (153 * mp + 2) / 5 + 1 in
  let m := if mp <? 10 then mp + 3 else mp - 9 in
  let y := yoe + era * 400 + (if m <=? 2 then 1 else 0) in
  (y, m, d).

Definition days_from_civil (y m d : Z) : Z :=
  let y := y - (if m <=? 2 then 1 else 0) in
  let era := y / 400 in
  let yoe := y - era * 400 in
  let doy := (153 * (if 2 <? m then m - 3 else m + 9) + 2) / 5 + d - 1 in
  let doe := yoe * 365 + yoe / 4 - yoe / 100 + doy in
  era * 146097 + doe - 719468.

Definition is_leap (y : Z) : bool :=
  ((y mod 4 =? 0) && negb (y mod 100 =? 0)) || (y mod 400 =? 0).

Definition days_in_month (y m : Z) : Z :=
  if m =? 2 then (if is_leap y then 29 else 28)
  else if (m =? 4) || (m =? 6) || (m =? 9) || (m =? 11) then 30
  else 31.

(** The character of a decimal digit. *)
Definition digit_char (d : Z) : ascii := ascii_of_N (48 + Z.to_N d).

(** The last [width] decimal digits of a natural number, the way the
    fields of a date are padded with zeros. *)
Fixpoint pad (width : nat) (z : Z) : string :=
  match width with
  | O => ""
  | S w => pad w (z / 10) +:+ String (digit_char (z mod 10)) ""
  end.

Definition year_text (y : Z) : string :=
  if (0 <=? y) && (y <=? 9999) then pad 4 y
  else if y <? 0 then "-" +:+ pad 6 (- y)
  else "+" +:+ pad 6 y.

(** [new Date(t).toISOString()]: a [RangeError] for an invalid time. *)
Definition toISOString (t : Z) : outcome string :=
  if valid_time t then
    let '(y, m, d) := civil_from_days (t / msPerDay) in
    let ms := t mod msPerDay in
    Ret (year_text y +:+ "-" +:+ pad 2 m +:+ "-" +:+ pad 2 d +:+ "T"
           +:+ pad 2 (ms / 3600000) +:+ ":" +:+ pad 2 (ms / 60000 mod 60)
           +:+ ":" +:+ pad 2 (ms / 1000 mod 60) +:+ "."
           +:+ pad 3 (ms mod 1000) +:+ "Z")
  else Throw RangeError.

(** Exactly [n] digits, and their value. *)
Fixpoint take_digits (n : nat) (acc : Z) (s : string) : option (Z * string) :=
  match n with
  | O => Some (acc, s)
  | S n =>
      match s with
      | String c s' =>
          if is_digit c then
            take_digits n (acc * 10 + (Z.of_N (N_of_ascii c) - 48)) s'
          else None
      | EmptyString => None
      end
  end.

Definition expect (c : ascii) (s : string) : option string :=
  match s with
  | String d s' => if Ascii.eqb c d then Some s' else None
  | EmptyString => None
  end.

Definition parse_year (s : string) : option (Z * string) :=
  match s with
  | String c s' =>
      if Ascii.eqb c "+" then take_digits 6 0 s'
      else if Ascii.eqb c "-" then
        '(y, r) ← take_digits 6 0 s';
        if y =? 0 then None else Some (- y, r)
      else take_digits 4 0 s
  | EmptyString => None
  end.

(** The time value that a date text denotes, if it is one.  The format
    read is the one [toISOString] writes; the other spellings that the
    language reads are outside the model. *)
Definition parse_fields (text : string) : option Z :=
  '(y, r) ← parse_year text;
  r ← expect "-" r; '(m, r) ← take_digits 2 0 r;
  r ← expect "-" r; '(d, r) ← take_digits 2 0 r;
  r ← expect "T" r; '(hh, r) ← take_digits 2 0 r;
  r ← expect ":" r; '(mm, r) ← take_digits 2 0 r;
  r ← expect ":" r; '(ss, r) ← take_digits 2 0 r;
  r ← expect "." r; '(ms, r) ← take_digits 3 0 r;
  r ← expect "Z" r;
  if bool_decide (r = "") && (1 <=? m) && (m <=? 12) && (1 <=? d)
     && (d <=? days_in_month y m)
     && ((hh <=? 23) || ((hh =? 24) && (mm =? 0) && (ss =? 0) && (ms =? 0)))
     && (mm <=? 59) && (ss <=? 59)
  then
    let t := days_from_civil y m d * msPerDay
             + hh * 3600000 + mm * 60000 + ss * 1000 + ms in
    if valid_time t then Some t else None
  else None.

(** [Date.parse(text)]: the time value, or [NaN]. *)
Definition parse (text : string) : number :=
  match parse_fields text with
  | Some t => Int t
  | None => NaN
  end.

(** [new Date(v).getTime()]: a string is parsed, any other value converts
    to a number; an out-of-range time is [NaN]. *)
Definition getTime (v : value) : number :=
  match ToPrimitive v with
  | VStr s => parse s
  | p =>
      match ToNumber p with
      | Int t => if valid_time t then Int t else NaN
      | NaN => NaN
      end
  end.

End Date.

(** ** The browser storage ([localStorage])

    A string-keyed store of strings.  Access may be denied altogether (a
    [SecurityError] on every use), and a write may exceed the quota (a
    [QuotaExceededError], the store staying as it was). *)

Record Storage : Type := {
  items : gmap string string;
  available : bool;
  quota : option nat;
}.

(** A computation over the storage that may throw. *)
Definition M (A : Type) : Type := Storage -> outcome A * Storage.

#[global] Instance M_ret : MRet M := fun _ a st => (Ret a, st).
#[global] Instance M_bind : MBind M := fun _ _ k m st =>
  match m st with
  | (Ret a, st') => k a st'
  | (Throw e, st') => (Throw e, st')
  end.

Definition throw {A} (e : exn) : M A := fun st => (Throw e, st).

Definition lift {A} (o : outcome A) : M A := fun st => (o, st).

(** [try { body } catch { handler }]. *)
Definition try_catch {A} (body : M A) (handler : exn -> M A) : M A :=
  fun st =>
    match body st with
    | (Ret a, st') => (Ret a, st')
    | (Throw e, st') => handler e st'
    end.

Module localStorage.

(** The space the stored keys and values take. *)
Definition usage (m : gmap string string) : nat :=
  map_fold (fun k v n => (String.length k + String.length v + n)%nat) 0%nat m.

Definition fits (q : option nat) (m : gmap string string) : bool :=
  match q with
  | None => true
  | Some n => (usage m <=? n)%nat
  end.

Definition with_items (st : Storage) (m : gmap string string) : Storage :=
  {| items := m; available := available st; quota := quota st |}.

Definition getItem (key : string) : M (option string) := fun st =>
  if available st then (Ret (items st !! key), st)
  else (Throw SecurityError, st).

Definition setItem (key v : string) : M unit := fun st =>
  if available st then
    let m := <[key := v]> (items st) in
    if fits (quota st) m then (Ret tt, with_items st m)
    else (Throw QuotaExceededError, st)
  else (Throw SecurityError, st).

Definition removeItem (key : string) : M unit := fun st =>
  if available st then (Ret tt, with_items st (delete key (items st)))
  else (Throw SecurityError, st).

(** The keys in the order the browser enumerates them. *)
Definition keys (st : Storage) : list string := (map_to_list (items st)).*1.

(** [localStorage.length]. *)
Definition length : M nat := fun st =>
  if available st then (Ret (List.length (keys st)), st)
  else (Throw SecurityError, st).

(** [localStorage.key(i)]. *)
Definition key (i : nat) : M (option string) := fun st =>
  if available st then (Ret (keys st !! i), st)
  else (Throw SecurityError, st).

(** A storage that grants access and has room for every write. *)
Definition healthy (st : Storage) : Prop :=
  available st = true /\ quota st = None.

(** The storage of a new browser profile. *)
Definition fresh : Storage :=
  {| items := ∅; available := true; quota := None |}.

(** A storage that denies every access. *)
Definition denied : Storage :=
  {| items := ∅; available := false; quota := None |}.

End localStorage.

(** [!data] for the result of [getItem]: [null] and the empty string. *)
Definition absent (data : option string) : bool :=
  match data with
  | None => true
  | Some s => bool_decide (s = "")
  end.

(** ** Regular expressions *)

Module RegExp.

(** Regular expressions, as far as the utilities use them: classes of
    characters, sequence, alternative and repetition. *)
Inductive regex : Type :=
| Never
| Empty
| Class (class : ascii -> bool)
| Seq (r1 r2 : regex)
| Alt (r1 r2 : regex)
| Star (r : regex).

(** [r+]. *)
Definition Plus (r : regex) : regex := Seq r (Star r).

(** One given character. *)
Definition Char (c : ascii) : regex := Class (Ascii.eqb c).

Fixpoint nullable (r : regex) : bool :=
  match r with
  | Never => false
  | Empty => true
  | Class _ => false
  | Seq r1 r2 => nullable r1 && nullable r2
  | Alt r1 r2 => nullable r1 || nullable r2
  | Star _ => true
  end.

(** What is left of [r] to match after the character [c]. *)
Fixpoint after (c : ascii) (r : regex) : regex :=
  match r with
  | Never | Empty => Never
  | Class class => if class c then Empty else Never
  | Seq r1 r2 =>
      if nullable r1 then Alt (Seq (after c r1) r2) (after c r2)
      else Seq (after c r1) r2
  | Alt r1 r2 => Alt (after c r1) (after c r2)
  | Star r => Seq (after c r) (Star r)
  end.

(** [/^r$/.test(s)]: the whole text matches. *)
Fixpoint test (r : regex) (s : string) : bool :=
  match s with
  | EmptyString => nullable r
  | String c s' => test (after c r) s'
  end.

(** The texts that a regular expression denotes. *)
Inductive denotes : regex -> string -> Prop :=
| denotes_empty : denotes Empty ""
| denotes_class class c : class c = true -> denotes (Class class) (String c "")
| denotes_seq r1 r2 s1 s2 :
    denotes r1 s1 -> denotes r2 s2 -> denotes (Seq r1 r2) (s1 +:+ s2)
| denotes_alt_l r1 r2 s : denotes r1 s -> denotes (Alt r1 r2) s
| denotes_alt_r r1 r2 s : denotes r2 s -> denotes (Alt r1 r2) s
| denotes_star_nil r : denotes (Star r) ""
| denotes_star_more r s1 s2 :
    denotes r s1 -> denotes (Star r) s2 -> denotes (Star r) (s1 +:+ s2).

End RegExp.

(** ** The rate limiter (security utilities) *)

Module Security.
Import JS localStorage.

Definition counter (attempts resetTime : value) : value :=
  VObj [("attempts", attempts); ("resetTime", resetTime)].

(** The body of the [try] block of [rateLimit]. *)
Definition rateLimit_try (storageKey : string) (maxAttempts windowMs now : Z)
    : M bool :=
  data ← getItem storageKey;
  if absent data then
    setItem storageKey
      (JSON.stringify_text
         (counter (VNum (Int 1)) (VNum (Int (now + windowMs)))));;
    mret true
  else
    parsed ← lift (JSON.parse (default "" data));
    attempts ← lift (prop parsed "attempts");
    resetTime ← lift (prop parsed "resetTime");
    if gt (VNum (Int now)) resetTime then
      setItem storageKey
        (JSON.stringify_text
           (counter (VNum (Int 1)) (VNum (Int (now + windowMs)))));;
      mret true
    else if lt attempts (VNum (Int maxAttempts)) then
      setItem storageKey
        (JSON.stringify_text
           (counter (add attempts (VNum (Int 1))) resetTime));;
      mret true
    else mret false.

(** [rateLimit(key, maxAttempts, windowMs)] called at time [now]. *)
Definition rateLimit (key : string) (maxAttempts windowMs now : Z) : M bool :=
  let storageKey := "rate_limit_" +:+ key in
  try_catch (rateLimit_try storageKey maxAttempts windowMs now)
            (fun _ => mret true).

Definition clearRateLimit (key : string) : M unit :=
  let storageKey := "rate_limit_" +:+ key in
  removeItem storageKey.

(** The stored text of a counter. *)
Definition counter_text (a r : Z) : string :=
  JSON.stringify_text (counter (VNum (Int a)) (VNum (Int r))).

(** A run of calls of [rateLimit] for one key, at the given times. *)
Fixpoint calls (key : string) (maxAttempts windowMs : Z) (times : list Z)
    : M (list bool) :=
  match times with
  | [] => mret []
  | now :: later =>
      allowed ← rateLimit key maxAttempts windowMs now;
      rest ← calls key maxAttempts windowMs later;
      mret (allowed :: rest)
  end.

(** *** File names *)

(** [s.replace(/\.\./g, '')]: the pairs of dots, from left to right. *)
Fixpoint remove_dot_pairs (s : string) : string :=
  match s with
  | String c1 (String c2 rest as tail) =>
      if Ascii.eqb c1 "." && Ascii.eqb c2 "." then remove_dot_pairs rest
      else String c1 (remove_dot_pairs tail)
  | _ => s
  end.

(** [s.replace(/[\/\\]/g, '')]. *)
Fixpoint remove_slashes (s : string) : string :=
  match s with
  | EmptyString => ""
  | String c s' =>
      if Ascii.eqb c "/" || Ascii.eqb c "\" then remove_slashes s'
      else String c (remove_slashes s')
  end.

Definition is_lower (c : ascii) : bool :=
  let n := N_of_ascii c in ((97 <=? n) && (n <=? 122))%N.

Definition is_upper (c : ascii) : bool :=
  let n := N_of_ascii c in ((65 <=? n) && (n <=? 90))%N.

(** The class [[a-zA-Z0-9._-]]. *)
Definition is_safe (c : ascii) : bool :=
  is_lower c || is_upper c || is_digit c
  || Ascii.eqb c "." || Ascii.eqb c "_" || Ascii.eqb c "-".

(** [s.replace(/[^a-zA-Z0-9._-]/g, '_')]. *)
Fixpoint replace_unsafe (s : string) : string :=
  match s with
  | EmptyString => ""
  | String c s' => String (if is_safe c then c else "_"%char) (replace_unsafe s')
  end.

Definition sanitizeFilename (filename : string) : string :=
  if bool_decide (filename = "") then ""
  else
    let sanitized := remove_dot_pairs filename in
    let sanitized := remove_slashes sanitized in
    let sanitized := replace_unsafe sanitized in
    if (255 <? String.length sanitized)%nat then substring_to 255 sanitized
    else sanitized.

(** Every character of the text is in the class. *)
Fixpoint all_chars (class : ascii -> bool) (s : string) : bool :=
  match s with
  | EmptyString => true
  | String c s' => class c && all_chars class s'
  end.

(** *** Password strength *)

(** [regex.test(s)] for a class of characters: some character is in it. *)
Fixpoint has_char (class : ascii -> bool) (s : string) : bool :=
  match s with
  | EmptyString => false
  | String c s' => class c || has_char class s'
  end.

(** The class [[^a-zA-Z0-9]]. *)
Definition is_special (c : ascii) : bool :=
  negb (is_lower c || is_upper c || is_digit c).

Record PasswordStrength : Type := {
  isValid : bool;
  score : Z;
  feedback : list string;
}.

Definition validatePasswordStrength (password : string) : PasswordStrength :=
  let feedback := [] in
  let score := 0 in
  let '(score, feedback) :=
    if (8 <=? String.length password)%nat then (score + 1, feedback)
    else (score, feedback ++ ["Password should be at least 8 characters long"]) in
  let score :=
    if (12 <=? String.length password)%nat then score + 1 else score in
  let '(score, feedback) :=
    if has_char is_lower password then (score + 1, feedback)
    else (score, feedback ++ ["Add lowercase letters"]) in
  let '(score, feedback) :=
    if has_char is_upper password then (score + 1, feedback)
    else (score, feedback ++ ["Add uppercase letters"]) in
  let '(score, feedback) :=
    if has_char is_digit password then (score + 1, feedback)
    else (score, feedback ++ ["Add numbers"]) in
  let '(score, feedback) :=
    if has_char is_special password then (score + 1, feedback)
    else (score, feedback ++ ["Add special characters (!@#$%^&*)"]) in
  {| isValid := 4 <=? score; score := score; feedback := feedback |}.

(** The number of character classes (lower case, upper case, digit,
    other) that occur in the password. *)
Definition classes (password : string) : Z :=
  (if has_char is_lower password then 1 else 0)
  + (if has_char is_upper password then 1 else 0)
  + (if has_char is_digit password then 1 else 0)
  + (if has_char is_special password then 1 else 0).

(** *** E-mail addresses *)

(** The class [[^\s@]], on ASCII text. *)
Definition plain (c : ascii) : bool := negb (is_space c || Ascii.eqb c "@").

(** [/^[^\s@]+@[^\s@]+\.[^\s@]+$/]. *)
Definition emailRegex : RegExp.regex :=
  let part := RegExp.Plus (RegExp.Class plain) in
  RegExp.Seq part
    (RegExp.Seq (RegExp.Char "@")
       (RegExp.Seq part (RegExp.Seq (RegExp.Char ".") part))).

Definition isValidEmail (email : string) : bool :=
  RegExp.test emailRegex email.

End Security.

(** ** The session store *)

Module SessionStore.
Import JS localStorage Security.

Definition SESSION_KEY : string := "posm-catalogue-session".
Definition SESSION_DURATION : Z := 24 * 60 * 60 * 1000.
Definition MAX_LOGIN_ATTEMPTS : Z := 5.
Definition RATE_LIMIT_WINDOW : Z := 15 * 60 * 1000.
Definition DEMO_PASSWORD : string := "admin123".

Definition too_many_attempts : exn :=
  Error "Too many login attempts. Please try again in 15 minutes.".

(** [generateSessionToken()]: the template with every [x] and [y]
    replaced; [random i] is the value of [(Math.random() * 16) | 0] at the
    [i]-th replacement. *)
Fixpoint fill_template (template : string) (random : nat -> N) (i : nat)
    : string :=
  match template with
  | EmptyString => ""
  | String c rest =>
      if Ascii.eqb c "x" then
        String (JSON.hex_digit (random i mod 16))
               (fill_template rest random (S i))
      else if Ascii.eqb c "y" then
        String (JSON.hex_digit (N.lor (N.land (random i mod 16) 3) 8))
               (fill_template rest random (S i))
      else String c (fill_template rest random i)
  end.

Definition generateSessionToken (random : nat -> N) : string :=
  fill_template "xxxxxxxx-xxxx-4xxx-yxxx-xxxxxxxxxxxx" random 0.

(** The [UserSession] object that [login] builds. *)
Definition session_object (token expiresAt : string) : value :=
  VObj [("isAuthenticated", VBool true);
        ("sessionToken", VStr token);
        ("expiresAt", VStr expiresAt);
        ("mode", VStr "admin")].

(** [login(password)]: [now] is the clock when the rate limiter runs,
    [now'] the clock when the session is built. *)
Definition login (password : string) (random : nat -> N) (now now' : Z)
    : M bool :=
  allowed ← rateLimit "login" MAX_LOGIN_ATTEMPTS RATE_LIMIT_WINDOW now;
  if negb allowed then throw too_many_attempts
  else if bool_decide (password = DEMO_PASSWORD) then
    clearRateLimit "login";;
    let token := generateSessionToken random in
    expiresAt ← lift (Date.toISOString (now' + SESSION_DURATION));
    setItem SESSION_KEY (JSON.stringify_text (session_object token expiresAt));;
    mret true
  else mret false.

Definition logout : M unit := removeItem SESSION_KEY.

(** [getSession()], called at time [now]; the result is the session or
    [null]. *)
Definition getSession (now : Z) : M value :=
  try_catch
    (sessionData ← getItem SESSION_KEY;
     if absent sessionData then mret VNull
     else
       session ← lift (JSON.parse (default "" sessionData));
       field ← lift (prop session "expiresAt");
       let expiresAt := Date.getTime field in
       if gt (VNum (Int now)) (VNum expiresAt) then
         logout;; mret VNull
       else mret session)
    (fun _ => mret VNull).

(** [isAuthenticated()]: [session !== null && session.isAuthenticated]. *)
Definition isAuthenticated (now : Z) : M value :=
  session ← getSession now;
  if is_null session then mret (VBool false)
  else lift (prop session "isAuthenticated").

(** A stored record that is not flagged authenticated and expires in
    2030. *)
Definition unflagged_session : value :=
  VObj [("isAuthenticated", VBool false);
        ("sessionToken", VStr "0f8c2a51-7d3e-4b6a-9c1d-2e4f6a8b0c1d");
        ("expiresAt", VStr "2030-01-01T00:00:00.000Z");
        ("mode", VStr "admin")].

Definition unflagged_storage : Storage :=
  with_items fresh
    (<[SESSION_KEY := JSON.stringify_text unflagged_session]> (items fresh)).

(** The storage once the session record is deleted. *)
Definition without_session (st : Storage) : Storage :=
  with_items st (delete SESSION_KEY (items st)).

(** [refreshSession()]: [now] is the clock when [getSession] runs, [now']
    the clock when the new expiry is computed. *)
Definition refreshSession (now now' : Z) : M unit :=
  session ← getSession now;
  if truthy session then
    expiresAt ← lift (Date.toISOString (now' + SESSION_DURATION));
    session ← lift (set_prop session "expiresAt" (VStr expiresAt));
    setItem SESSION_KEY (JSON.stringify_text session)
  else mret tt.

(** A lower-case hexadecimal digit. *)
Definition is_hex (c : ascii) : bool :=
  is_digit c || ((97 <=? N_of_ascii c) && (N_of_ascii c <=? 102))%N.

(** The text has the shape of the template: a hexadecimal digit for every
    [x], one of [8], [9], [a], [b] for [y], and the character itself
    otherwise. *)
Fixpoint matches_template (template s : string) : bool :=
  match template, s with
  | EmptyString, EmptyString => true
  | String t template, String c s =>
      (if Ascii.eqb t "x" then is_hex c
       else if Ascii.eqb t "y" then
         Ascii.eqb c "8" || Ascii.eqb c "9" || Ascii.eqb c "a" || Ascii.eqb c "b"
       else Ascii.eqb t c)
      && matches_template template s
  | _, _ => false
  end.

End SessionStore.

(** ** The draft store *)

Module DraftStore.
Import JS localStorage.

Definition DRAFT_KEY_PREFIX : string := "posm-draft-".
Definition TIMESTAMP_SUFFIX : string := "-timestamp".

Definition draft_key (modelId : string) : string :=
  DRAFT_KEY_PREFIX +:+ modelId.

Definition timestamp_key (modelId : string) : string :=
  draft_key modelId +:+ TIMESTAMP_SUFFIX.

Definition save_failed : exn := Error "Failed to save draft".

(** [saveDraft(modelId, draftData)], called at time [now]. *)
Definition saveDraft (modelId : string) (draftData : value) (now : Z)
    : M unit :=
  try_catch
    (let key := draft_key modelId in
     let timestampKey := timestamp_key modelId in
     setItem key (JSON.stringify_text draftData);;
     stamp ← lift (Date.toISOString now);
     setItem timestampKey stamp)
    (fun _ => throw save_failed).

(** [loadDraft(modelId)]: the draft or [null]. *)
Definition loadDraft (modelId : string) : M value :=
  try_catch
    (let key := draft_key modelId in
     draftData ← getItem key;
     if absent draftData then mret VNull
     else lift (JSON.parse (default "" draftData)))
    (fun _ => mret VNull).

Definition clearDraft (modelId : string) : M unit :=
  let key := draft_key modelId in
  let timestampKey := timestamp_key modelId in
  removeItem key;;
  removeItem timestampKey.

Definition hasDraft (modelId : string) : M bool :=
  data ← getItem (draft_key modelId);
  mret (bool_decide (data <> None)).

(** [s.startsWith(p)]. *)
Definition startsWith (p s : string) : bool := String.prefix p s.

(** [s.endsWith(p)]. *)
Definition endsWith (p s : string) : bool :=
  String.prefix (String.rev p) (String.rev s).

(** [s.substring(n)]. *)
Fixpoint substring_from (n : nat) (s : string) : string :=
  match n, s with
  | S n, String _ s' => substring_from n s'
  | _, _ => s
  end.

(** One turn of the loop of [getAllDraftIds], on the key at index [i]. *)
Definition scan_key (key : option string) (draftIds : list string)
    : list string :=
  match key with
  | Some k =>
      if negb (bool_decide (k = ""))
         && startsWith DRAFT_KEY_PREFIX k
         && negb (endsWith TIMESTAMP_SUFFIX k)
      then draftIds ++ [substring_from (String.length DRAFT_KEY_PREFIX) k]
      else draftIds
  | None => draftIds
  end.

(** The loop from index [i], with [n] turns left; the bound
    [localStorage.length] is read at every turn. *)
Fixpoint scan (n i : nat) (draftIds : list string) : M (list string) :=
  match n with
  | O => mret draftIds
  | S n =>
      len ← length;
      if (i <? len)%nat then
        k ← key i;
        scan n (S i) (scan_key k draftIds)
      else mret draftIds
  end.

(** [getAllDraftIds()]: the loop ends when the index reaches
    [localStorage.length], which does not change meanwhile. *)
Definition getAllDraftIds : M (list string) := fun st =>
  scan (S (List.length (keys st))) 0 [] st.



(** The storage once a draft and its time stamp are written. *)
Definition with_draft (st : Storage) (modelId : string) (draft : value)
    (stamp : string) : Storage :=
  with_items st
    (<[timestamp_key modelId := stamp]>
       (<[draft_key modelId := JSON.stringify_text draft]> (items st))).

(** The test of the loop on one key. *)
Definition is_draft_key (k : string) : bool :=
  negb (bool_decide (k = "")) && startsWith DRAFT_KEY_PREFIX k
  && negb (endsWith TIMESTAMP_SUFFIX k).

(** The loop over a list of keys. *)
Definition scan_keys (ks : list string) (draftIds : list string) : list string :=
  fold_left (fun ids k => scan_key (Some k) ids) ks draftIds.

(** [getDraftTimestamp(modelId)]. *)
Definition getDraftTimestamp (modelId : string) : M (option string) :=
  let timestampKey := DRAFT_KEY_PREFIX +:+ modelId +:+ TIMESTAMP_SUFFIX in
  getItem timestampKey.

(** [l.forEach(f)]. *)
Fixpoint forEach {A} (l : list A) (f : A -> M unit) : M unit :=
  match l with
  | [] => mret tt
  | x :: rest => f x;; forEach rest f
  end.

Definition clearAllDrafts : M unit :=
  draftIds ← getAllDraftIds;
  forEach draftIds (fun id => clearDraft id).

(** The store once the drafts of the listed ids are cleared. *)
Definition cleared (ids : list string) (m : gmap string string)
    : gmap string string :=
  fold_left (fun m id => delete (timestamp_key id) (delete (draft_key id) m))
            ids m.

End DraftStore.

(** ** The cache store ([CacheService]) *)

Module CacheService.

(** [CacheEntry<T>]: [ttl] is optional. *)
Record CacheEntry : Type := {
  data : value;
  timestamp : Z;
  ttl : option number;
}.

(** The private [Map<string, CacheEntry>] of the service. *)
Abbreviation cache := (gmap string CacheEntry).

(** [entry.ttl && Date.now() - entry.timestamp > entry.ttl]: the guard is
    the truthiness of [ttl], so [undefined], [0] and [NaN] all skip the
    comparison. *)
Definition expired (entry : CacheEntry) (now : Z) : bool :=
  match ttl entry with
  | None => false
  | Some NaN => false
  | Some (Int t) => negb (t =? 0) && (now - timestamp entry >? t)
  end.

(** [get(key)] at time [now]: the value (or [null]) and the cache
    afterwards. *)
Definition get (key : string) (now : Z) (c : cache) : value * cache :=
  match c !! key with
  | None => (VNull, c)
  | Some entry =>
      if expired entry now then (VNull, delete key c)
      else (data entry, c)
  end.

(** [set(key, value, ttl?)] at time [now]. *)
Definition set (key : string) (v : value) (t : option number) (now : Z)
    (c : cache) : cache :=
  <[key := {| data := v; timestamp := now; ttl := t |}]> c.

Definition remove (key : string) (c : cache) : cache := delete key c.

Definition clear (c : cache) : cache := ∅.

Definition size (c : cache) : nat := base.size c.

(** [has(key)] is [get(key) !== null]. *)
Definition has (key : string) (now : Z) (c : cache) : bool * cache :=
  let '(v, c') := get key now c in
  (match v with VNull => false | _ => true end, c').

(** The entries that a read at time [now] would still serve. *)
Definition live (now : Z) (c : cache) : cache :=
  filter (fun kv => expired kv.2 now = false) c.

End CacheService.

(** ** The data service: loading, searching, filtering, exporting *)

Module ModelService.
Import JS CacheService.

Definition CATALOGUE_INDEX_TTL : Z := 5 * 60 * 1000.
Definition MODEL_DATA_TTL : Z := 10 * 60 * 1000.

(** The [Response] of [fetch]: [json] is what [response.json()] resolves
    to or rejects with. *)
Record Response : Type := {
  ok : bool;
  status : Z;
  statusText : string;
  json : outcome value;
}.

(** [fetch(url)]: the response, or the rejection of a request that
    failed. *)
Definition Fetch : Type := string -> outcome Response.

Definition load_failed : exn := Error "Failed to load catalogue index".

(** The [try] block of [loadCatalogueIndex], up to the data that it
    caches and returns. *)
Definition fetchCatalogueIndex (fetch : Fetch) : outcome value :=
  response ← fetch "/data/models.json";
  if negb (ok response) then
    Throw (Error ("Failed to load catalogue index: " +:+ statusText response))
  else
    data ← json response;
    version ← prop data "version";
    if negb (truthy version) then Throw (Error "Invalid catalogue data format")
    else
      models ← prop data "models";
      if negb (truthy models) then Throw (Error "Invalid catalogue data format")
      else
        models ← prop data "models";
        if negb (isArray models) then
          Throw (Error "Invalid catalogue data format")
        else mret data.

(** [loadCatalogueIndex()]: [now] is the clock when the cache is read,
    [now'] the clock when the response has arrived and the data is cached
    (no other task touches the cache in between); the [catch] block
    replaces every error. *)
Definition loadCatalogueIndex (fetch : Fetch) (now now' : Z) (c : cache)
    : outcome value * cache :=
  let cacheKey := "catalogue-index" in
  let '(cached, c) := get cacheKey now c in
  if truthy cached then (Ret cached, c)
  else
    match fetchCatalogueIndex fetch with
    | Ret data =>
        (Ret data, set cacheKey data (Some (Int CATALOGUE_INDEX_TTL)) now' c)
    | Throw _ => (Throw load_failed, c)
    end.

(** The [try] block of [loadModel]. *)
Definition fetchModel (fetch : Fetch) (modelId : string) : outcome value :=
  response ← fetch ("/data/models/" +:+ modelId +:+ ".json");
  if negb (ok response) then
    if status response =? 404 then
      Throw (Error ("Model not found: " +:+ modelId))
    else Throw (Error ("Failed to load model: " +:+ statusText response))
  else
    data ← json response;
    id ← prop data "id";
    if negb (truthy id) then Throw (Error "Invalid model data format")
    else
      name ← prop data "name";
      if negb (truthy name) then Throw (Error "Invalid model data format")
      else
        image ← prop data "image";
        if negb (truthy image) then Throw (Error "Invalid model data format")
        else mret data.

(** [loadModel(modelId)]; the [catch] block throws the error again. *)
Definition loadModel (fetch : Fetch) (modelId : string) (now now' : Z)
    (c : cache) : outcome value * cache :=
  let cacheKey := "model-" +:+ modelId in
  let '(cached, c) := get cacheKey now c in
  if truthy cached then (Ret cached, c)
  else
    match fetchModel fetch modelId with
    | Ret data =>
        (Ret data, set cacheKey data (Some (Int MODEL_DATA_TTL)) now' c)
    | Throw e => (Throw e, c)
    end.

(** The callback of the filter of [searchModels]. *)
Definition matches (searchTerm : string) (model : value) : outcome bool :=
  name ← prop model "name";
  lowered ← call_toLowerCase name;
  let nameMatch := includes lowered searchTerm in
  code ← prop model "code";
  codeMatch ← match code with
              | VUndefined | VNull => mret false
              | _ =>
                  lowered ← call_toLowerCase code;
                  mret (includes lowered searchTerm || false)
              end;
  mret (nameMatch || codeMatch).

Definition searchModels (query : string) (catalogue : value) : outcome value :=
  if bool_decide (query = "") || bool_decide (trim query = "") then
    prop catalogue "models"
  else
    let searchTerm := trim (toLowerCase query) in
    models ← prop catalogue "models";
    call_filter models (matches searchTerm).

(** [categoryIds.includes(catId)], for the strings of the selection. *)
Definition selected (categoryIds : list string) (catId : value) : bool :=
  match catId with
  | VStr s => existsb (String.eqb s) categoryIds
  | _ => false
  end.

(** The callback of the filter of [filterModelsByCategory]:
    [model.categoryIds.some(...)]. *)
Definition in_categories (categoryIds : list string) (model : value)
    : outcome bool :=
  ids ← prop model "categoryIds";
  match ids with
  | VArr catIds => mret (existsb (selected categoryIds) catIds)
  | _ => Throw TypeError
  end.

Definition filterModelsByCategory (categoryIds : list string)
    (catalogue : value) : outcome value :=
  match categoryIds with
  | [] => prop catalogue "models"
  | _ =>
      models ← prop catalogue "models";
      call_filter models (in_categories categoryIds)
  end.

(** [{ ...catalogue, models }]: the properties of the catalogue with
    [models] replaced (the index properties that spreading an array or a
    string would copy are left out; the filters read [models] only). *)
Definition with_models (catalogue models : value) : value :=
  match catalogue with
  | VObj props => VObj (assign "models" models props)
  | _ => VObj [("models", models)]
  end.

(** The list of the home page ([filteredModels] of the App component):
    the search, then the category filter, each applied only when it is
    set. *)
Definition filteredModels (catalogue : value) (searchQuery : string)
    (selectedCategories : list string) : outcome value :=
  if negb (truthy catalogue) then Ret (VArr [])
  else
    models ← prop catalogue "models";
    models ← (if negb (bool_decide (searchQuery = "")) then
                searchModels searchQuery (with_models catalogue models)
              else Ret models);
    models ← (if (0 <? length selectedCategories)%nat then
                filterModelsByCategory selectedCategories
                  (with_models catalogue models)
              else Ret models);
    Ret models.

Inductive ExportType : Type := full | selective.

Definition export_type_text (t : ExportType) : string :=
  match t with full => "full" | selective => "selective" end.

(** [model.categoryIds.forEach(catId => categoryIds.add(catId))] for each
    model: the set is not read afterwards, so all that is left of the
    loop is that every [categoryIds] must have the method. *)
Fixpoint collect_categories (models : list value) : outcome unit :=
  match models with
  | [] => mret tt
  | model :: rest =>
      ids ← prop model "categoryIds";
      match ids with
      | VArr _ => collect_categories rest
      | _ => Throw TypeError
      end
  end.

(** [models.reduce((sum, model) => sum + model.posmMarkers.length, sum)]. *)
Fixpoint sum_markers (models : list value) (sum : value) : outcome value :=
  match models with
  | [] => mret sum
  | model :: rest =>
      markers ← prop model "posmMarkers";
      n ← length_of markers;
      sum_markers rest (add sum n)
  end.

(** [exportModels(models, exportType)], called at time [now]. *)
Definition exportModels (models : list value) (exportType : ExportType)
    (now : Z) : outcome value :=
  match models with
  | [] => Throw (Error "Cannot export empty model list")
  | _ =>
      collect_categories models;;
      let categories := [] in
      totalMarkers ← sum_markers models (VNum (Int 0));
      exportedAt ← Date.toISOString now;
      mret (VObj [("exportedAt", VStr exportedAt);
                  ("exportType", VStr (export_type_text exportType));
                  ("version", VStr "1.0.0");
                  ("models", VArr models);
                  ("categories", VArr categories);
                  ("metadata",
                   VObj [("totalModels", VNum (Int (Z.of_nat (length models))));
                         ("totalMarkers", totalMarkers)])])
  end.

(** *** Notions for the statements *)

(** Whether the callback of a filter keeps the element. *)
Definition keeps (f : value -> outcome bool) (x : value) : bool :=
  match f x with Ret true => true | _ => false end.

(** The test of [searchModels] for a query that selects nothing. *)
Definition blank (query : string) : bool :=
  bool_decide (query = "") || bool_decide (trim query = "").

(** A model that has one of the selected categories. *)
Definition in_selection (categoryIds : list string) (model : value) : Prop :=
  exists catIds s,
    prop model "categoryIds" = Ret (VArr catIds)
    /\ VStr s ∈ catIds /\ s ∈ categoryIds.

(** The texts that the search reads off a model, its name and its code,
    are ASCII text. *)
Definition ascii_named (model : value) : bool :=
  match prop model "name" with Ret (VStr s) => ascii_text s | _ => true end
  && match prop model "code" with Ret (VStr s) => ascii_text s | _ => true end.

(** What the home page keeps of a model. *)
Definition wanted (searchQuery : string) (selectedCategories : list string)
    (model : value) : bool :=
  (blank searchQuery
   || keeps (matches (trim (toLowerCase searchQuery))) model)
  && (bool_decide (selectedCategories = [])
      || keeps (in_categories selectedCategories) model).

(** The shape that [loadCatalogueIndex] checks before it caches. *)
Definition catalogue_shaped (data : value) : Prop :=
  exists version models,
    prop data "version" = Ret version /\ truthy version = true
    /\ prop data "models" = Ret (VArr models).

(** Every catalogue that the cache holds has the checked shape. *)
Definition catalogue_cached_shaped (c : cache) : Prop :=
  forall entry, c !! "catalogue-index" = Some entry ->
                catalogue_shaped (CacheService.data entry).

(** A model whose [posmMarkers] is an array, and the number of its
    markers. *)
Definition has_markers (model : value) : Prop :=
  exists markers, prop model "posmMarkers" = Ret (VArr markers).

Definition has_categories (model : value) : Prop :=
  exists ids, prop model "categoryIds" = Ret (VArr ids).

Definition marker_count (model : value) : Z :=
  match prop model "posmMarkers" with
  | Ret (VArr markers) => Z.of_nat (length markers)
  | _ => 0
  end.

Definition total_count (models : list value) : Z :=
  fold_right Z.add 0 (map marker_count models).

(** A catalogue of two models, and a server that answers every request
    with it. *)
Definition sample_summary (id name : string) (categoryIds : list value)
    : value :=
  VObj [("id", VStr id); ("name", VStr name);
        ("categoryIds", VArr categoryIds); ("posmMarkers", VArr [])].

Definition sample_catalogue : value :=
  VObj [("version", VStr "1.0.0");
        ("models", VArr [sample_summary "m1" "Big Shelf" [VStr "floor"];
                         sample_summary "m2" "Fridge" [VStr "cooler"]])].

Definition serve (body : value) : Fetch :=
  fun _ => Ret {| ok := true; status := 200; statusText := "OK";
                  json := Ret body |}.

End ModelService.

(** ** The export utilities *)

Module ExportUtils.
Import JS ModelService.

(** The reduction of [calculateTotalMarkers]. *)
Fixpoint reduce_markers (models : list value) (total : value) : outcome value :=
  match models with
  | [] => mret total
  | model :: rest =>
      markers ← prop model "posmMarkers";
      n ← length_of markers;
      reduce_markers rest (add total n)
  end.

Definition calculateTotalMarkers (models : list value) : outcome value :=
  reduce_markers models (VNum (Int 0)).

(** [createExportData(models, categories, exportType, notes?)], called at
    time [now]. *)
Definition createExportData (models categories : list value)
    (exportType : ExportType) (notes : option string) (now : Z)
    : outcome value :=
  totalMarkers ← calculateTotalMarkers models;
  let metadata :=
    VObj [("totalModels", VNum (Int (Z.of_nat (length models))));
          ("totalMarkers", totalMarkers);
          ("exportedBy", VUndefined);
          ("notes", match notes with Some s => VStr s | None => VUndefined end)] in
  exportedAt ← Date.toISOString now;
  mret (VObj [("exportedAt", VStr exportedAt);
              ("exportType", VStr (export_type_text exportType));
              ("version", VStr "1.0.0");
              ("models", VArr models);
              ("categories", VArr categories);
              ("metadata", metadata)]).

(** [a !== b] for two numbers. *)
Definition number_differs (a b : number) : bool :=
  match a, b with
  | Int x, Int y => negb (x =? y)
  | _, _ => true
  end.

(** [validateExportData(data)]. *)
Definition validateExportData (data : value) : outcome bool :=
  if negb (truthy data) || negb (is_object data) then mret false
  else
    exportedAt ← prop data "exportedAt";
    exportType ← prop data "exportType";
    version ← prop data "version";
    if negb (truthy exportedAt) || negb (truthy exportType)
       || negb (truthy version) then mret false
    else
      models ← prop data "models";
      match models with
      | VArr elems =>
          if (length elems =? 0)%nat then mret false
          else
            categories ← prop data "categories";
            if negb (isArray categories) then mret false
            else
              metadata ← prop data "metadata";
              if negb (truthy metadata) || negb (is_object metadata)
              then mret false
              else
                totalModels ← prop metadata "totalModels";
                totalMarkers ← prop metadata "totalMarkers";
                match totalModels, totalMarkers with
                | VNum n, VNum _ =>
                    if number_differs n (Int (Z.of_nat (length elems)))
                    then mret false
                    else mret true
                | _, _ => mret false
                end
      | _ => mret false
      end.

End ExportUtils.

(* ===================================================================== *)
(** * Part II: theorems                                                   *)
(* ===================================================================== *)

(** ** JSON: parsing the text of a value gives the value back *)

Module JSONFacts.
Import JS JSON.

Lemma sapp_cons c (s t : string) : String c s +:+ t = String c (s +:+ t).
Proof. reflexivity. Qed.

Lemma sapp_nil_l (t : string) : "" +:+ t = t.
Proof. reflexivity. Qed.

Ltac sapp := rewrite ?sapp_cons, ?sapp_nil_l in *.

Lemma sapp_nil_r (s : string) : s +:+ "" = s.
Proof. induction s; sapp; congruence. Qed.

Lemma sapp_assoc (a b c : string) : (a +:+ b) +:+ c = a +:+ b +:+ c.
Proof. induction a; sapp; congruence. Qed.

Ltac snorm := repeat (progress (rewrite ?sapp_assoc, ?sapp_cons, ?sapp_nil_l in * )).

Lemma slength_app (a b : string) :
  String.length (a +:+ b) = (String.length a + String.length b)%nat.
Proof. induction a; sapp; simpl; congruence. Qed.

Lemma span_digits_app d rest :
  all_digits d = true -> head_not_digit rest ->
  span_digits (d +:+ rest) = (d, rest).
Proof.
  induction d as [|c d IH]; sapp; simpl; intros Hd Hr.
  - destruct rest as [|c r]; simpl in *; [done|]. by rewrite Hr.
  - apply andb_true_iff in Hd as [Hc Hd]. rewrite Hc, IH; auto.
Qed.

Lemma all_digits_uint u : all_digits (NilEmpty.string_of_uint u) = true.
Proof. induction u; simpl; auto. Qed.

Lemma to_uint_head p : exists c s,
  NilEmpty.string_of_uint (Pos.to_uint p) = String c s /\ c <> "0"%char.
Proof.
  assert (E : Pos.to_uint p = unorm (Pos.to_uint p)).
  { rewrite <- (Unsigned.to_of (Pos.to_uint p)), Unsigned.of_to. reflexivity. }
  assert (Hnz : nzhead (Pos.to_uint p) <> Nil).
  { intros Hn. apply unorm_0 in Hn. rewrite <- E in Hn.
    by apply Unsigned.to_uint_nonzero in Hn. }
  rewrite (unorm_nzhead _ Hnz) in E.
  pose proof (nzhead_nonzero (Pos.to_uint p)) as H0.
  rewrite <- E in Hnz, H0.
  destruct (Pos.to_uint p); simpl; try (eexists _, _; split; [reflexivity | discriminate]).
  - done.
  - by destruct (H0 u).
Qed.

Lemma parse_unsigned_pos p rest :
  head_not_digit rest ->
  parse_unsigned (Z_to_string (Z.pos p) +:+ rest) = Some (Z.pos p, rest).
Proof.
  intros Hr. unfold Z_to_string, parse_unsigned. simpl.
  assert (Hs : NilZero.string_of_uint (Pos.to_uint p)
               = NilEmpty.string_of_uint (Pos.to_uint p)).
  { pose proof (Unsigned.to_uint_nonnil p). by destruct (Pos.to_uint p). }
  rewrite Hs, span_digits_app by auto using all_digits_uint.
  destruct (to_uint_head p) as (c & s & E & Hc).
  assert (Hv : digits_value (NilEmpty.string_of_uint (Pos.to_uint p))
               = Some (Z.pos p)).
  { unfold digits_value. rewrite E, <- E, NilEmpty.usu. simpl.
    unfold Z.of_uint. by rewrite Unsigned.of_to. }
  rewrite Hv. rewrite E.
  destruct s; [done|].
  destruct (Ascii.eqb_spec c "0"); [done|]. done.
Qed.

Lemma parse_number_print z rest :
  head_not_digit rest ->
  parse_number (Z_to_string z +:+ rest) = Some (z, rest).
Proof.
  intros Hr. destruct z as [|p|p].
  - simpl. destruct rest as [|c r]; simpl in *; [done|].
    unfold parse_unsigned. simpl. by rewrite Hr.
  - pose proof (parse_unsigned_pos p rest Hr) as H.
    unfold parse_number.
    destruct (to_uint_head p) as (c & s & E & Hc).
    assert (Hd : all_digits (String c s) = true).
    { rewrite <- E. apply all_digits_uint. }
    unfold Z_to_string in *. simpl in *.
    assert (Hs : NilZero.string_of_uint (Pos.to_uint p) = String c s).
    { rewrite <- E. pose proof (Unsigned.to_uint_nonnil p). by destruct (Pos.to_uint p). }
    rewrite Hs in *. simpl.
    destruct (Ascii.eqb_spec c "-"); [|done].
    subst c. simpl in Hd. done.
  - pose proof (parse_unsigned_pos p rest Hr) as H.
    unfold Z_to_string in *. simpl in *. by rewrite H.
Qed.

Lemma parse_chars_escape_char c t :
  parse_chars (escape_char c +:+ t)
  = '(x, r) ← parse_chars t; Some (String c x, r).
Proof. destruct c as [[] [] [] [] [] [] [] []]; reflexivity. Qed.

Lemma parse_chars_escape s rest :
  parse_chars (escape s +:+ String "034" rest) = Some (s, rest).
Proof.
  induction s as [|c s IH].
  - reflexivity.
  - simpl escape. rewrite sapp_assoc, parse_chars_escape_char, IH. reflexivity.
Qed.

Lemma parse_string_quote s rest :
  parse_string (quote s +:+ rest) = Some (s, rest).
Proof. unfold quote. snorm. simpl. apply parse_chars_escape. Qed.

Lemma value_ind' (P : value -> Prop) :
  P VUndefined -> P VNull -> (forall b, P (VBool b)) ->
  (forall n, P (VNum n)) -> (forall s, P (VStr s)) ->
  (forall l, Forall P l -> P (VArr l)) ->
  (forall ps, Forall (fun kv => P kv.2) ps -> P (VObj ps)) ->
  forall v, P v.
Proof.
  intros HU HN HB HNum HS HA HO.
  fix IH 1. intros [| |b|n|s|l|ps];
    [apply HU | apply HN | apply HB | apply HNum | apply HS | | ].
  - apply HA.
    revert l. fix IHl 1. intros [|e l]; constructor; [apply IH | apply IHl].
  - apply HO.
    revert ps. fix IHp 1. intros [|[k e] ps]; constructor; [apply IH | apply IHp].
Qed.

Lemma Z_to_string_head z : exists c s,
  Z_to_string z = String c s /\ starts_value c.
Proof.
  destruct z as [|p|p].
  - exists "0"%char, "". split; [reflexivity | by left].
  - destruct (to_uint_head p) as (c & s & E & Hc).
    exists c, s. split.
    + unfold Z_to_string. simpl. rewrite <- E.
      pose proof (Unsigned.to_uint_nonnil p). by destruct (Pos.to_uint p).
    + left. pose proof (all_digits_uint (Pos.to_uint p)) as Hd.
      rewrite E in Hd. simpl in Hd. by apply andb_true_iff in Hd as [? _].
  - eexists _, _. split; [reflexivity | by right].
Qed.

Lemma parse_value_number c s fuel :
  starts_value c ->
  parse_value (S fuel) (String c s)
  = '(z, r) ← parse_number (String c s); Some (VNum (Int z), r).
Proof.
  intros [H| ->]; [|reflexivity].
  destruct c as [[] [] [] [] [] [] [] []]; try discriminate H; reflexivity.
Qed.

Lemma cost_arr l : cost (VArr l) = S (cost_elems l).
Proof.
  simpl. f_equal. unfold cost_elems.
  induction l as [|e l IH]; simpl; [done|]. by rewrite IH.
Qed.

Lemma cost_obj ps : cost (VObj ps) = S (cost_members ps).
Proof.
  simpl. f_equal. unfold cost_members.
  induction ps as [|[k e] ps IH]; simpl; [done|]. by rewrite IH.
Qed.

Lemma json_data_obj ps :
  json_data (VObj ps) = forallb (fun kv => json_data kv.2) ps.
Proof.
  simpl. induction ps as [|[k e] ps IH]; simpl; [done|]. by rewrite IH.
Qed.

Lemma print_obj ps :
  forallb (fun kv => json_data kv.2) ps = true ->
  print (VObj ps) = "{" +:+ join "," (map member_text ps) +:+ "}".
Proof.
  intros H. simpl. do 3 f_equal.
  induction ps as [|[k e] ps IH]; simpl in *; [done|].
  apply andb_true_iff in H as [He H].
  destruct e; try discriminate He; simpl; by rewrite IH.
Qed.

Lemma starts_opens c : starts_value c -> opens_value c.
Proof.
  intros [H| ->]; [|done].
  destruct c as [[] [] [] [] [] [] [] []]; try discriminate H; done.
Qed.

Lemma print_head v : exists c s, print v = String c s /\ opens_value c.
Proof.
  destruct v as [| |[]|[|z]|s|l|ps]; simpl;
    try (eexists _, _; split; [reflexivity | done]).
  - destruct (Z_to_string_head z) as (c & s & E & Hc).
    exists c, s. split; [done | by apply starts_opens].
Qed.

Lemma skip_ws_head c s : is_ws c = false -> skip_ws (String c s) = String c s.
Proof. intros H. simpl. by rewrite H. Qed.

Lemma parse_elements_last fuel s v r :
  parse_value fuel s = Some (v, "]" +:+ r) ->
  parse_elements (S fuel) s = Some ([v], r).
Proof. intros H. sapp. simpl. rewrite H. reflexivity. Qed.

Lemma parse_elements_more fuel s v r vs r' :
  parse_value fuel s = Some (v, "," +:+ r) ->
  parse_elements fuel r = Some (vs, r') ->
  parse_elements (S fuel) s = Some (v :: vs, r').
Proof. intros H H'. sapp. simpl. rewrite H. simpl. rewrite H'. reflexivity. Qed.

Lemma parse_members_last fuel k s v r :
  parse_value fuel s = Some (v, "}" +:+ r) ->
  parse_members (S fuel) (quote k +:+ ":" +:+ s) = Some ([(k, v)], r).
Proof.
  intros H. unfold quote. snorm. simpl.
  rewrite parse_chars_escape. simpl. rewrite H. reflexivity.
Qed.

Lemma parse_members_more fuel k s v r ps r' :
  parse_value fuel s = Some (v, "," +:+ r) ->
  parse_members fuel r = Some (ps, r') ->
  parse_members (S fuel) (quote k +:+ ":" +:+ s) = Some ((k, v) :: ps, r').
Proof.
  intros H H'. unfold quote. snorm. simpl.
  rewrite parse_chars_escape. simpl. rewrite H. simpl. rewrite H'. reflexivity.
Qed.

Lemma parse_value_array fuel c t l r :
  opens_value c ->
  parse_elements fuel (String c t) = Some (l, r) ->
  parse_value (S fuel) ("[" +:+ String c t) = Some (VArr l, r).
Proof.
  intros (Hws & Hc & _) H. sapp. simpl. rewrite Hws, Hc, H. reflexivity.
Qed.

Lemma parse_value_object fuel t ps r :
  parse_members fuel (String "034" t) = Some (ps, r) ->
  parse_value (S fuel) ("{" +:+ String "034" t) = Some (VObj ps, r).
Proof. intros H. sapp. simpl. rewrite H. reflexivity. Qed.

Lemma join_cons sep x y l :
  join sep (x :: y :: l) = x +:+ sep +:+ join sep (y :: l).
Proof. reflexivity. Qed.

Lemma parse_elements_print l :
  l <> [] -> Forall roundtrips l -> forallb json_data l = true ->
  forall fuel rest, (cost_elems l <= fuel)%nat ->
  parse_elements fuel (join "," (map print l) +:+ "]" +:+ rest)
  = Some (l, rest).
Proof.
  intros Hne HF. induction HF as [|e l He HF IH]; [done|].
  intros Hd fuel rest Hfuel. simpl in Hd.
  apply andb_true_iff in Hd as [Hde Hdl].
  unfold cost_elems in Hfuel. simpl in Hfuel. fold (cost_elems l) in Hfuel.
  destruct fuel as [|fuel]; [lia|].
  destruct l as [|e' l].
  - apply parse_elements_last, He; [done | lia | done].
  - rewrite !map_cons, join_cons, <- !map_cons, !sapp_assoc.
    eapply parse_elements_more.
    + apply He; [done | lia | done].
    + apply IH; [done | done | lia].
Qed.

Lemma parse_members_print ps :
  ps <> [] -> Forall (fun kv => roundtrips kv.2) ps ->
  forallb (fun kv => json_data kv.2) ps = true ->
  forall fuel rest, (cost_members ps <= fuel)%nat ->
  parse_members fuel (join "," (map member_text ps) +:+ "}" +:+ rest)
  = Some (ps, rest).
Proof.
  intros Hne HF. induction HF as [|[k e] ps He HF IH]; [done|].
  intros Hd fuel rest Hfuel. simpl in Hd, He.
  apply andb_true_iff in Hd as [Hde Hdl].
  unfold cost_members in Hfuel. simpl in Hfuel. fold (cost_members ps) in Hfuel.
  destruct fuel as [|fuel]; [lia|].
  destruct ps as [|kv' ps].
  - simpl join. unfold member_text. simpl fst. simpl snd. rewrite !sapp_assoc.
    apply parse_members_last, He; [done | lia | done].
  - rewrite !map_cons, join_cons, <- !map_cons.
    unfold member_text at 1. simpl fst. simpl snd. rewrite !sapp_assoc.
    eapply parse_members_more.
    + apply He; [done | lia | done].
    + apply IH; [done | done | lia].
Qed.

Lemma print_arr l : print (VArr l) = "[" +:+ join "," (map print l) +:+ "]".
Proof. reflexivity. Qed.

Lemma parse_print v : roundtrips v.
Proof.
  induction v as [| |b|n|s|l IH|ps IH] using value_ind';
    intros Hd fuel rest Hfuel Hrest; try discriminate Hd.
  - destruct fuel; [simpl in Hfuel; lia|]. reflexivity.
  - destruct fuel; [simpl in Hfuel; lia|]. by destruct b.
  - destruct n as [|z]; [discriminate Hd|].
    destruct fuel; [simpl in Hfuel; lia|].
    simpl print.
    destruct (Z_to_string_head z) as (c & s & E & Hc).
    pose proof (parse_number_print z rest Hrest) as Hn.
    rewrite E in *. sapp.
    rewrite parse_value_number, Hn by done. reflexivity.
  - destruct fuel; [simpl in Hfuel; lia|].
    simpl print. unfold quote. snorm. simpl.
    rewrite parse_chars_escape. reflexivity.
  - rewrite cost_arr in Hfuel. destruct fuel as [|fuel]; [lia|].
    destruct l as [|e l]; [reflexivity|].
    rewrite print_arr, !sapp_assoc.
    destruct (print_head e) as (c & t & E & Hc).
    assert (exists t', join "," (map print (e :: l)) +:+ "]" +:+ rest
                       = String c t') as [t' Et].
    { destruct l; [simpl join | rewrite !map_cons, join_cons];
        rewrite E; sapp; eauto. }
    pose proof (parse_elements_print (e :: l) ltac:(done) IH Hd fuel rest
                  ltac:(lia)) as Hp.
    rewrite Et in *. by apply parse_value_array.
  - rewrite cost_obj in Hfuel. destruct fuel as [|fuel]; [lia|].
    rewrite json_data_obj in Hd. rewrite print_obj by done.
    destruct ps as [|[k e] ps]; [reflexivity|].
    rewrite !sapp_assoc.
    assert (exists t', join "," (map member_text ((k, e) :: ps)) +:+ "}" +:+ rest
                       = String "034" t') as [t' Et].
    { destruct ps; [simpl join | rewrite !map_cons, join_cons];
        unfold member_text at 1, quote; sapp; eauto. }
    pose proof (parse_members_print ((k, e) :: ps) ltac:(done) IH Hd fuel rest
                  ltac:(lia)) as Hp.
    rewrite Et in *. by apply parse_value_object.
Qed.

Lemma length_join_elems (l : list value) :
  Forall (fun e => cost e <= String.length (print e))%nat l ->
  (cost_elems l <= String.length (join "," (map print l)) + 1)%nat.
Proof.
  unfold cost_elems.
  induction 1 as [|e l He HF IH]; [simpl; lia|].
  destruct l as [|e' l]; [simpl; lia|].
  rewrite !map_cons in *. rewrite join_cons, !slength_app.
  unfold list_sum in *. cbn [fold_right String.length] in *. lia.
Qed.

Lemma length_join_members (ps : list (string * value)) :
  Forall (fun kv => cost kv.2 <= String.length (print kv.2))%nat ps ->
  (cost_members ps <= String.length (join "," (map member_text ps)) + 1)%nat.
Proof.
  unfold cost_members.
  induction 1 as [|[k e] ps He HF IH]; [simpl; lia|].
  simpl in He.
  destruct ps as [|kv' ps].
  - simpl. unfold member_text. rewrite !slength_app. simpl. lia.
  - rewrite !map_cons in *. rewrite join_cons, !slength_app.
    unfold member_text at 1. rewrite !slength_app.
    unfold list_sum in *. cbn [fold_right String.length fst snd] in *. lia.
Qed.

Lemma Forall_json_data (P : value -> Prop) l :
  Forall (fun e => json_data e = true -> P e) l ->
  forallb json_data l = true -> Forall P l.
Proof.
  induction 1 as [|e l He HF IH]; simpl; intros H; constructor;
    apply andb_true_iff in H as [? ?]; auto.
Qed.

Lemma Forall_json_data_members (P : value -> Prop) (ps : list (string * value)) :
  Forall (fun kv => json_data kv.2 = true -> P kv.2) ps ->
  forallb (fun kv => json_data kv.2) ps = true -> Forall (fun kv => P kv.2) ps.
Proof.
  induction 1 as [|e l He HF IH]; simpl; intros H; constructor;
    apply andb_true_iff in H as [? ?]; auto.
Qed.

Lemma cost_le_length v :
  json_data v = true -> (cost v <= String.length (print v))%nat.
Proof.
  induction v as [| |b|n|s|l IH|ps IH] using value_ind'; intros Hd;
    try discriminate Hd.
  - simpl. lia.
  - destruct b; simpl; lia.
  - destruct n as [|z]; [discriminate Hd|].
    destruct (Z_to_string_head z) as (c & s & E & _).
    simpl. rewrite E. simpl. lia.
  - simpl. unfold quote. rewrite !slength_app. simpl. lia.
  - rewrite cost_arr, print_arr, !slength_app. simpl String.length.
    pose proof (length_join_elems l (Forall_json_data _ l IH Hd)). lia.
  - rewrite json_data_obj in Hd.
    rewrite cost_obj, print_obj, !slength_app by done. simpl String.length.
    pose proof (length_join_members ps
                  (Forall_json_data_members
                     (fun e => cost e <= String.length (print e))%nat ps IH Hd)).
    lia.
Qed.

(** [JSON.parse] gives back every value that [JSON.stringify] wrote, as
    long as the value holds no [undefined] and no [NaN]. *)
Theorem parse_stringify v :
  json_data v = true -> parse (stringify_text v) = Ret v.
Proof.
  intros Hd.
  assert (Ht : stringify_text v = print v) by (by destruct v).
  rewrite Ht. unfold parse.
  pose proof (parse_print v Hd (S (String.length (print v))) ""
                ltac:(pose proof (cost_le_length v Hd); lia) I) as H.
  rewrite sapp_nil_r in H. rewrite H. reflexivity.
Qed.

(** *** The parser reads JSON texts only *)

Lemma span_digits_none s r : span_digits s = ("", r) -> r = s.
Proof.
  destruct s as [|c s]; cbn [span_digits]; [by intros [= <-]|].
  destruct (is_digit c); [|by intros [= <-]].
  by destruct (span_digits s).
Qed.

Lemma ends_numeral_skip r : ends_numeral r ->
  skip_fraction r = Some r /\ skip_exponent r = Some r.
Proof.
  destruct r as [|c r]; [done|]. cbn. intros (-> & -> & ->). done.
Qed.

Lemma parse_unsigned_skip s z r :
  parse_unsigned s = Some (z, r) -> skip_int s = Some r.
Proof.
  unfold parse_unsigned. destruct s as [|c s]; [done|].
  cbn [span_digits skip_int]. destruct (is_digit c) eqn:Hc; [|done].
  destruct (span_digits s) as [d r'] eqn:Hs. cbn [snd].
  destruct d as [|c' d].
  - apply span_digits_none in Hs as ->. intros H.
    assert (r = s) as ->.
    { destruct (digits_value (String c "")); by simplify_eq/=. }
    by destruct (Ascii.eqb c "0").
  - destruct (Ascii.eqb c "0"); [done|]. intros H.
    destruct (digits_value _); by simplify_eq/=.
Qed.

Lemma parse_number_skip s z r :
  parse_number s = Some (z, r) -> ends_numeral r -> skip_number s = Some r.
Proof.
  intros H Hr. destruct (ends_numeral_skip r Hr) as [Hf He].
  unfold skip_number. destruct s as [|c s]; [done|]. cbn [parse_number] in H.
  destruct (Ascii.eqb c "-").
  - destruct (parse_unsigned s) as [[z' r']|] eqn:Hu; [|done].
    cbn in H. simplify_eq. rewrite (parse_unsigned_skip _ _ _ Hu). cbn.
    by rewrite Hf.
  - rewrite (parse_unsigned_skip _ _ _ H). cbn. by rewrite Hf.
Qed.

Lemma parse_chars_skip n s x r :
  (String.length s <= n)%nat ->
  parse_chars s = Some (x, r) -> skip_chars s = Some r.
Proof.
  revert s x r. induction n as [|n IH]; intros s x r Hn.
  { destruct s; [done|cbn in Hn; lia]. }
  destruct s as [|c s]; [done|]. cbn [String.length] in Hn.
  cbn [parse_chars skip_chars].
  destruct (Ascii.eqb c "034"); [by intros [= _ ->]|].
  destruct (Ascii.eqb c "\").
  - destruct s as [|e s]; [done|]. cbn [String.length] in Hn.
    destruct (Ascii.eqb e "u").
    + destruct s as [|h1 [|h2 [|h3 [|h4 s]]]]; try done.
      cbn [String.length] in Hn.
      unfold unicode_escape, is_hex_digit.
      destruct (hex_value h1); [|done]. destruct (hex_value h2); [|done].
      destruct (hex_value h3); [|done]. destruct (hex_value h4); [|done].
      cbn. case_match; [|done]. cbn.
      destruct (parse_chars s) as [[t r']|] eqn:Hp; [|done].
      cbn. intros [= _ ->]. apply (IH s t); [lia|done].
    + unfold is_escape. destruct (unescape e); [|done]. cbn.
      destruct (parse_chars s) as [[t r']|] eqn:Hp; [|done].
      cbn. intros [= _ ->]. apply (IH s t); [lia|done].
  - destruct (N_of_ascii c <? 32)%N; [done|].
    destruct (parse_chars s) as [[t r']|] eqn:Hp; [|done].
    cbn. intros [= _ ->]. apply (IH s t); [lia|done].
Qed.

Lemma parse_string_skip s x r :
  parse_string s = Some (x, r) -> skip_string s = Some r.
Proof.
  unfold parse_string, skip_string. destruct s as [|c s]; [done|].
  destruct (Ascii.eqb c "034"); [|done]. by apply parse_chars_skip with (n := String.length s).
Qed.

(** What stands before a separator does not go on as a numeral. *)
Lemma skip_ws_ends_numeral r c r' :
  skip_ws r = String c r' ->
  Ascii.eqb c "." = false -> Ascii.eqb c "e" = false ->
  Ascii.eqb c "E" = false ->
  ends_numeral r.
Proof.
  destruct r as [|d r]; [done|]. cbn [skip_ws ends_numeral].
  destruct (is_ws d) eqn:Hd.
  - intros _ _ _ _. unfold is_ws in Hd.
    repeat split; apply Ascii.eqb_neq; intros ->; done.
  - by intros [= -> _].
Qed.

Lemma skip_ws_nil_ends_numeral r : skip_ws r = "" -> ends_numeral r.
Proof.
  destruct r as [|d r]; [done|]. cbn [skip_ws ends_numeral].
  destruct (is_ws d) eqn:Hd; [|done].
  intros _. unfold is_ws in Hd.
  repeat split; apply Ascii.eqb_neq; intros ->; done.
Qed.

Lemma parse_value_skip fuel :
  (forall s v r, parse_value fuel s = Some (v, r) -> ends_numeral r ->
                 skip_value fuel s = Some r)
  /\ (forall s vs r, parse_elements fuel s = Some (vs, r) ->
                     skip_elements fuel s = Some r)
  /\ (forall s ps r, parse_members fuel s = Some (ps, r) ->
                     skip_members fuel s = Some r).
Proof.
  induction fuel as [|fuel (IHv & IHe & IHm)]; [done|].
  split; [|split].
  - intros s v r. cbn [parse_value skip_value].
    destruct (skip_ws s) as [|c s'] eqn:Hs; [done|].
    destruct (Ascii.eqb c "n").
    { destruct (strip_prefix "ull" s'); [|done]. by intros [= _ ->]. }
    destruct (Ascii.eqb c "t").
    { destruct (strip_prefix "rue" s'); [|done]. by intros [= _ ->]. }
    destruct (Ascii.eqb c "f").
    { destruct (strip_prefix "alse" s'); [|done]. by intros [= _ ->]. }
    destruct (Ascii.eqb c "034").
    { destruct (parse_chars s') as [[x r']|] eqn:Hp; [|done].
      cbn. intros [= _ ->] _.
      by apply parse_chars_skip with (n := String.length s') (x := x). }
    destruct (Ascii.eqb c "[").
    { destruct (skip_ws s') as [|d u]; [done|].
      destruct (Ascii.eqb d "]"); [by intros [= _ ->]|].
      destruct (parse_elements fuel (String d u)) as [[elems r']|] eqn:Hp; [|done].
      cbn. intros [= _ ->] _. by apply (IHe _ elems). }
    destruct (Ascii.eqb c "{").
    { destruct (skip_ws s') as [|d u]; [done|].
      destruct (Ascii.eqb d "}"); [by intros [= _ ->]|].
      destruct (parse_members fuel (String d u)) as [[props r']|] eqn:Hp; [|done].
      cbn. intros [= _ ->] _. by apply (IHm _ props). }
    destruct (parse_number (String c s')) as [[z r']|] eqn:Hp; [|done].
    intros H Hr. cbn in H. simplify_eq. by apply (parse_number_skip _ z).
  - intros s vs r. cbn [parse_elements skip_elements].
    destruct (parse_value fuel s) as [[v r1]|] eqn:Hp; [|done]. cbn.
    destruct (skip_ws r1) as [|c r'] eqn:Hw; [done|].
    destruct (Ascii.eqb c ",") eqn:Hc1.
    + apply Ascii.eqb_eq in Hc1 as ->.
      rewrite (IHv _ _ _ Hp) by (by apply (skip_ws_ends_numeral _ _ _ Hw)).
      cbn. rewrite Hw. cbn.
      destruct (parse_elements fuel r') as [[vs' r'']|] eqn:Hp'; [|done].
      cbn. intros [= _ ->]. by apply (IHe _ vs').
    + destruct (Ascii.eqb c "]") eqn:Hc2; [|done].
      apply Ascii.eqb_eq in Hc2 as ->.
      rewrite (IHv _ _ _ Hp) by (by apply (skip_ws_ends_numeral _ _ _ Hw)).
      cbn. rewrite Hw. cbn. by intros [= _ ->].
  - intros s ps r. cbn [parse_members skip_members].
    destruct (parse_string (skip_ws s)) as [[k r1]|] eqn:Hk; [|done].
    rewrite (parse_string_skip _ _ _ Hk). cbn.
    destruct (skip_ws r1) as [|c r'] eqn:Hw; [done|].
    destruct (Ascii.eqb c ":"); [|done].
    destruct (parse_value fuel r') as [[v r2]|] eqn:Hp; [|done]. cbn.
    destruct (skip_ws r2) as [|c2 r2'] eqn:Hw2; [done|].
    destruct (Ascii.eqb c2 ",") eqn:Hc1.
    + apply Ascii.eqb_eq in Hc1 as ->.
      rewrite (IHv _ _ _ Hp) by (by apply (skip_ws_ends_numeral _ _ _ Hw2)).
      cbn. rewrite Hw2. cbn.
      destruct (parse_members fuel r2') as [[ps' r'']|] eqn:Hp'; [|done].
      cbn. intros [= _ ->]. by apply (IHm _ ps').
    + destruct (Ascii.eqb c2 "}") eqn:Hc2; [|done].
      apply Ascii.eqb_eq in Hc2 as ->.
      rewrite (IHv _ _ _ Hp) by (by apply (skip_ws_ends_numeral _ _ _ Hw2)).
      cbn. rewrite Hw2. cbn. by intros [= _ ->].
Qed.

(** Every text that [parse] reads is a JSON text. *)
Lemma parse_is_json text v : parse text = Ret v -> is_json text = true.
Proof.
  unfold parse, is_json.
  destruct (parse_value (S (String.length text)) text) as [[w r]|] eqn:Hp;
    [|done].
  destruct (skip_ws r) eqn:Hw; [|done]. intros _.
  rewrite (proj1 (parse_value_skip _) _ _ _ Hp)
    by (by apply skip_ws_nil_ends_numeral).
  by rewrite Hw.
Qed.

(** A text that is not JSON makes [parse] throw. *)
Lemma parse_not_json text : is_json text = false -> parse text = Throw SyntaxError.
Proof.
  intros H. destruct (parse text) as [v|e] eqn:Hp.
  - apply parse_is_json in Hp. congruence.
  - unfold parse in Hp. repeat case_match; by simplify_eq.
Qed.

End JSONFacts.

(** ** Dates: reading the text of a time gives the time back *)

Module DateFacts.
Import JS JSONFacts Date.

Lemma digit_char_value d :
  0 <= d <= 9 ->
  is_digit (digit_char d) = true
  /\ Z.of_N (N_of_ascii (digit_char d)) - 48 = d.
Proof.
  intros H. unfold is_digit, digit_char.
  rewrite N_ascii_embedding by lia. split; [|lia].
  apply andb_true_iff. split; apply N.leb_le; lia.
Qed.

Lemma take_digits_S n acc c s :
  take_digits (S n) acc (String c s)
  = if is_digit c
    then take_digits n (acc * 10 + (Z.of_N (N_of_ascii c) - 48)) s
    else None.
Proof. reflexivity. Qed.

Lemma take_digits_snoc n acc s :
  take_digits (S n) acc s
  = '(v, r) ← take_digits n acc s; take_digits 1 v r.
Proof.
  revert acc s. induction n as [|n IH]; intros acc s; [reflexivity|].
  destruct s as [|c s]; [reflexivity|].
  rewrite !take_digits_S. destruct (is_digit c); [apply IH | reflexivity].
Qed.

Lemma take_digits_pad n z acc rest :
  0 <= z < 10 ^ Z.of_nat n ->
  take_digits n acc (pad n z +:+ rest) = Some (acc * 10 ^ Z.of_nat n + z, rest).
Proof.
  revert z acc rest. induction n as [|n IH]; intros z acc rest Hz.
  - simpl in *. f_equal. f_equal. lia.
  - rewrite Nat2Z.inj_succ, Z.pow_succ_r in * by lia.
    rewrite take_digits_snoc. cbn [pad]. rewrite sapp_assoc, IH
      by (split; [apply Z.div_pos; lia | apply Z.div_lt_upper_bound; lia]).
    cbn [mbind option_bind]. rewrite sapp_cons, sapp_nil_l.
    destruct (digit_char_value (z mod 10)) as [Hd Hv];
      [pose proof (Z.mod_pos_bound z 10); lia|].
    cbn [take_digits]. rewrite Hd, Hv. f_equal. f_equal.
    pose proof (Z.div_mod z 10 ltac:(lia)). lia.
Qed.

Lemma year_of_era doe :
  0 <= doe < 146097 ->
  let yoe := (doe - doe / 1460 + doe / 36524 - doe / 146096) / 365 in
  let doy := doe - (365 * yoe + yoe / 4 - yoe / 100) in
  0 <= yoe <= 399 /\ 0 <= doy <= 365
  /\ (doy = 365 ->
      (yoe + 1) mod 4 = 0 /\ ((yoe + 1) mod 100 <> 0 \/ (yoe + 1) mod 400 = 0)).
Proof.
  intros H. cbv zeta. Z.div_mod_to_equations; lia.
Qed.

Lemma day_of_month doy :
  0 <= doy <= 365 ->
  let mp := (5 * doy + 2) / 153 in
  let d := doy - (153 * mp + 2) / 5 + 1 in
  0 <= mp <= 11 /\ 1 <= d
  /\ (mp = 11 -> d <= 29 /\ (doy <> 365 -> d <= 28))
  /\ (mp = 1 \/ mp = 3 \/ mp = 6 \/ mp = 8 -> d <= 30)
  /\ d <= 31.
Proof.
  intros H. cbv zeta. Z.div_mod_to_equations; lia.
Qed.

(** The calendar date of every day number is a date of the calendar, and
    it counts back to the day number. *)
Lemma civil_round_trip z :
  let '(y, m, d) := civil_from_days z in
  days_from_civil y m d = z
  /\ 1 <= m <= 12 /\ 1 <= d <= days_in_month y m
  /\ 400 * ((z + 719468) / 146097) <= y <= 400 * ((z + 719468) / 146097) + 400.
Proof.
  unfold civil_from_days. cbv zeta.
  set (era := (z + 719468) / 146097).
  set (doe := z + 719468 - era * 146097).
  assert (Edoe : doe = z + 719468 - era * 146097) by reflexivity.
  assert (Hdoe : 0 <= doe < 146097).
  { unfold doe, era. Z.div_mod_to_equations. lia. }
  pose proof (year_of_era doe Hdoe) as Hyear. cbv zeta in Hyear.
  set (yoe := (doe - doe / 1460 + doe / 36524 - doe / 146096) / 365) in *.
  set (doy := doe - (365 * yoe + yoe / 4 - yoe / 100)) in *.
  assert (Edoy : doy = doe - (365 * yoe + yoe / 4 - yoe / 100)) by reflexivity.
  destruct Hyear as (Hyoe & Hdoy & Hleap).
  pose proof (day_of_month doy Hdoy) as Hday. cbv zeta in Hday.
  set (mp := (5 * doy + 2) / 153) in *.
  set (d := doy - (153 * mp + 2) / 5 + 1) in *.
  assert (Ed : d = doy - (153 * mp + 2) / 5 + 1) by reflexivity.
  destruct Hday as (Hmp & Hd1 & Hfeb & H30 & H31).
  clearbody era doe yoe doy mp d.
  set (m := if mp <? 10 then mp + 3 else mp - 9).
  set (y := yoe + era * 400 + (if m <=? 2 then 1 else 0)).
  assert (Hm : 1 <= m <= 12 /\ (m <= 2 <-> 10 <= mp)
               /\ (if 2 <? m then m - 3 else m + 9) = mp).
  { unfold m. destruct (Z.ltb_spec mp 10).
    - destruct (Z.ltb_spec 2 (mp + 3)); lia.
    - destruct (Z.ltb_spec 2 (mp - 9)); lia. }
  destruct Hm as (Hm & Hjan & Hmp').
  split; [|split; [lia|split; [split; [lia|]|]]].
  - unfold days_from_civil. cbv zeta. rewrite Hmp'.
    replace (y - (if m <=? 2 then 1 else 0)) with (yoe + era * 400)
      by (unfold y; lia).
    rewrite Z.div_add by lia. rewrite (Z.div_small yoe 400) by lia.
    replace (yoe + era * 400 - (0 + era) * 400) with yoe by lia.
    lia.
  - unfold days_in_month.
    destruct (Z.eqb_spec m 2) as [E2|N2].
    + assert (mp = 11) as E11 by (unfold m in E2; destruct (Z.ltb_spec mp 10); lia).
      destruct (Hfeb E11) as [H29 H28].
      assert (y = yoe + 1 + era * 400) as Ey
        by (unfold y; destruct (Z.leb_spec m 2); lia).
      destruct (is_leap y) eqn:Hl; [lia|].
      destruct (Z.eq_dec doy 365) as [E365|]; [|lia].
      destruct (Hleap E365) as [H4 H100].
      exfalso. unfold is_leap in Hl. rewrite Ey in Hl.
      replace (yoe + 1 + era * 400) with (yoe + 1 + (era * 100) * 4) in Hl at 1 by lia.
      replace (yoe + 1 + era * 400) with (yoe + 1 + (era * 4) * 100) in Hl at 1 by lia.
      rewrite !Z.mod_add in Hl by lia.
      rewrite H4 in Hl. simpl in Hl.
      destruct H100 as [H100|H400].
      * apply Z.eqb_neq in H100. by rewrite H100 in Hl.
      * rewrite H400 in Hl. simpl in Hl. by rewrite orb_true_r in Hl.
    + assert (mp <> 11) by (unfold m in N2; destruct (Z.ltb_spec mp 10); lia).
      destruct ((m =? 4) || (m =? 6) || (m =? 9) || (m =? 11)) eqn:E30; [|lia].
      apply H30. unfold m in E30. destruct (Z.ltb_spec mp 10); lia.
  - unfold y. destruct (Z.leb_spec m 2); lia.
Qed.


Lemma take_digits_pad0 n z rest :
  0 <= z < 10 ^ Z.of_nat n ->
  take_digits n 0 (pad n z +:+ rest) = Some (z, rest).
Proof. intros H. rewrite take_digits_pad by done. repeat f_equal; lia. Qed.

Lemma is_digit_not_sign c :
  is_digit c = true -> Ascii.eqb c "+" = false /\ Ascii.eqb c "-" = false.
Proof.
  intros H. split.
  - destruct (Ascii.eqb_spec c "+") as [-> |]; [discriminate H | done].
  - destruct (Ascii.eqb_spec c "-") as [-> |]; [discriminate H | done].
Qed.

Lemma pad_head n z :
  0 <= z -> exists c s, pad (S n) z = String c s /\ is_digit c = true.
Proof.
  revert z. induction n as [|n IH]; intros z Hz.
  - exists (digit_char (z mod 10)), "". split; [reflexivity|].
    apply digit_char_value. pose proof (Z.mod_pos_bound z 10). lia.
  - destruct (IH (z / 10)) as (c & s & E & Hc); [apply Z.div_pos; lia|].
    change (pad (S (S n)) z)
      with (pad (S n) (z / 10) +:+ String (digit_char (z mod 10)) "").
    rewrite E, sapp_cons. eauto.
Qed.

Lemma parse_year_text y rest :
  -1000000 < y < 1000000 ->
  parse_year (year_text y +:+ rest) = Some (y, rest).
Proof.
  intros Hy. unfold year_text.
  destruct ((0 <=? y) && (y <=? 9999)) eqn:H4.
  - apply andb_true_iff in H4 as [H0 H9].
    destruct (pad_head 3 y ltac:(lia)) as (c & s & E & Hc).
    destruct (is_digit_not_sign c Hc) as [Hp Hm].
    pose proof (take_digits_pad0 4 y rest ltac:(simpl; lia)) as Ht.
    rewrite E in *. rewrite sapp_cons in *.
    unfold parse_year. by rewrite Hp, Hm, Ht.
  - destruct (y <? 0) eqn:Hneg.
    + rewrite sapp_assoc, sapp_cons, sapp_nil_l. cbn [parse_year].
      change (Ascii.eqb "-" "+") with false. change (Ascii.eqb "-" "-") with true.
      cbv iota.
      rewrite (take_digits_pad0 6 (- y) rest) by (simpl; lia).
      cbn [mbind option_bind].
      assert ((- y =? 0) = false) as -> by lia.
      do 2 f_equal. lia.
    + rewrite sapp_assoc, sapp_cons, sapp_nil_l. cbn [parse_year].
      change (Ascii.eqb "+" "+") with true. cbv iota.
      by rewrite (take_digits_pad0 6 y rest) by (simpl; lia).
Qed.

Lemma days_in_month_le y m : days_in_month y m <= 31.
Proof. unfold days_in_month. repeat case_match; lia. Qed.

Lemma expect_head c rest : expect c (String c rest) = Some rest.
Proof. unfold expect. by rewrite Ascii.eqb_refl. Qed.

(** Reading a date text that [toISOString] wrote gives the time value
    back. *)
Theorem parse_toISOString t :
  valid_time t = true ->
  exists text, toISOString t = Ret text /\ parse text = Int t.
Proof.
  intros Hv. unfold toISOString. rewrite Hv.
  pose proof Hv as Hrange. unfold valid_time, maxTime in Hrange.
  apply andb_true_iff in Hrange as [Hlo Hhi].
  pose proof (civil_round_trip (t / msPerDay)) as Hdate.
  destruct (civil_from_days (t / msPerDay)) as [[y m] d].
  destruct Hdate as (Hdays & Hm & Hd & Hy).
  eexists. split; [reflexivity|].
  unfold msPerDay in *.
  pose proof (Z.mod_pos_bound t 86400000 ltac:(lia)) as Hms.
  pose proof (Z.div_mod t 86400000 ltac:(lia)) as Ht.
  set (ms := t mod 86400000) in *.
  set (days := t / 86400000) in *.
  assert (-1000000 < y < 1000000) as Hyear.
  { assert (-100000000 <= days <= 100000000) by lia.
    assert (-700 <= (days + 719468) / 146097 <= 700); [|lia].
    split; [apply Z.div_le_lower_bound | apply Z.div_le_upper_bound]; lia. }
  unfold parse, parse_fields.
  rewrite parse_year_text by done. cbn [mbind option_bind].
  rewrite !sapp_cons, !sapp_nil_l.
  rewrite expect_head. cbn [mbind option_bind].
  rewrite take_digits_pad0 by (simpl; lia). cbn [mbind option_bind].
  rewrite expect_head. cbn [mbind option_bind].
  rewrite take_digits_pad0
    by (simpl; pose proof (days_in_month_le y m); lia).
  cbn [mbind option_bind].
  rewrite expect_head. cbn [mbind option_bind].
  rewrite take_digits_pad0
    by (simpl; split; [apply Z.div_pos; lia | apply Z.div_lt_upper_bound; lia]).
  cbn [mbind option_bind].
  rewrite expect_head. cbn [mbind option_bind].
  rewrite take_digits_pad0
    by (simpl; pose proof (Z.mod_pos_bound (ms / 60000) 60); lia).
  cbn [mbind option_bind].
  rewrite expect_head. cbn [mbind option_bind].
  rewrite take_digits_pad0
    by (simpl; pose proof (Z.mod_pos_bound (ms / 1000) 60); lia).
  cbn [mbind option_bind].
  rewrite expect_head. cbn [mbind option_bind].
  rewrite take_digits_pad0
    by (simpl; pose proof (Z.mod_pos_bound ms 1000); lia).
  cbn [mbind option_bind].
  rewrite expect_head. cbn [mbind option_bind].
  assert (Hrecompose :
            days_from_civil y m d * 86400000 + ms / 3600000 * 3600000
            + ms / 60000 mod 60 * 60000 + ms / 1000 mod 60 * 1000 + ms mod 1000
            = t).
  { rewrite Hdays. clearbody ms days. clear -Ht Hms.
    Z.div_mod_to_equations. lia. }
  change msPerDay with 86400000. rewrite Hrecompose, Hv.
  rewrite bool_decide_eq_true_2 by done.
  assert ((1 <=? m) = true) as -> by lia.
  assert ((m <=? 12) = true) as -> by lia.
  assert ((1 <=? d) = true) as -> by lia.
  assert ((d <=? days_in_month y m) = true) as -> by lia.
  assert ((ms / 3600000 <=? 23) = true) as ->.
  { apply Z.leb_le. assert (ms / 3600000 < 24); [|lia].
    apply Z.div_lt_upper_bound; lia. }
  assert ((ms / 60000 mod 60 <=? 59) = true) as ->.
  { pose proof (Z.mod_pos_bound (ms / 60000) 60). lia. }
  assert ((ms / 1000 mod 60 <=? 59) = true) as ->.
  { pose proof (Z.mod_pos_bound (ms / 1000) 60). lia. }
  reflexivity.
Qed.

End DateFacts.

(** ** The cache store *)

Module CacheFacts.
Import CacheService.

Lemma expired_iff entry now :
  expired entry now = true <->
  exists t, ttl entry = Some (Int t) /\ t <> 0 /\ now - timestamp entry > t.
Proof.
  unfold expired. destruct (ttl entry) as [[|t]|].
  - split; [done | intros (t & ? & _); done].
  - rewrite andb_true_iff, negb_true_iff, Z.eqb_neq, Z.gtb_gt.
    split.
    + intros [? ?]. exists t. auto.
    + intros (t' & [= <-] & ? & ?). auto.
  - split; [done | intros (t & ? & _); done].
Qed.

Lemma get_absent key now (c : cache) :
  c !! key = None -> get key now c = (VNull, c).
Proof. intros H. unfold get. by rewrite H. Qed.

Lemma get_fresh key now (c : cache) entry :
  c !! key = Some entry -> expired entry now = false ->
  get key now c = (data entry, c).
Proof. intros H E. unfold get. by rewrite H, E. Qed.

Lemma get_stale key now (c : cache) entry :
  c !! key = Some entry -> expired entry now = true ->
  get key now c = (VNull, delete key c).
Proof. intros H E. unfold get. by rewrite H, E. Qed.

(** C5, as stated, fails: an entry whose [ttl] is set to [0] is served
    although [now - timestamp > ttl]. *)
Lemma get_ttl_zero_served :
  ~ (forall key now (c : cache) entry t,
        c !! key = Some entry -> ttl entry = Some (Int t) ->
        (now - timestamp entry > t <-> get key now c = (VNull, delete key c))).
Proof.
  intros H.
  pose (e := {| data := VStr "v"; timestamp := 0; ttl := Some (Int 0) |}).
  specialize (H "k" 1 {[ "k" := e ]} e 0).
  rewrite lookup_singleton_eq in H.
  destruct (H eq_refl eq_refl) as [Hexp _].
  specialize (Hexp ltac:(simpl; lia)).
  rewrite (get_fresh "k" 1 {[ "k" := e ]} e) in Hexp; [done | | done].
  apply lookup_singleton_eq.
Qed.

(** C5 (amended): a key with no entry is a miss; an entry is expired
    exactly when its [ttl] is set, is not [0], and [now - timestamp > ttl]
    (so an entry without [ttl] never expires); [get] serves the stored
    value of an entry that is not expired and leaves the cache as it is,
    and deletes an expired entry and returns [null]. *)
Theorem get_serves_unless_expired key now (c : cache) :
  match c !! key with
  | None => get key now c = (VNull, c)
  | Some entry =>
      (expired entry now = true <->
         exists t, ttl entry = Some (Int t) /\ t <> 0 /\ now - timestamp entry > t)
      /\ (ttl entry = None -> expired entry now = false)
      /\ (expired entry now = false -> get key now c = (data entry, c))
      /\ (expired entry now = true -> get key now c = (VNull, delete key c))
  end.
Proof.
  destruct (c !! key) as [entry|] eqn:H.
  - split; [apply expired_iff|].
    split; [intros Ht; unfold expired; by rewrite Ht|].
    split; intros E; [by apply (get_fresh key now c entry) | by apply (get_stale key now c entry)].
  - by apply get_absent.
Qed.

(** C10: an entry stored with [ttl] equal to [0] never expires: at every
    time [get] returns the stored value and keeps the entry, exactly as
    for an entry stored without [ttl]. *)
Theorem set_ttl_zero_never_expires key v (t now : Z) (c : cache) :
  get key now (set key v (Some (Int 0)) t c)
    = (v, set key v (Some (Int 0)) t c)
  /\ get key now (set key v None t c) = (v, set key v None t c)
  /\ (get key now (set key v (Some (Int 0)) t c)).1
     = (get key now (set key v None t c)).1.
Proof.
  assert (H0 : get key now (set key v (Some (Int 0)) t c)
               = (v, set key v (Some (Int 0)) t c)).
  { unfold get, set. by rewrite lookup_insert_eq. }
  assert (H1 : get key now (set key v None t c) = (v, set key v None t c)).
  { unfold get, set. by rewrite lookup_insert_eq. }
  by rewrite H0, H1.
Qed.

Lemma live_subseteq now (c : cache) : live now c ⊆ c.
Proof. apply map_filter_subseteq. Qed.

(** C6: [size] counts every entry held, so it bounds the number of live
    entries from above, strictly so while an expired entry has not been
    read; a [get] on an expired key removes that entry and the size drops
    by one. *)
Theorem size_counts_unread_expired key now (c : cache) entry :
  c !! key = Some entry -> expired entry now = true ->
  (size (live now c) < size c)%nat
  /\ (forall now', size (live now' c) <= size c)%nat
  /\ (get key now c).1 = VNull
  /\ S (size (get key now c).2) = size c.
Proof.
  intros H E. repeat split.
  - unfold size. apply (map_subset_size (live now c) c).
    split; [apply live_subseteq|].
    intros Hsub. rewrite map_subseteq_spec in Hsub.
    specialize (Hsub key entry H). unfold live in Hsub.
    rewrite map_lookup_filter_Some in Hsub. simpl in Hsub.
    destruct Hsub as [_ Hsub]. congruence.
  - intros now'. unfold size. apply map_subseteq_size, live_subseteq.
  - by rewrite (get_stale _ _ _ _ H E).
  - rewrite (get_stale _ _ _ _ H E). simpl. unfold size.
    rewrite map_size_delete, H. simpl.
    assert (base.size c <> 0%nat); [|lia].
    intros Hz. apply map_size_empty_inv in Hz. subst c.
    by rewrite lookup_empty in H.
Qed.

Lemma size_counts_unread_expired_witness :
  let c := set "k" (VStr "v") (Some (Int 10)) 0 ∅ in
  S (size (get "k" 11 c).2) = size c.
Proof.
  intros c.
  apply (size_counts_unread_expired "k" 11 c
           {| data := VStr "v"; timestamp := 0; ttl := Some (Int 10) |}).
  - apply lookup_insert_eq.
  - reflexivity.
Defined.

End CacheFacts.

(** ** The data service *)

Module ValidationFacts.
Import JS DataService.

Lemma prop_total v k :
  is_null v = false -> JSON.is_undefined v = false -> exists w, prop v k = Ret w.
Proof. destruct v; intros; try discriminate; eexists; reflexivity. Qed.

Lemma push_if_extends c e errors : exists more, push_if c e errors = errors ++ more.
Proof.
  destruct c; simpl; [by exists [e]|]. exists []. by rewrite List.app_nil_r.
Qed.

Lemma check_marker_returns marker index errors :
  has_position marker ->
  exists more, check_marker marker index errors = Ret (errors ++ more).
Proof.
  intros (position & Hp & Hn & Hu).
  destruct (prop_total position "x" Hn Hu) as [x Hx].
  destruct (prop_total position "y" Hn Hu) as [y Hy].
  unfold check_marker, position_invalid.
  unfold mbind, outcome_bind. rewrite !Hp, !Hx, !Hy.
  assert (exists bad,
             (if negb (truthy position) then mret true
              else if negb (is_number x) then mret true
                   else mret (negb (is_number y))) = Ret bad) as [bad ->].
  { repeat case_match; eauto. }
  destruct (push_if_extends bad
              (error (marker_field index ".position") "Invalid position coordinates")
              errors) as [m1 ->].
  destruct (push_if_extends (lt x (VNum (Int 0)) || gt x (VNum (Int 100)))
              (error_with (marker_field index ".position.x")
                 "X coordinate must be between 0 and 100" x)
              (errors ++ m1)) as [m2 ->].
  destruct (push_if_extends (lt y (VNum (Int 0)) || gt y (VNum (Int 100)))
              (error_with (marker_field index ".position.y")
                 "Y coordinate must be between 0 and 100" y)
              ((errors ++ m1) ++ m2)) as [m3 ->].
  exists (m1 ++ m2 ++ m3). unfold mret, outcome_ret. by rewrite !List.app_assoc.
Qed.

Lemma check_markers_returns markers index errors :
  Forall has_position markers ->
  exists more, check_markers markers index errors = Ret (errors ++ more).
Proof.
  intros H. revert index errors.
  induction H as [|marker markers Hm _ IH]; intros index errors.
  - exists []. simpl. by rewrite List.app_nil_r.
  - destruct (check_marker_returns marker index errors Hm) as [m1 H1].
    destruct (IH (S index) (errors ++ m1)) as [m2 H2].
    exists (m1 ++ m2). cbn [check_markers]. unfold mbind, outcome_bind.
    rewrite H1, H2. by rewrite List.app_assoc.
Qed.

(** [validateModel] returns a result whenever every marker has a
    position to read. *)
Lemma validateModel_returns model :
  (forall markers,
      prop model "posmMarkers" = Ret (VArr markers) ->
      Forall has_position markers) ->
  exists result, validateModel model = Ret result.
Proof.
  intros Hm. unfold validateModel.
  destruct (negb (is_object model) || is_null model) eqn:Ho; [eauto|].
  apply orb_false_iff in Ho as [Ho Hn]. apply negb_false_iff in Ho.
  assert (forall k, exists w, prop model k = Ret w) as Hprop.
  { intros k. destruct model; try discriminate; eexists; reflexivity. }
  destruct (Hprop "id") as [id Hid].
  destruct (Hprop "name") as [name Hname].
  destruct (Hprop "image") as [image Himage].
  destruct (Hprop "posmMarkers") as [posmMarkers Hmarkers].
  unfold mbind, outcome_bind. rewrite Hid, Hname, Himage, Hmarkers.
  set (e1 := push_if _ _ (push_if _ _ [])).
  assert (exists e2,
             (if negb (truthy image) || negb (is_object image)
              then mret (e1 ++ [error "image" "Image is required"])
              else check_image image e1) = Ret e2) as [e2 ->].
  { destruct (negb (truthy image) || negb (is_object image)) eqn:Hi; [eauto|].
    apply orb_false_iff in Hi as [Ht Hi].
    apply negb_false_iff in Hi. apply negb_false_iff in Ht.
    unfold check_image, mbind, outcome_bind.
    destruct image; try discriminate Hi; try discriminate Ht;
      eexists; reflexivity. }
  assert (exists e3,
             match posmMarkers with
             | VArr markers => check_markers markers 0 e2
             | _ => mret (e2 ++ [error "posmMarkers" "POSM markers must be an array"])
             end = Ret e3) as [e3 ->].
  { destruct posmMarkers; eauto.
    destruct (check_markers_returns elems 0%nat e2 (Hm elems Hmarkers)); eauto. }
  destruct (0 <? length e3)%nat; eauto.
Qed.

(** C1 (the code departs from it): a candidate that is well formed but for
    one marker without [position], or with a [null] position, makes
    [validateModel] throw a [TypeError] instead of returning an error
    list; a marker whose coordinates are present but not numbers is
    reported in the returned list. *)
Theorem validateModel_throws_on_missing_position :
  validateModel (sample_model [VObj [("id", VStr "p1")]]) = Throw TypeError
  /\ validateModel (sample_model [VObj [("id", VStr "p1"); ("position", VNull)]])
     = Throw TypeError
  /\ validateModel
       (sample_model [VObj [("position",
                             VObj [("x", VStr "left"); ("y", VNum (Int 50))])]])
     = Ret {| valid := false; data := None;
              errors := Some [error "posmMarkers[0].position"
                                    "Invalid position coordinates"] |}.
Proof. repeat split; vm_compute; reflexivity. Qed.

End ValidationFacts.

Module StorageFacts.
Import JS JSON JSONFacts localStorage Security SessionStore DraftStore.

(** ** The storage *)

Lemma getItem_ok k st :
  available st = true -> getItem k st = (Ret (items st !! k), st).
Proof. intros H. unfold getItem. by rewrite H. Qed.

Lemma getItem_denied k st :
  available st = false -> getItem k st = (Throw SecurityError, st).
Proof. intros H. unfold getItem. by rewrite H. Qed.

Lemma setItem_ok k v st :
  healthy st ->
  setItem k v st = (Ret tt, with_items st (<[k := v]> (items st))).
Proof. intros [Ha Hq]. unfold setItem. by rewrite Ha, Hq. Qed.

Lemma removeItem_ok k st :
  available st = true ->
  removeItem k st = (Ret tt, with_items st (delete k (items st))).
Proof. intros H. unfold removeItem. by rewrite H. Qed.

Lemma healthy_with_items st m : healthy st -> healthy (with_items st m).
Proof. by intros [? ?]. Qed.

Lemma healthy_available st : healthy st -> available st = true.
Proof. by intros [? ?]. Qed.

(** ** Coercions on numbers *)

Lemma gt_Int x y : gt (VNum (Int x)) (VNum (Int y)) = (y <? x).
Proof. reflexivity. Qed.

Lemma lt_Int x y : lt (VNum (Int x)) (VNum (Int y)) = (x <? y).
Proof. reflexivity. Qed.

Lemma add_Int x y : add (VNum (Int x)) (VNum (Int y)) = VNum (Int (x + y)).
Proof. reflexivity. Qed.

(** ** The rate limiter *)

Lemma counter_text_parse a r :
  parse (counter_text a r) = Ret (counter (VNum (Int a)) (VNum (Int r))).
Proof. by apply parse_stringify. Qed.

Lemma stringify_text_nonempty v : stringify_text v <> "".
Proof.
  intros H.
  assert (stringify_text v = "undefined" \/ stringify_text v = print v)
    as [E|E] by (destruct v; auto).
  - rewrite E in H. discriminate.
  - destruct (print_head v) as (c & s & E' & _). congruence.
Qed.

Lemma absent_text v : absent (Some (stringify_text v)) = false.
Proof.
  unfold absent. apply bool_decide_eq_false, stringify_text_nonempty.
Qed.

Lemma M_bind_ok {A B} (m : M A) (k : A -> M B) st a st' :
  m st = (Ret a, st') -> (m ≫= k) st = k a st'.
Proof. intros H. unfold mbind, M_bind. by rewrite H. Qed.

Lemma M_bind_throw {A B} (m : M A) (k : A -> M B) st e st' :
  m st = (Throw e, st') -> (m ≫= k) st = (Throw e, st').
Proof. intros H. unfold mbind, M_bind. by rewrite H. Qed.

Lemma try_catch_ok {A} (m : M A) h st a st' :
  m st = (Ret a, st') -> try_catch m h st = (Ret a, st').
Proof. intros H. unfold try_catch. by rewrite H. Qed.

Lemma try_catch_throw {A} (m : M A) h st e st' :
  m st = (Throw e, st') -> try_catch m h st = h e st'.
Proof. intros H. unfold try_catch. by rewrite H. Qed.

Ltac run_storage :=
  unfold rateLimit, rateLimit_try, clearRateLimit, try_catch, throw, lift,
    mbind, M_bind, mret, M_ret, getItem, setItem, removeItem, healthy, fits in *.

Lemma rateLimit_first key maxAttempts window now st :
  healthy st -> items st !! ("rate_limit_" +:+ key) = None ->
  rateLimit key maxAttempts window now st
  = (Ret true,
     with_items st (<["rate_limit_" +:+ key := counter_text 1 (now + window)]>
                      (items st))).
Proof.
  intros [Ha Hq] Hk. run_storage.
  rewrite Ha, Hk. cbn [absent]. rewrite Ha, Hq. reflexivity.
Qed.

Lemma rateLimit_counted key maxAttempts window now st a r :
  healthy st ->
  items st !! ("rate_limit_" +:+ key) = Some (counter_text a r) ->
  rateLimit key maxAttempts window now st
  = if r <? now then
      (Ret true,
       with_items st (<["rate_limit_" +:+ key := counter_text 1 (now + window)]>
                        (items st)))
    else if a <? maxAttempts then
      (Ret true,
       with_items st (<["rate_limit_" +:+ key := counter_text (a + 1) r]>
                        (items st)))
    else (Ret false, st).
Proof.
  intros [Ha Hq] Hk. run_storage.
  rewrite Ha, Hk. unfold counter_text at 1. rewrite absent_text.
  cbn [default from_option]. unfold id. rewrite counter_text_parse.
  change (prop (counter (VNum (Int a)) (VNum (Int r))) "attempts")
    with (Ret (VNum (Int a))).
  change (prop (counter (VNum (Int a)) (VNum (Int r))) "resetTime")
    with (Ret (VNum (Int r))).
  cbv iota beta.
  rewrite gt_Int, lt_Int, add_Int.
  destruct (r <? now); [cbv beta iota; by rewrite Ha, Hq|].
  destruct (a <? maxAttempts); [cbv beta iota; by rewrite Ha, Hq|reflexivity].
Qed.

Lemma with_items_twice st m m' : with_items (with_items st m) m' = with_items st m'.
Proof. reflexivity. Qed.

Lemma rateLimit_in_window key maxAttempts window now st m a r :
  healthy st -> now <= r ->
  rateLimit key maxAttempts window now
    (with_items st (<["rate_limit_" +:+ key := counter_text a r]> m))
  = if a <? maxAttempts then
      (Ret true,
       with_items st (<["rate_limit_" +:+ key := counter_text (a + 1) r]> m))
    else
      (Ret false,
       with_items st (<["rate_limit_" +:+ key := counter_text a r]> m)).
Proof.
  intros Hh Hr.
  rewrite (rateLimit_counted key maxAttempts window now _ a r)
    by (first [by apply healthy_with_items | apply lookup_insert_eq]).
  assert ((r <? now) = false) as -> by lia.
  destruct (a <? maxAttempts); [|done].
  by rewrite with_items_twice; cbn [items with_items]; rewrite insert_insert_eq.
Qed.

Lemma rateLimit_after_window key maxAttempts window now st m a r :
  healthy st -> r < now ->
  rateLimit key maxAttempts window now
    (with_items st (<["rate_limit_" +:+ key := counter_text a r]> m))
  = (Ret true,
     with_items st (<["rate_limit_" +:+ key := counter_text 1 (now + window)]> m)).
Proof.
  intros Hh Hr.
  rewrite (rateLimit_counted key maxAttempts window now _ a r)
    by (first [by apply healthy_with_items | apply lookup_insert_eq]).
  assert ((r <? now) = true) as -> by lia.
  by rewrite with_items_twice; cbn [items with_items]; rewrite insert_insert_eq.
Qed.

Lemma calls_cons key maxAttempts window now later st b st' :
  rateLimit key maxAttempts window now st = (Ret b, st') ->
  calls key maxAttempts window (now :: later) st
  = match calls key maxAttempts window later st' with
    | (Ret bs, st'') => (Ret (b :: bs), st'')
    | (Throw e, st'') => (Throw e, st'')
    end.
Proof.
  intros H. cbn [calls]. unfold mbind, M_bind. rewrite H.
  by destruct (calls key maxAttempts window later st') as [[bs|e] st''].
Qed.

(** C3: with a limit of 5 and no stored counter, six calls for one key
    inside the window of the first one are allowed five times and then
    refused; a call after the reset time is allowed again and records one
    attempt and a new reset time. *)
Theorem rateLimit_five_then_blocked key window t1 t2 t3 t4 t5 t6 st :
  healthy st -> items st !! ("rate_limit_" +:+ key) = None ->
  t2 <= t1 + window -> t3 <= t1 + window -> t4 <= t1 + window ->
  t5 <= t1 + window -> t6 <= t1 + window ->
  let blocked :=
    with_items st (<["rate_limit_" +:+ key := counter_text 5 (t1 + window)]>
                     (items st)) in
  calls key 5 window [t1; t2; t3; t4; t5; t6] st
    = (Ret [true; true; true; true; true; false], blocked)
  /\ forall t, t1 + window < t ->
       rateLimit key 5 window t blocked
       = (Ret true,
          with_items st (<["rate_limit_" +:+ key := counter_text 1 (t + window)]>
                           (items st))).
Proof.
  intros Hh Hk H2 H3 H4 H5 H6 blocked. split.
  - rewrite (calls_cons _ _ _ _ _ _ _ _ (rateLimit_first key 5 window t1 st Hh Hk)).
    do 4 (erewrite calls_cons; [|by rewrite rateLimit_in_window]).
    erewrite calls_cons; [|by rewrite rateLimit_in_window].
    reflexivity.
  - intros t Ht. by apply rateLimit_after_window.
Qed.

Lemma rateLimit_five_then_blocked_witness :
  calls "login" 5 900000 [0; 1; 2; 3; 4; 5] fresh
  = (Ret [true; true; true; true; true; false],
     with_items fresh
       (<["rate_limit_login" := counter_text 5 (0 + 900000)]> (items fresh))).
Proof.
  apply (rateLimit_five_then_blocked "login" 900000 0 1 2 3 4 5 fresh).
  - split; reflexivity.
  - reflexivity.
  - lia.
  - lia.
  - lia.
  - lia.
  - lia.
Defined.


(** ** Fail-open *)

Lemma rateLimit_denied key maxAttempts window now st :
  available st = false -> rateLimit key maxAttempts window now st = (Ret true, st).
Proof. intros Ha. run_storage. by rewrite Ha. Qed.

Lemma rateLimit_corrupt key maxAttempts window now st text e :
  available st = true ->
  items st !! ("rate_limit_" +:+ key) = Some text -> text <> "" ->
  parse text = Throw e ->
  rateLimit key maxAttempts window now st = (Ret true, st).
Proof.
  intros Ha Hk Hne Hp. run_storage. rewrite Ha, Hk.
  unfold absent. rewrite bool_decide_eq_false_2 by done.
  cbn [default from_option]. unfold id. by rewrite Hp.
Qed.

Lemma rateLimit_null key maxAttempts window now st text :
  available st = true ->
  items st !! ("rate_limit_" +:+ key) = Some text -> text <> "" ->
  parse text = Ret VNull ->
  rateLimit key maxAttempts window now st = (Ret true, st).
Proof.
  intros Ha Hk Hne Hp. run_storage. rewrite Ha, Hk.
  unfold absent. rewrite bool_decide_eq_false_2 by done.
  cbn [default from_option]. unfold id. by rewrite Hp.
Qed.

(** A stored counter whose reading fails: the text is no JSON, or it is
    the JSON text of [null], which has no properties to read. *)
Lemma rateLimit_unreadable key maxAttempts window now st text :
  available st = true ->
  items st !! ("rate_limit_" +:+ key) = Some text -> text <> "" ->
  is_json text = false \/ parse text = Ret VNull ->
  rateLimit key maxAttempts window now st = (Ret true, st).
Proof.
  intros Ha Hk Hne [Hj|Hp].
  - by apply (rateLimit_corrupt _ _ _ _ _ text SyntaxError);
      [..|apply parse_not_json].
  - by apply (rateLimit_null _ _ _ _ _ text).
Qed.

Lemma rateLimit_full key maxAttempts window now st :
  available st = true ->
  items st !! ("rate_limit_" +:+ key) = None ->
  localStorage.fits (quota st)
    (<["rate_limit_" +:+ key := counter_text 1 (now + window)]> (items st))
    = false ->
  rateLimit key maxAttempts window now st = (Ret true, st).
Proof.
  intros Ha Hk Hq. run_storage. rewrite Ha, Hk. cbn [absent].
  unfold counter_text in Hq. by rewrite Ha, Hq.
Qed.

Lemma calls_denied key maxAttempts window times st :
  available st = false ->
  calls key maxAttempts window times st = (Ret (map (fun _ => true) times), st).
Proof.
  intros Ha. induction times as [|t times IH]; [done|].
  rewrite (calls_cons _ _ _ _ _ _ _ _ (rateLimit_denied key maxAttempts window t st Ha)).
  by rewrite IH.
Qed.

(** C9: whenever the body of [rateLimit] throws (the stored counter, if
    there is one, being a text that the model reads as the language
    does), the call returns [true]; so with the storage denied, or with a
    stored counter that is no JSON text (or is the text of [null]), every
    call of a run is allowed and the storage stays as it is, and a first
    write that exceeds the quota is allowed as well. *)
Theorem rateLimit_fails_open key maxAttempts window now st :
  (forall e st',
      (forall text,
          items st !! ("rate_limit_" +:+ key) = Some text -> modelled text) ->
      rateLimit_try ("rate_limit_" +:+ key) maxAttempts window now st = (Throw e, st') ->
      rateLimit key maxAttempts window now st = (Ret true, st'))
  /\ (available st = false ->
      forall times,
        calls key maxAttempts window times st = (Ret (map (fun _ => true) times), st))
  /\ (forall text,
        available st = true ->
        items st !! ("rate_limit_" +:+ key) = Some text -> text <> "" ->
        is_json text = false \/ parse text = Ret VNull ->
        forall times,
          calls key maxAttempts window times st = (Ret (map (fun _ => true) times), st))
  /\ (available st = true ->
      items st !! ("rate_limit_" +:+ key) = None ->
      localStorage.fits (quota st)
        (<["rate_limit_" +:+ key := counter_text 1 (now + window)]> (items st))
        = false ->
      rateLimit key maxAttempts window now st = (Ret true, st)).
Proof.
  split; [|split; [|split]].
  - intros e st' _ H. unfold rateLimit. by rewrite (try_catch_throw _ _ _ _ _ H).
  - intros Ha times. by apply calls_denied.
  - intros text Ha Hk Hne Hp times.
    induction times as [|t times IH]; [done|].
    rewrite (calls_cons _ _ _ _ _ _ _ _
               (rateLimit_unreadable key maxAttempts window t st text Ha Hk Hne Hp)).
    by rewrite IH.
  - apply rateLimit_full.
Qed.


(** ** Login *)

Lemma login_blocked password random now now' st st' :
  rateLimit "login" MAX_LOGIN_ATTEMPTS RATE_LIMIT_WINDOW now st = (Ret false, st') ->
  login password random now now' st = (Throw too_many_attempts, st').
Proof. intros H. unfold login. by rewrite (M_bind_ok _ _ _ _ _ H). Qed.

Lemma login_wrong password random now now' st st' :
  rateLimit "login" MAX_LOGIN_ATTEMPTS RATE_LIMIT_WINDOW now st = (Ret true, st') ->
  password <> DEMO_PASSWORD ->
  login password random now now' st = (Ret false, st').
Proof.
  intros H Hp. unfold login. rewrite (M_bind_ok _ _ _ _ _ H).
  cbn [negb]. by rewrite bool_decide_eq_false_2.
Qed.

Lemma login_right random now now' st st' :
  healthy st' ->
  rateLimit "login" MAX_LOGIN_ATTEMPTS RATE_LIMIT_WINDOW now st = (Ret true, st') ->
  Date.valid_time (now' + SESSION_DURATION) = true ->
  exists expiresAt,
    Date.toISOString (now' + SESSION_DURATION) = Ret expiresAt
    /\ Date.getTime (VStr expiresAt) = Int (now' + SESSION_DURATION)
    /\ login DEMO_PASSWORD random now now' st
       = (Ret true,
          with_items st'
            (<[SESSION_KEY :=
                 stringify_text
                   (session_object (generateSessionToken random) expiresAt)]>
               (delete "rate_limit_login" (items st')))).
Proof.
  intros [Ha Hq] H Hv.
  destruct (DateFacts.parse_toISOString _ Hv) as (expiresAt & He & Hp).
  exists expiresAt. split; [done|]. split; [done|].
  unfold login. rewrite (M_bind_ok _ _ _ _ _ H).
  cbn [negb]. rewrite bool_decide_eq_true_2 by done.
  run_storage. rewrite Ha, He. cbn [available quota with_items items].
  by rewrite Ha, Hq.
Qed.


Lemma rateLimit_flags key maxAttempts window now st o st' :
  rateLimit key maxAttempts window now st = (o, st') ->
  available st' = available st /\ quota st' = quota st.
Proof.
  run_storage. intros H.
  repeat (case_match; simplify_eq; try done).
Qed.

Lemma rateLimit_healthy key maxAttempts window now st o st' :
  rateLimit key maxAttempts window now st = (o, st') ->
  healthy st -> healthy st'.
Proof.
  intros H [Ha Hq]. apply rateLimit_flags in H as [Ha' Hq'].
  split; congruence.
Qed.

Lemma session_text_parse token expiresAt :
  parse (stringify_text (session_object token expiresAt))
  = Ret (session_object token expiresAt).
Proof. by apply parse_stringify. Qed.

(** C4: whatever the password, [login] throws the "too many attempts"
    error when the stored counter has reached the limit inside its window;
    when the limiter allows the call, a wrong password returns [false] and
    leaves the storage as the limiter wrote it (the attempt is counted),
    and the right password deletes the counter, stores a session that is
    flagged authenticated and expires 24 hours after [now'], and returns
    [true]. *)
Theorem login_outcomes password random now now' st :
  healthy st ->
  (forall a r,
      items st !! "rate_limit_login" = Some (counter_text a r) ->
      MAX_LOGIN_ATTEMPTS <= a -> now <= r ->
      login password random now now' st = (Throw too_many_attempts, st))
  /\ (forall st',
        rateLimit "login" MAX_LOGIN_ATTEMPTS RATE_LIMIT_WINDOW now st
          = (Ret true, st') ->
        (password <> DEMO_PASSWORD ->
         login password random now now' st = (Ret false, st'))
        /\ (password = DEMO_PASSWORD ->
            Date.valid_time (now' + 24 * 60 * 60 * 1000) = true ->
            exists expiresAt,
              let session :=
                session_object (generateSessionToken random) expiresAt in
              Date.toISOString (now' + 24 * 60 * 60 * 1000) = Ret expiresAt
              /\ Date.getTime (VStr expiresAt)
                 = Int (now' + 24 * 60 * 60 * 1000)
              /\ login password random now now' st
                 = (Ret true,
                    with_items st'
                      (<[SESSION_KEY := stringify_text session]>
                         (delete "rate_limit_login" (items st'))))
              /\ parse (stringify_text session) = Ret session
              /\ prop session "isAuthenticated" = Ret (VBool true)
              /\ prop session "expiresAt" = Ret (VStr expiresAt)))
  /\ (password <> DEMO_PASSWORD ->
      (items st !! "rate_limit_login" = None ->
       login password random now now' st
       = (Ret false,
          with_items st
            (<["rate_limit_login" := counter_text 1 (now + RATE_LIMIT_WINDOW)]>
               (items st))))
      /\ (forall a r,
            items st !! "rate_limit_login" = Some (counter_text a r) ->
            a < MAX_LOGIN_ATTEMPTS -> now <= r ->
            login password random now now' st
            = (Ret false,
               with_items st
                 (<["rate_limit_login" := counter_text (a + 1) r]>
                    (items st))))).
Proof.
  intros Hh. split; [|split].
  - intros a r Hk Ha Hr. apply login_blocked.
    rewrite (rateLimit_counted "login" _ _ now st a r Hh Hk).
    assert ((r <? now) = false) as -> by lia.
    by assert ((a <? MAX_LOGIN_ATTEMPTS) = false) as -> by lia.
  - intros st' H. split.
    + intros Hp. by apply login_wrong.
    + intros -> Hv.
      destruct (login_right random now now' st st'
                  (rateLimit_healthy _ _ _ _ _ _ _ H Hh) H Hv)
        as (expiresAt & He & Hg & Hl).
      exists expiresAt. cbv zeta.
      split; [done|]. split; [done|]. split; [done|].
      split; [apply session_text_parse|done].
  - intros Hp. split.
    + intros Hk. apply login_wrong; [|done]. by apply rateLimit_first.
    + intros a r Hk Ha Hr. apply login_wrong; [|done].
      rewrite (rateLimit_counted "login" _ _ now st a r Hh Hk).
      assert ((r <? now) = false) as -> by lia.
      by assert ((a <? MAX_LOGIN_ATTEMPTS) = true) as -> by lia.
Qed.

Lemma login_outcomes_witness :
  login "guess" (fun _ => 0%N) 0 0 fresh
  = (Ret false,
     with_items fresh
       (<["rate_limit_login" := counter_text 1 (0 + RATE_LIMIT_WINDOW)]>
          (items fresh))).
Proof.
  refine (proj1 (proj2 (proj2 (login_outcomes "guess" (fun _ => 0%N) 0 0 fresh _))
                   _) _).
  - split; reflexivity.
  - discriminate.
  - reflexivity.
Defined.


(** ** The session *)

Lemma getSession_denied now st :
  available st = false -> getSession now st = (Ret VNull, st).
Proof. intros Ha. unfold getSession. run_storage. by rewrite Ha. Qed.

Lemma getSession_empty now st :
  available st = true -> absent (items st !! SESSION_KEY) = true ->
  getSession now st = (Ret VNull, st).
Proof. intros Ha Hk. unfold getSession. run_storage. by rewrite Ha, Hk. Qed.

(** What [getSession] does with a stored text. *)
Lemma getSession_stored now st text :
  available st = true ->
  items st !! SESSION_KEY = Some text -> text <> "" ->
  getSession now st
  = match parse text with
    | Throw _ => (Ret VNull, st)
    | Ret session =>
        match prop session "expiresAt" with
        | Throw _ => (Ret VNull, st)
        | Ret field =>
            if gt (VNum (Int now)) (VNum (Date.getTime field))
            then (Ret VNull, without_session st)
            else (Ret session, st)
        end
    end.
Proof.
  intros Ha Hk Hne. unfold getSession, logout. run_storage. rewrite Ha, Hk.
  unfold absent. rewrite bool_decide_eq_false_2 by done.
  cbn [default from_option]. unfold id.
  destruct (parse text) as [session|e]; [|done].
  destruct (prop session "expiresAt") as [field|e]; [|done].
  destruct (gt _ _); [|done]. by rewrite Ha.
Qed.

Lemma getSession_total now st :
  exists v st', getSession now st = (Ret v, st').
Proof.
  destruct (available st) eqn:Ha.
  - destruct (items st !! SESSION_KEY) as [text|] eqn:Hk.
    + destruct (decide (text = "")) as [-> | Hne].
      * rewrite getSession_empty; [eauto|done|by rewrite Hk].
      * rewrite (getSession_stored now st text Ha Hk Hne).
        repeat case_match; eauto.
    + rewrite getSession_empty; [eauto|done|by rewrite Hk].
  - rewrite getSession_denied; eauto.
Qed.

Lemma getSession_absent_again now st st' :
  getSession now st = (Ret VNull, st') ->
  forall now', getSession now' st' = (Ret VNull, st').
Proof.
  intros H now'.
  destruct (available st) eqn:Ha.
  - destruct (items st !! SESSION_KEY) as [text|] eqn:Hk.
    + destruct (decide (text = "")) as [-> | Hne].
      * rewrite getSession_empty in H; [|done|by rewrite Hk].
        simplify_eq. apply getSession_empty; [done|by rewrite Hk].
      * rewrite (getSession_stored now st text Ha Hk Hne) in H.
        destruct (parse text) as [session|e] eqn:Hp.
        -- destruct (prop session "expiresAt") as [field|e] eqn:Hf.
           ++ destruct (gt _ _) eqn:Hg.
              ** simplify_eq. apply getSession_empty; [done|].
                 unfold without_session. cbn [items with_items].
                 by rewrite lookup_delete_eq.
              ** by simplify_eq.
           ++ simplify_eq.
              rewrite (getSession_stored now' st' text Ha Hk Hne), Hp.
              by rewrite Hf.
        -- simplify_eq.
           by rewrite (getSession_stored now' st' text Ha Hk Hne), Hp.
    + rewrite getSession_empty in H; [|done|by rewrite Hk].
      simplify_eq. apply getSession_empty; [done|by rewrite Hk].
  - rewrite getSession_denied in H by done. simplify_eq.
    by apply getSession_denied.
Qed.

(** What [getSession] tests: for a stored record that parses and whose
    [expiresAt] reads as the time [t], it returns the record exactly when
    [now <= t], whatever its [isAuthenticated] flag ([isAuthenticated()]
    is what reads the flag); past [t] it deletes the record and returns
    [null], and so does every later call. *)
Theorem getSession_checks_expiry_only now st text session field t :
  available st = true ->
  items st !! SESSION_KEY = Some text -> text <> "" ->
  parse text = Ret session ->
  prop session "expiresAt" = Ret field -> Date.getTime field = Int t ->
  (now <= t ->
     getSession now st = (Ret session, st)
     /\ exists flag,
          prop session "isAuthenticated" = Ret flag
          /\ isAuthenticated now st = (Ret flag, st))
  /\ (t < now ->
      getSession now st = (Ret VNull, without_session st)
      /\ (forall now',
             getSession now' (without_session st)
             = (Ret VNull, without_session st))
      /\ isAuthenticated now st = (Ret (VBool false), without_session st)).
Proof.
  intros Ha Hk Hne Hp Hf Ht.
  pose proof (getSession_stored now st text Ha Hk Hne) as H.
  rewrite Hp, Hf, Ht, gt_Int in H.
  split; intros Hnow.
  - assert ((t <? now) = false) as E by lia. rewrite E in H.
    split; [done|].
    unfold isAuthenticated. rewrite (M_bind_ok _ _ _ _ _ H).
    destruct session; try discriminate Hf; eexists; split; reflexivity.
  - assert ((t <? now) = true) as E by lia. rewrite E in H.
    split; [done|]. split.
    + by apply (getSession_absent_again now st).
    + unfold isAuthenticated. by rewrite (M_bind_ok _ _ _ _ _ H).
Qed.

Lemma getSession_checks_expiry_only_witness :
  getSession 0 unflagged_storage = (Ret unflagged_session, unflagged_storage).
Proof.
  refine (proj1 (proj1 (getSession_checks_expiry_only 0 unflagged_storage
                          (stringify_text unflagged_session) unflagged_session
                          (VStr "2030-01-01T00:00:00.000Z") 1893456000000
                          _ _ _ _ _ _) _)).
  - reflexivity.
  - vm_compute; reflexivity.
  - vm_compute; discriminate.
  - vm_compute; reflexivity.
  - reflexivity.
  - vm_compute; reflexivity.
  - lia.
Defined.

(** C2 (the code departs from it): [getSession] returns a stored record
    that has not expired although its [isAuthenticated] flag is [false];
    the flag is read by [isAuthenticated()] only. *)
Theorem getSession_returns_unflagged :
  prop unflagged_session "isAuthenticated" = Ret (VBool false)
  /\ getSession 1700000000000 unflagged_storage
     = (Ret unflagged_session, unflagged_storage)
  /\ isAuthenticated 1700000000000 unflagged_storage
     = (Ret (VBool false), unflagged_storage).
Proof. repeat split; vm_compute; reflexivity. Qed.


(** With the storage denied, a wrong password is never answered with the
    rate-limit error. *)
Lemma login_denied_storage password random now now' st :
  available st = false -> password <> DEMO_PASSWORD ->
  login password random now now' st = (Ret false, st).
Proof.
  intros Ha Hp. apply login_wrong; [|done]. by apply rateLimit_denied.
Qed.

(** After a successful login the session is served up to 24 hours after
    the clock reading [now'] of the login, and dropped afterwards. *)
Lemma login_session_lifetime random now now' st st' t :
  healthy st ->
  rateLimit "login" MAX_LOGIN_ATTEMPTS RATE_LIMIT_WINDOW now st = (Ret true, st') ->
  Date.valid_time (now' + SESSION_DURATION) = true ->
  exists st2 session,
    login DEMO_PASSWORD random now now' st = (Ret true, st2)
    /\ prop session "isAuthenticated" = Ret (VBool true)
    /\ getSession t st2
       = if t <=? now' + SESSION_DURATION then (Ret session, st2)
         else (Ret VNull, without_session st2).
Proof.
  intros Hh Hr Hv.
  destruct (login_right random now now' st st'
              (rateLimit_healthy _ _ _ _ _ _ _ Hr Hh) Hr Hv)
    as (expiresAt & He & Hg & Hl).
  eexists _, (session_object (generateSessionToken random) expiresAt).
  split; [exact Hl|]. split; [reflexivity|].
  rewrite (getSession_stored t _
             (stringify_text
                (session_object (generateSessionToken random) expiresAt))).
  - rewrite session_text_parse.
    change (prop (session_object (generateSessionToken random) expiresAt)
              "expiresAt") with (Ret (VStr expiresAt)).
    cbv iota beta. rewrite Hg, gt_Int.
    destruct (Z.leb_spec t (now' + SESSION_DURATION));
      destruct (Z.ltb_spec (now' + SESSION_DURATION) t); (done || lia).
  - apply (rateLimit_healthy _ _ _ _ _ _ _ Hr Hh).
  - cbn [items with_items]. apply lookup_insert_eq.
  - apply stringify_text_nonempty.
Qed.

(** ** Drafts *)

Lemma sapp_neq_self (s t : string) : t <> "" -> s +:+ t <> s.
Proof.
  intros Ht H. apply Ht.
  apply (inj (String.app s)). by rewrite sapp_nil_r.
Qed.

Lemma timestamp_key_neq modelId : timestamp_key modelId <> draft_key modelId.
Proof. unfold timestamp_key. by apply sapp_neq_self. Qed.




Lemma saveDraft_ok modelId draft now st :
  healthy st -> Date.valid_time now = true ->
  exists stamp,
    Date.toISOString now = Ret stamp
    /\ saveDraft modelId draft now st = (Ret tt, with_draft st modelId draft stamp).
Proof.
  intros [Ha Hq] Hv.
  destruct (DateFacts.parse_toISOString _ Hv) as (stamp & He & _).
  exists stamp. split; [done|].
  unfold saveDraft. run_storage. rewrite Ha, Hq, He.
  cbn [available quota with_items]. by rewrite Ha, Hq.
Qed.

Lemma clearDraft_ok modelId st :
  available st = true ->
  clearDraft modelId st
  = (Ret tt,
     with_items st
       (delete (timestamp_key modelId) (delete (draft_key modelId) (items st)))).
Proof.
  intros Ha. unfold clearDraft. run_storage. rewrite Ha.
  cbn [available with_items]. by rewrite Ha.
Qed.





(** ** Enumerating the drafts *)

Lemma scan_spec n i draftIds st :
  available st = true -> (List.length (keys st) - i < n)%nat ->
  scan n i draftIds st = (Ret (scan_keys (drop i (keys st)) draftIds), st).
Proof.
  intros Ha. revert i draftIds.
  induction n as [|n IH]; intros i draftIds Hn; [lia|].
  cbn [scan]. unfold mbind, M_bind, localStorage.length, key. rewrite Ha.
  destruct (i <? List.length (keys st))%nat eqn:Hi.
  - apply Nat.ltb_lt in Hi. rewrite Ha.
    destruct (lookup_lt_is_Some_2 (keys st) i Hi) as [k Hk].
    rewrite Hk, IH by lia.
    by rewrite (drop_S _ _ _ Hk).
  - apply Nat.ltb_ge in Hi. by rewrite drop_ge.
Qed.

Lemma getAllDraftIds_scan st :
  available st = true ->
  getAllDraftIds st = (Ret (scan_keys (keys st) []), st).
Proof.
  intros Ha. unfold getAllDraftIds. rewrite scan_spec by (done || lia).
  by rewrite drop_0.
Qed.

Lemma scan_keys_elem ks draftIds m :
  m ∈ scan_keys ks draftIds <->
  m ∈ draftIds
  \/ exists k, k ∈ ks /\ is_draft_key k = true
               /\ m = substring_from (String.length DRAFT_KEY_PREFIX) k.
Proof.
  revert draftIds. induction ks as [|k ks IH]; intros draftIds.
  - simpl. split; [auto|]. intros [?|(k & Hk & _)]; [done|]. by inversion Hk.
  - cbn [scan_keys fold_left]. fold (scan_keys ks (scan_key (Some k) draftIds)).
    rewrite IH. unfold scan_key. fold (is_draft_key k).
    destruct (is_draft_key k) eqn:Hd.
    + rewrite elem_of_app, list_elem_of_singleton. split.
      * intros [[? | ->]|(k' & Hk' & ? & ?)]; [by left|right..].
        -- exists k. split; [left|done].
        -- exists k'. split; [by right|done].
      * intros [?|(k' & Hk' & Hd' & ->)]; [by left; left|].
        apply elem_of_cons in Hk' as [-> | Hk']; [by left; right|].
        right. eauto.
    + split.
      * intros [?|(k' & Hk' & ? & ?)]; [by left|right].
        exists k'. split; [by right|done].
      * intros [?|(k' & Hk' & Hd' & ->)]; [by left|].
        apply elem_of_cons in Hk' as [-> | Hk']; [congruence|].
        right. eauto.
Qed.

Lemma prefix_app p r : String.prefix p (p +:+ r) = true.
Proof.
  induction p as [|c p IH]; [by destruct r|].
  rewrite sapp_cons. cbn [String.prefix].
  by destruct (ascii_dec c c).
Qed.

Lemma prefix_inv p s :
  String.prefix p s = true -> exists r, s = p +:+ r.
Proof.
  revert s. induction p as [|c p IH]; intros s H; [by exists s|].
  destruct s as [|d s]; [done|]. cbn [String.prefix] in H.
  destruct (ascii_dec c d) as [->|]; [|done].
  destruct (IH s H) as [r ->]. by exists r.
Qed.

Lemma substring_from_app p r : substring_from (String.length p) (p +:+ r) = r.
Proof. induction p as [|c p IH]; [by destruct r|]. by rewrite sapp_cons. Qed.

Lemma keys_elem st k : k ∈ keys st <-> is_Some (items st !! k).
Proof.
  unfold keys. rewrite list_elem_of_fmap. split.
  - intros ([k' v] & -> & H). apply elem_of_map_to_list in H. eauto.
  - intros [v H]. exists (k, v). split; [done|]. by apply elem_of_map_to_list.
Qed.

(** [getAllDraftIds] returns the ids whose data key is stored and does not
    itself end with the timestamp suffix. *)
Lemma getAllDraftIds_spec st :
  available st = true ->
  exists ids,
    getAllDraftIds st = (Ret ids, st)
    /\ forall m,
         m ∈ ids <->
         is_Some (items st !! draft_key m)
         /\ endsWith TIMESTAMP_SUFFIX (draft_key m) = false.
Proof.
  intros Ha. eexists. split; [by apply getAllDraftIds_scan|].
  intros m. rewrite scan_keys_elem. split.
  - intros [H|(k & Hk & Hd & ->)]; [by inversion H|].
    unfold is_draft_key in Hd.
    apply andb_true_iff in Hd as [Hd He].
    apply andb_true_iff in Hd as [_ Hp].
    apply prefix_inv in Hp as [r ->].
    rewrite substring_from_app. unfold draft_key.
    split; [by apply keys_elem|]. by apply negb_true_iff.
  - intros [Hk He]. right. exists (draft_key m).
    split; [by apply keys_elem|]. split.
    + unfold is_draft_key. rewrite He.
      unfold startsWith, draft_key. rewrite prefix_app.
      by rewrite bool_decide_eq_false_2.
    + unfold draft_key. by rewrite substring_from_app.
Qed.

(** C8 (the code departs from it): after a draft is saved for the model
    id ["shelf-timestamp"], the draft exists but [getAllDraftIds] does not
    list it, because its data key ends with the timestamp suffix. *)
Theorem getAllDraftIds_misses_suffixed_id :
  let draft := DataService.sample_model [] in
  let st := with_draft fresh "shelf-timestamp" draft "1970-01-01T00:00:00.000Z" in
  saveDraft "shelf-timestamp" draft 0 fresh = (Ret tt, st)
  /\ hasDraft "shelf-timestamp" st = (Ret true, st)
  /\ loadDraft "shelf-timestamp" st = (Ret draft, st)
  /\ getAllDraftIds st = (Ret [], st).
Proof. repeat split; vm_compute; reflexivity. Qed.

End StorageFacts.

(** ** The cache store: writes, reads and removals together *)

Module CacheLaws.
Import CacheService CacheFacts.

Lemma get_after_set key v T t0 now (c : cache) :
  0 < T ->
  get key now (set key v (Some (Int T)) t0 c)
  = if now - t0 <=? T then (v, set key v (Some (Int T)) t0 c)
    else (VNull, remove key c).
Proof.
  intros HT. unfold get, set, remove, expired.
  rewrite lookup_insert_eq. cbn [ttl timestamp data].
  assert ((T =? 0) = false) as -> by lia. cbn [negb andb].
  destruct (Z.leb_spec (now - t0) T).
  - by assert ((now - t0 >? T) = false) as -> by lia.
  - assert ((now - t0 >? T) = true) as -> by lia.
    by rewrite delete_insert_eq.
Qed.

(** X12: a value stored with a positive [ttl] at time [t0] is served, and
    the cache left as it is, at every time up to and including
    [t0 + ttl]; at any later time the read returns [null] and the entry is
    gone, as after [remove]. *)
Theorem set_then_get key v T t0 now (c : cache) :
  0 < T ->
  (now - t0 <= T ->
     get key now (set key v (Some (Int T)) t0 c)
     = (v, set key v (Some (Int T)) t0 c))
  /\ (T < now - t0 ->
      get key now (set key v (Some (Int T)) t0 c) = (VNull, remove key c)).
Proof.
  intros HT. unfold get, set, remove, expired.
  rewrite lookup_insert_eq. cbn [ttl timestamp data].
  split; intros H.
  - assert ((T =? 0) = false) as -> by lia.
    by assert ((now - t0 >? T) = false) as -> by lia.
  - assert ((T =? 0) = false) as -> by lia.
    assert ((now - t0 >? T) = true) as -> by lia.
    cbn. by rewrite delete_insert_eq.
Qed.

Lemma set_then_get_witness :
  get "k" 10 (set "k" (VStr "v") (Some (Int 10)) 0 ∅)
  = (VStr "v", set "k" (VStr "v") (Some (Int 10)) 0 ∅).
Proof.
  refine (proj1 (set_then_get "k" (VStr "v") 10 0 10 ∅ _) _).
  - lia.
  - lia.
Defined.

Lemma get_other_after_set key other v t t0 now (c : cache) :
  other <> key -> (get other now (set key v t t0 c)).1 = (get other now c).1.
Proof.
  intros Hne. unfold get, set. rewrite lookup_insert_ne by done.
  by repeat case_match.
Qed.

Lemma get_other_after_remove key other now (c : cache) :
  other <> key -> (get other now (remove key c)).1 = (get other now c).1.
Proof.
  intros Hne. unfold get, remove. rewrite lookup_delete_ne by done.
  by repeat case_match.
Qed.

Lemma get_other_after_get key other t1 now (c : cache) :
  other <> key -> (get other now (get key t1 c).2).1 = (get other now c).1.
Proof.
  intros Hne. unfold get at 2.
  destruct (c !! key) as [e|]; [|done].
  destruct (expired e t1); [|done].
  cbn [snd]. by apply get_other_after_remove.
Qed.

(** X13: what a read of one key returns is not changed by a write, a
    removal or a read (with its eviction) of another key. *)
Theorem cache_keys_independent key other v t t0 now (c : cache) :
  other <> key ->
  (get other now (set key v t t0 c)).1 = (get other now c).1
  /\ (get other now (remove key c)).1 = (get other now c).1
  /\ (forall t1, (get other now (get key t1 c).2).1 = (get other now c).1).
Proof.
  intros Hne. unfold get, set, remove.
  rewrite lookup_insert_ne, lookup_delete_ne by done.
  split; [by repeat case_match|]. split; [by repeat case_match|].
  intros t1. destruct (c !! key) as [e|]; [|done].
  destruct (expired e t1); [|done].
  cbn [snd]. rewrite lookup_delete_ne by done. by repeat case_match.
Qed.

Lemma cache_keys_independent_witness :
  (get "b" 5 (set "a" (VStr "v") None 0 (set "b" (VStr "w") None 0 ∅))).1
  = (get "b" 5 (set "b" (VStr "w") None 0 ∅)).1.
Proof.
  refine (proj1 (cache_keys_independent "a" "b" (VStr "v") None 0 5
                   (set "b" (VStr "w") None 0 ∅) _)).
  discriminate.
Defined.

(** X14: [has] leaves the cache as [get] does, and answers [true] exactly
    for a key whose entry is not expired and holds a value other than
    [null] (a cached [null] reads as missing); after [remove(key)] or
    [clear()] it answers [false], and [clear()] leaves no entry. *)
Theorem has_iff_live_non_null key now (c : cache) :
  (has key now c).2 = (get key now c).2
  /\ ((has key now c).1 = true <->
      exists entry, c !! key = Some entry /\ expired entry now = false
                    /\ data entry <> VNull)
  /\ (has key now (remove key c)).1 = false
  /\ (has key now (clear c)).1 = false /\ size (clear c) = 0%nat.
Proof.
  unfold has, get, remove, clear, size.
  rewrite lookup_delete_eq, lookup_empty, map_size_empty.
  split; [|split; [|done]].
  - by repeat case_match.
  - destruct (c !! key) as [e|]; [|split; [done|intros (? & ? & _); done]].
    destruct (expired e now) eqn:E.
    + split; [done|]. intros (e' & [= <-] & ? & _). congruence.
    + split.
      * intros H. exists e. split; [done|]. split; [done|].
        intros Hd. rewrite Hd in H. done.
      * intros (e' & [= <-] & _ & Hd). cbn. by destruct (data e).
Qed.

End CacheLaws.

(** ** Objects: assignment to a property *)

Module ObjectFacts.
Import JS JSON JSONFacts.

Lemma lookup_prop_app k ps qs :
  lookup_prop k (ps ++ qs)
  = match lookup_prop k qs with
    | Some w => Some w
    | None => lookup_prop k ps
    end.
Proof.
  induction ps as [|[k' v] ps IH]; cbn [lookup_prop app].
  - by destruct (lookup_prop k qs).
  - rewrite IH. by destruct (lookup_prop k qs).
Qed.

Lemma lookup_prop_None k ps :
  existsb (fun kv => bool_decide (kv.1 = k)) ps = false -> lookup_prop k ps = None.
Proof.
  induction ps as [|[k' v] ps IH]; cbn [lookup_prop existsb]; [done|].
  intros H. apply orb_false_iff in H as [H1 H2]. cbn in H1.
  by rewrite (IH H2), H1.
Qed.

Lemma lookup_prop_replace k w ps :
  existsb (fun kv => bool_decide (kv.1 = k)) ps = true ->
  lookup_prop k
    (map (fun kv => if bool_decide (kv.1 = k) then (kv.1, w) else kv) ps)
  = Some w.
Proof.
  induction ps as [|[k' v] ps IH]; [done|].
  cbn [existsb map lookup_prop fst]. intros H.
  destruct (existsb (fun kv => bool_decide (kv.1 = k)) ps) eqn:E.
  - rewrite (IH eq_refl). by destruct (bool_decide (k' = k)).
  - rewrite orb_false_r in H. rewrite H. cbn [lookup_prop].
    rewrite bool_decide_eq_true_2 by (by apply bool_decide_eq_true in H).
    by destruct (lookup_prop k _) eqn:E'; [|done];
      rewrite lookup_prop_None in E'; [done|];
      clear -E; induction ps as [|[k2 v2] ps IH]; [done|];
      cbn [existsb map fst] in *; apply orb_false_iff in E as [E1 E2];
      rewrite E1; cbn [fst]; rewrite E1, (IH E2).
Qed.

Lemma lookup_prop_replace_ne k k' w ps :
  k' <> k ->
  lookup_prop k'
    (map (fun kv => if bool_decide (kv.1 = k) then (kv.1, w) else kv) ps)
  = lookup_prop k' ps.
Proof.
  intros Hne. induction ps as [|[k2 v] ps IH]; cbn [lookup_prop map]; [done|].
  rewrite IH. cbn [fst].
  destruct (lookup_prop k' ps); [by destruct (bool_decide (k2 = k))|].
  destruct (bool_decide (k2 = k)) eqn:E; [|done].
  apply bool_decide_eq_true in E. subst k2.
  by rewrite !bool_decide_eq_false_2 by done.
Qed.

(** After [o.k = w], reading [o.k] gives [w]. *)
Lemma lookup_assign k w ps : lookup_prop k (assign k w ps) = Some w.
Proof.
  unfold assign.
  destruct (existsb _ ps) eqn:E.
  - by apply lookup_prop_replace.
  - rewrite lookup_prop_app. cbn [lookup_prop].
    by rewrite bool_decide_eq_true_2.
Qed.

(** The other properties keep their values. *)
Lemma lookup_assign_ne k k' w ps :
  k' <> k -> lookup_prop k' (assign k w ps) = lookup_prop k' ps.
Proof.
  intros Hne. unfold assign.
  destruct (existsb _ ps) eqn:E.
  - by apply lookup_prop_replace_ne.
  - rewrite lookup_prop_app. cbn [lookup_prop].
    by rewrite bool_decide_eq_false_2 by done.
Qed.

Lemma json_data_assign k w ps :
  json_data (VObj ps) = true -> json_data w = true ->
  json_data (VObj (assign k w ps)) = true.
Proof.
  rewrite !json_data_obj. intros Hps Hw. unfold assign.
  destruct (existsb _ ps).
  - rewrite forallb_forall in *. intros kv Hin.
    apply in_map_iff in Hin as (kv' & <- & Hin).
    destruct (bool_decide (kv'.1 = k)); [done|]. by apply Hps.
  - rewrite forallb_app, Hps. cbn. by rewrite Hw.
Qed.

End ObjectFacts.

(** ** The rate limiter and the session, beyond the login *)

Module SessionFacts.
Import JS JSON JSONFacts localStorage Security SessionStore StorageFacts.
Import ObjectFacts.

(** *** The rate limiter, for every limit *)

Lemma calls_in_window key maxAttempts window times st m a r :
  healthy st -> Forall (fun t => t <= r) times ->
  calls key maxAttempts window times
    (with_items st (<["rate_limit_" +:+ key := counter_text a r]> m))
  = (Ret (imap (fun j _ => a + Z.of_nat j <? maxAttempts) times),
     with_items st
       (<["rate_limit_" +:+ key :=
            counter_text
              (Z.max a (Z.min (a + Z.of_nat (List.length times)) maxAttempts)) r]>
          m)).
Proof.
  intros Hh Ht. revert a.
  induction Ht as [|t times Hr _ IH]; intros a.
  - cbn [calls imap List.length]. unfold mret, M_ret.
    by replace (Z.max a (Z.min (a + Z.of_nat 0) maxAttempts)) with a by lia.
  - pose proof (rateLimit_in_window key maxAttempts window t st m a r Hh Hr) as H1.
    cbn [imap]. replace (a + Z.of_nat 0) with a by lia.
    destruct (Z.ltb_spec a maxAttempts) as [Hlt|Hge].
    + rewrite (calls_cons _ _ _ _ _ _ _ _ H1), IH. f_equal.
      * f_equal. f_equal. apply imap_ext. intros j x _. cbn. f_equal. lia.
      * do 3 f_equal. cbn [List.length]. lia.
    + rewrite (calls_cons _ _ _ _ _ _ _ _ H1), IH. f_equal.
      * f_equal. f_equal. apply imap_ext. intros j x _. cbn.
        destruct (Z.ltb_spec (a + Z.of_nat j) maxAttempts);
          destruct (Z.ltb_spec (a + Z.of_nat (S j)) maxAttempts); (done || lia).
      * do 3 f_equal. cbn [List.length]. lia.
Qed.

(** X15: for every limit and every run of calls for one key that starts
    without a counter and stays inside the window of the first call, the
    call number [i] (counted from 0) is allowed exactly when [i = 0] or
    [i < maxAttempts]: the first call is allowed whatever the limit, and
    the counter stops at the limit. *)
Theorem rateLimit_allows_up_to_limit key maxAttempts window t1 later st :
  healthy st -> items st !! ("rate_limit_" +:+ key) = None ->
  Forall (fun t => t <= t1 + window) later ->
  calls key maxAttempts window (t1 :: later) st
  = (Ret (imap (fun i _ => (i =? 0)%nat || (Z.of_nat i <? maxAttempts))
            (t1 :: later)),
     with_items st
       (<["rate_limit_" +:+ key :=
            counter_text
              (Z.max 1 (Z.min (Z.of_nat (List.length (t1 :: later))) maxAttempts))
              (t1 + window)]>
          (items st))).
Proof.
  intros Hh Hk Ht.
  erewrite calls_cons by (by apply rateLimit_first).
  rewrite calls_in_window by done.
  cbn [imap Nat.eqb orb]. f_equal.
  - f_equal. f_equal. apply imap_ext. intros j x _. cbn. f_equal. lia.
  - do 3 f_equal. cbn [List.length]. lia.
Qed.

Lemma rateLimit_allows_up_to_limit_witness :
  calls "export" 2 1000 [0; 10; 20; 30] fresh
  = (Ret (imap (fun i _ => (i =? 0)%nat || (Z.of_nat i <? 2)) [0; 10; 20; 30]),
     with_items fresh
       (<["rate_limit_" +:+ "export" :=
            counter_text
              (Z.max 1 (Z.min (Z.of_nat (List.length [0; 10; 20; 30])) 2))
              (0 + 1000)]>
          (items fresh))).
Proof.
  apply (rateLimit_allows_up_to_limit "export" 2 1000 0 [10; 20; 30] fresh).
  - split; reflexivity.
  - reflexivity.
  - repeat constructor; lia.
Defined.

Lemma rateLimit_frame key maxAttempts window now st o st' :
  rateLimit key maxAttempts window now st = (o, st') ->
  available st' = available st
  /\ forall k, k <> "rate_limit_" +:+ key -> items st' !! k = items st !! k.
Proof.
  run_storage. intros H.
  repeat (case_match; simplify_eq; try done); cbn [available items with_items];
    split; try done; intros k ?; by rewrite lookup_insert_ne.
Qed.

Lemma rateLimit_verdict_depends key maxAttempts window now st st' :
  available st' = available st ->
  items st' !! ("rate_limit_" +:+ key) = items st !! ("rate_limit_" +:+ key) ->
  (rateLimit key maxAttempts window now st').1
  = (rateLimit key maxAttempts window now st).1.
Proof.
  intros Ha Hk. run_storage. rewrite Ha, Hk.
  repeat (case_match; simplify_eq; try done).
Qed.

Lemma getSession_depends now st st' :
  available st' = available st ->
  items st' !! SESSION_KEY = items st !! SESSION_KEY ->
  (getSession now st').1 = (getSession now st).1.
Proof.
  intros Ha Hk. unfold getSession, logout. run_storage. rewrite Ha, Hk.
  repeat (case_match; simplify_eq; try done).
Qed.

(** X16: a call of [rateLimit] for one key writes at most the counter of
    that key: every other stored item stays, and neither the answer of
    the limiter for another key nor the session that [getSession] returns
    changes. *)
Theorem rateLimit_keys_independent key other maxAttempts window now st o st' :
  other <> key ->
  rateLimit key maxAttempts window now st = (o, st') ->
  (forall k, k <> "rate_limit_" +:+ key -> items st' !! k = items st !! k)
  /\ (forall limit window' t,
        (rateLimit other limit window' t st').1
        = (rateLimit other limit window' t st).1)
  /\ (forall t, (getSession t st').1 = (getSession t st).1).
Proof.
  intros Hne H. apply rateLimit_frame in H as [Ha Hk].
  split; [done|]. split.
  - intros limit window' t. apply rateLimit_verdict_depends; [done|].
    apply Hk. intros E. by apply (inj (String.app "rate_limit_")) in E.
  - intros t. apply getSession_depends; [done|]. by apply Hk.
Qed.

Lemma rateLimit_keys_independent_witness :
  (rateLimit "export" 1 1000 5
     (with_items fresh
        (<["rate_limit_" +:+ "login" := counter_text 1 (0 + 900000)]>
           (items fresh)))).1
  = (rateLimit "export" 1 1000 5 fresh).1.
Proof.
  refine (proj1 (proj2 (rateLimit_keys_independent "login" "export" 5 900000 0
                          fresh (Ret true) _ _ _)) 1 1000 5).
  - discriminate.
  - apply rateLimit_first; [split|]; reflexivity.
Defined.

(** X17: on a storage that accepts reads and writes, [clearRateLimit]
    followed by [rateLimit] for the same key is allowed and starts a new
    counter at one attempt, whatever was stored for the key before (an
    exhausted counter, or a text that does not parse). *)
Theorem clearRateLimit_resets key maxAttempts window now st :
  healthy st ->
  exists st1,
    clearRateLimit key st = (Ret tt, st1)
    /\ rateLimit key maxAttempts window now st1
       = (Ret true,
          with_items st
            (<["rate_limit_" +:+ key := counter_text 1 (now + window)]>
               (items st))).
Proof.
  intros Hh. eexists. split.
  - unfold clearRateLimit. apply removeItem_ok, Hh.
  - rewrite rateLimit_first.
    + rewrite with_items_twice. cbn [items with_items].
      by rewrite insert_delete_eq.
    + by apply healthy_with_items.
    + cbn [items with_items]. apply lookup_delete_eq.
Qed.

Lemma clearRateLimit_resets_witness :
  exists st1,
    clearRateLimit "login"
      (with_items fresh (<["rate_limit_login" := counter_text 5 900000]> (items fresh)))
    = (Ret tt, st1)
    /\ rateLimit "login" 5 900000 7 st1
       = (Ret true,
          with_items
            (with_items fresh
               (<["rate_limit_login" := counter_text 5 900000]> (items fresh)))
            (<["rate_limit_" +:+ "login" := counter_text 1 (7 + 900000)]>
               (items
                  (with_items fresh
                     (<["rate_limit_login" := counter_text 5 900000]>
                        (items fresh)))))).
Proof.
  apply (clearRateLimit_resets "login" 5 900000 7).
  split; reflexivity.
Defined.

(** *** The session *)

(** What [getSession] does with a stored record that parses and whose
    [expiresAt] reads as the time [t]. *)
Lemma getSession_record now st text session field t :
  available st = true ->
  items st !! SESSION_KEY = Some text -> text <> "" ->
  parse text = Ret session ->
  prop session "expiresAt" = Ret field -> Date.getTime field = Int t ->
  getSession now st
  = if t <? now then (Ret VNull, without_session st) else (Ret session, st).
Proof.
  intros Ha Hk Hne Hp Hf Ht.
  rewrite (getSession_stored now st text Ha Hk Hne), Hp, Hf, Ht.
  by rewrite gt_Int.
Qed.

(** X18: after a login with the right password that the limiter allows,
    [isAuthenticated()] answers [true] at every time up to 24 hours after
    the clock reading [now'] of the login, and [false] afterwards, when
    it also deletes the session. *)
Theorem login_then_authenticated random now now' st st' :
  healthy st ->
  rateLimit "login" MAX_LOGIN_ATTEMPTS RATE_LIMIT_WINDOW now st = (Ret true, st') ->
  Date.valid_time (now' + SESSION_DURATION) = true ->
  exists st2,
    login DEMO_PASSWORD random now now' st = (Ret true, st2)
    /\ forall t,
         isAuthenticated t st2
         = if t <=? now' + SESSION_DURATION then (Ret (VBool true), st2)
           else (Ret (VBool false), without_session st2).
Proof.
  intros Hh Hr Hv.
  destruct (login_right random now now' st st'
              (rateLimit_healthy _ _ _ _ _ _ _ Hr Hh) Hr Hv)
    as (expiresAt & He & Hg & Hl).
  eexists. split; [exact Hl|]. intros t.
  set (st2 := with_items st' _).
  pose proof (getSession_record t st2
             (stringify_text
                (session_object (generateSessionToken random) expiresAt))
             (session_object (generateSessionToken random) expiresAt)
             (VStr expiresAt) (now' + SESSION_DURATION)
             (healthy_available _ (healthy_with_items _ _
                (rateLimit_healthy _ _ _ _ _ _ _ Hr Hh)))
             (lookup_insert_eq _ _ _) (stringify_text_nonempty _)
             (session_text_parse _ _) eq_refl Hg) as Hs.
  unfold isAuthenticated.
  destruct (Z.leb_spec t (now' + SESSION_DURATION));
    destruct (Z.ltb_spec (now' + SESSION_DURATION) t); try lia;
    by rewrite (M_bind_ok _ _ _ _ _ Hs).
Qed.

Lemma login_then_authenticated_witness :
  exists st2,
    login DEMO_PASSWORD (fun _ => 0%N) 0 0 fresh = (Ret true, st2)
    /\ forall t,
         isAuthenticated t st2
         = if t <=? 0 + SESSION_DURATION then (Ret (VBool true), st2)
           else (Ret (VBool false), without_session st2).
Proof.
  apply (login_then_authenticated (fun _ => 0%N) 0 0 fresh
           (with_items fresh
              (<["rate_limit_" +:+ "login" :=
                   counter_text 1 (0 + RATE_LIMIT_WINDOW)]> (items fresh)))).
  - split; reflexivity.
  - apply rateLimit_first; [split|]; reflexivity.
  - reflexivity.
Defined.

Lemma logout_ok st :
  available st = true -> logout st = (Ret tt, without_session st).
Proof. intros Ha. unfold logout. by apply removeItem_ok. Qed.

(** X19: when the storage can be used, [logout()] deletes the session
    record: afterwards [getSession()] returns [null] and
    [isAuthenticated()] returns [false] at every time, and a second
    [logout()] changes nothing; when the storage is denied, [logout()]
    throws the error of the storage. *)
Theorem logout_ends_session st :
  (available st = true ->
   logout st = (Ret tt, without_session st)
   /\ (forall now,
         getSession now (without_session st) = (Ret VNull, without_session st)
         /\ isAuthenticated now (without_session st)
            = (Ret (VBool false), without_session st))
   /\ logout (without_session st) = (Ret tt, without_session st))
  /\ (available st = false -> logout st = (Throw SecurityError, st)).
Proof.
  split.
  - intros Ha. split; [by apply logout_ok|].
    assert (forall now,
               getSession now (without_session st)
               = (Ret VNull, without_session st)) as Hg.
    { intros now. apply getSession_empty; [done|].
      unfold without_session. cbn [items with_items].
      by rewrite lookup_delete_eq. }
    split.
    + intros now. split; [done|].
      unfold isAuthenticated. by rewrite (M_bind_ok _ _ _ _ _ (Hg now)).
    + rewrite logout_ok by done.
      unfold without_session. cbn [items with_items].
      rewrite with_items_twice. f_equal. f_equal.
      apply delete_id, lookup_delete_eq.
  - intros Ha. unfold logout, removeItem. by rewrite Ha.
Qed.

(** X20: for a stored session object whose [expiresAt] reads as the time
    [t]: when it has not expired at [now], [refreshSession()] stores the
    same object with [expiresAt] set to 24 hours after [now'] and every
    other property kept, so that [getSession()] returns it up to that
    time and [null] afterwards; when it has expired, [refreshSession()]
    deletes it and stores nothing, so no session comes back. *)
Theorem refreshSession_slides_expiry now now' st text props field t :
  healthy st ->
  items st !! SESSION_KEY = Some text -> text <> "" ->
  parse text = Ret (VObj props) -> json_data (VObj props) = true ->
  prop (VObj props) "expiresAt" = Ret field -> Date.getTime field = Int t ->
  Date.valid_time (now' + SESSION_DURATION) = true ->
  (now <= t ->
   exists st2 stamp session,
     refreshSession now now' st = (Ret tt, st2)
     /\ Date.toISOString (now' + SESSION_DURATION) = Ret stamp
     /\ prop session "expiresAt" = Ret (VStr stamp)
     /\ (forall k, k <> "expiresAt" -> prop session k = prop (VObj props) k)
     /\ forall u,
          getSession u st2
          = if u <=? now' + SESSION_DURATION then (Ret session, st2)
            else (Ret VNull, without_session st2))
  /\ (t < now ->
      refreshSession now now' st = (Ret tt, without_session st)
      /\ forall u,
           getSession u (without_session st)
           = (Ret VNull, without_session st)).
Proof.
  intros Hh Hk Hne Hp Hd Hf Ht Hv.
  pose proof (getSession_record now st text (VObj props) field t
                (healthy_available _ Hh) Hk Hne Hp Hf Ht) as Hg.
  split; intros Hnow.
  - destruct (DateFacts.parse_toISOString _ Hv) as (stamp & He & Hparse).
    assert ((t <? now) = false) as E by lia. rewrite E in Hg.
    set (session := VObj (assign "expiresAt" (VStr stamp) props)).
    set (st2 := with_items st
                  (<[SESSION_KEY := stringify_text session]> (items st))).
    exists st2, stamp, session.
    assert (Hprop : prop session "expiresAt" = Ret (VStr stamp)).
    { unfold session. cbn [prop]. by rewrite lookup_assign. }
    split; [|split; [done|split; [done|split]]].
    + unfold refreshSession. rewrite (M_bind_ok _ _ _ _ _ Hg).
      cbn [truthy]. unfold lift, mbind, M_bind. rewrite He.
      cbn [set_prop]. by apply setItem_ok.
    + intros k Hne'. unfold session. cbn [prop].
      by rewrite lookup_assign_ne.
    + intros u.
      rewrite (getSession_record u st2 (stringify_text session) session
                 (VStr stamp) (now' + SESSION_DURATION)).
      * destruct (Z.leb_spec u (now' + SESSION_DURATION));
          destruct (Z.ltb_spec (now' + SESSION_DURATION) u); (done || lia).
      * apply Hh.
      * unfold st2. cbn [items with_items]. apply lookup_insert_eq.
      * apply stringify_text_nonempty.
      * apply parse_stringify. by apply json_data_assign.
      * done.
      * exact Hparse.
  - assert ((t <? now) = true) as E by lia. rewrite E in Hg. split.
    + unfold refreshSession. by rewrite (M_bind_ok _ _ _ _ _ Hg).
    + by apply (getSession_absent_again now st).
Qed.

Lemma refreshSession_slides_expiry_witness :
  exists st2 stamp session,
    refreshSession 0 0 unflagged_storage = (Ret tt, st2)
    /\ Date.toISOString (0 + SESSION_DURATION) = Ret stamp
    /\ prop session "expiresAt" = Ret (VStr stamp)
    /\ (forall k, k <> "expiresAt" ->
                  prop session k = prop unflagged_session k)
    /\ forall u,
         getSession u st2
         = if u <=? 0 + SESSION_DURATION then (Ret session, st2)
           else (Ret VNull, without_session st2).
Proof.
  refine (proj1 (refreshSession_slides_expiry 0 0 unflagged_storage
                   (stringify_text unflagged_session)
                   [("isAuthenticated", VBool false);
                    ("sessionToken", VStr "0f8c2a51-7d3e-4b6a-9c1d-2e4f6a8b0c1d");
                    ("expiresAt", VStr "2030-01-01T00:00:00.000Z");
                    ("mode", VStr "admin")]
                   (VStr "2030-01-01T00:00:00.000Z") 1893456000000
                   _ _ _ _ _ _ _ _) _).
  - split; reflexivity.
  - vm_compute; reflexivity.
  - vm_compute; discriminate.
  - vm_compute; reflexivity.
  - reflexivity.
  - reflexivity.
  - vm_compute; reflexivity.
  - reflexivity.
  - lia.
Defined.

(** X28: when the storage is denied, [getSession()] returns [null],
    [isAuthenticated()] returns [false] and [refreshSession()] does
    nothing; [login] answers a wrong password with [false] (the limiter
    fails open), and throws the error of the storage for the right
    password, since clearing the counter is not guarded; nothing is
    stored. *)
Theorem session_when_storage_denied password random now now' st :
  available st = false ->
  getSession now st = (Ret VNull, st)
  /\ isAuthenticated now st = (Ret (VBool false), st)
  /\ refreshSession now now' st = (Ret tt, st)
  /\ (password <> DEMO_PASSWORD ->
      login password random now now' st = (Ret false, st))
  /\ login DEMO_PASSWORD random now now' st = (Throw SecurityError, st).
Proof.
  intros Ha.
  pose proof (getSession_denied now st Ha) as Hg.
  split; [done|]. split; [|split; [|split]].
  - unfold isAuthenticated. by rewrite (M_bind_ok _ _ _ _ _ Hg).
  - unfold refreshSession. by rewrite (M_bind_ok _ _ _ _ _ Hg).
  - intros Hp. by apply login_denied_storage.
  - unfold login.
    rewrite (M_bind_ok _ _ _ _ _ (rateLimit_denied "login" _ _ now st Ha)).
    cbn [negb]. rewrite bool_decide_eq_true_2 by done.
    run_storage. by rewrite Ha.
Qed.

Lemma session_when_storage_denied_witness :
  getSession 0 denied = (Ret VNull, denied)
  /\ isAuthenticated 0 denied = (Ret (VBool false), denied)
  /\ refreshSession 0 0 denied = (Ret tt, denied)
  /\ ("guess" <> DEMO_PASSWORD ->
      login "guess" (fun _ => 0%N) 0 0 denied = (Ret false, denied))
  /\ login DEMO_PASSWORD (fun _ => 0%N) 0 0 denied
     = (Throw SecurityError, denied).
Proof.
  apply (session_when_storage_denied "guess" (fun _ => 0%N) 0 0 denied).
  reflexivity.
Defined.

(** Each of the sixteen values of a hexadecimal digit. *)
Lemma below_16 (P : N -> Prop) :
  (forall k, (k < 16)%nat -> P (N.of_nat k)) -> forall n, (n < 16)%N -> P n.
Proof.
  intros HP n Hn. rewrite <- (N2Nat.id n). apply HP. lia.
Qed.

Lemma hex_digit_is_hex n : (n < 16)%N -> is_hex (hex_digit n) = true.
Proof.
  revert n. apply below_16. intros k Hk.
  do 16 (destruct k as [|k]; [reflexivity|]). lia.
Qed.

Lemma variant_digit n :
  (n < 16)%N ->
  let c := hex_digit (N.lor (N.land n 3) 8) in
  Ascii.eqb c "8" || Ascii.eqb c "9" || Ascii.eqb c "a" || Ascii.eqb c "b" = true.
Proof.
  revert n. apply below_16. intros k Hk.
  do 16 (destruct k as [|k]; [reflexivity|]). lia.
Qed.

(** X21: whatever the random numbers, the session token has 36
    characters in the shape of a version-4 UUID: lower-case hexadecimal
    digits in groups of 8, 4, 4, 4 and 12 separated by dashes, with [4] at
    the head of the third group and one of [8], [9], [a], [b] at the head
    of the fourth. *)
Theorem generateSessionToken_shape random :
  String.length (generateSessionToken random) = 36%nat
  /\ matches_template "xxxxxxxx-xxxx-4xxx-yxxx-xxxxxxxxxxxx"
       (generateSessionToken random) = true.
Proof.
  split; [reflexivity|].
  unfold generateSessionToken.
  cbn [fill_template Ascii.eqb Bool.eqb matches_template].
  rewrite !hex_digit_is_hex by (apply N.mod_lt; lia).
  rewrite variant_digit by (apply N.mod_lt; lia).
  reflexivity.
Qed.

End SessionFacts.

(** ** The draft store, beyond one draft *)

Module DraftFacts.
Import JS JSON JSONFacts localStorage SessionStore DraftStore StorageFacts.
Import SessionFacts.

Lemma draft_key_inj m m' : draft_key m = draft_key m' -> m = m'.
Proof. unfold draft_key. apply (inj (String.app DRAFT_KEY_PREFIX)). Qed.

Lemma timestamp_key_draft_key m :
  timestamp_key m = draft_key (m +:+ TIMESTAMP_SUFFIX).
Proof. unfold timestamp_key, draft_key. by rewrite sapp_assoc. Qed.

Lemma getDraftTimestamp_key modelId :
  getDraftTimestamp modelId = getItem (timestamp_key modelId).
Proof.
  unfold getDraftTimestamp, timestamp_key, draft_key. by rewrite sapp_assoc.
Qed.

(** The keys that [saveDraft] and [clearDraft] may touch. *)
Lemma saveDraft_frame modelId draft now st o st' :
  saveDraft modelId draft now st = (o, st') ->
  available st' = available st
  /\ forall k, k <> draft_key modelId -> k <> timestamp_key modelId ->
               items st' !! k = items st !! k.
Proof.
  unfold saveDraft. run_storage. intros H.
  repeat (case_match; simplify_eq; try done); cbn [available items with_items] in *;
    split; try done; intros k ? ?;
    rewrite ?lookup_insert_ne by done; done.
Qed.

Lemma clearDraft_frame modelId st o st' :
  clearDraft modelId st = (o, st') ->
  available st' = available st
  /\ forall k, k <> draft_key modelId -> k <> timestamp_key modelId ->
               items st' !! k = items st !! k.
Proof.
  unfold clearDraft. run_storage. intros H.
  repeat (case_match; simplify_eq; try done); cbn [available items with_items] in *;
    split; try done; intros k ? ?;
    rewrite ?lookup_delete_ne by done; done.
Qed.

Lemma loadDraft_depends modelId st st' :
  available st' = available st ->
  items st' !! draft_key modelId = items st !! draft_key modelId ->
  loadDraft modelId st' = ((loadDraft modelId st).1, st').
Proof.
  intros Ha Hk. unfold loadDraft. run_storage. rewrite Ha, Hk.
  repeat (case_match; simplify_eq; try done).
Qed.

Lemma hasDraft_depends modelId st st' :
  available st' = available st ->
  items st' !! draft_key modelId = items st !! draft_key modelId ->
  hasDraft modelId st' = ((hasDraft modelId st).1, st').
Proof.
  intros Ha Hk. unfold hasDraft. run_storage. rewrite Ha, Hk.
  repeat (case_match; simplify_eq; try done).
Qed.

(** X22: saving or clearing the draft of one model, whether it succeeds
    or throws, changes neither what [loadDraft] returns nor what
    [hasDraft] answers for another model, provided the other id is not
    the first id followed by ["-timestamp"] (whose data key is the time
    stamp key of the first). *)
Theorem drafts_do_not_interfere modelId other draft now st :
  other <> modelId -> other <> modelId +:+ TIMESTAMP_SUFFIX ->
  (forall o st', saveDraft modelId draft now st = (o, st') ->
     loadDraft other st' = ((loadDraft other st).1, st')
     /\ hasDraft other st' = ((hasDraft other st).1, st'))
  /\ (forall o st', clearDraft modelId st = (o, st') ->
        loadDraft other st' = ((loadDraft other st).1, st')
        /\ hasDraft other st' = ((hasDraft other st).1, st')).
Proof.
  intros H1 H2.
  assert (draft_key other <> draft_key modelId) as K1
    by (intros E; by apply draft_key_inj in E).
  assert (draft_key other <> timestamp_key modelId) as K2
    by (rewrite timestamp_key_draft_key; intros E; by apply draft_key_inj in E).
  split; intros o st' H.
  - apply saveDraft_frame in H as [Ha Hk].
    split; [apply loadDraft_depends|apply hasDraft_depends]; auto.
  - apply clearDraft_frame in H as [Ha Hk].
    split; [apply loadDraft_depends|apply hasDraft_depends]; auto.
Qed.

Lemma drafts_do_not_interfere_witness :
  (forall o st', saveDraft "m1" (DataService.sample_model []) 0 fresh = (o, st') ->
     loadDraft "m2" st' = ((loadDraft "m2" fresh).1, st')
     /\ hasDraft "m2" st' = ((hasDraft "m2" fresh).1, st'))
  /\ (forall o st', clearDraft "m1" fresh = (o, st') ->
        loadDraft "m2" st' = ((loadDraft "m2" fresh).1, st')
        /\ hasDraft "m2" st' = ((hasDraft "m2" fresh).1, st')).
Proof.
  apply (drafts_do_not_interfere "m1" "m2").
  - discriminate.
  - discriminate.
Defined.

Lemma hasDraft_ok modelId st :
  available st = true ->
  hasDraft modelId st
  = (Ret (bool_decide (items st !! draft_key modelId <> None)), st).
Proof. intros Ha. unfold hasDraft. run_storage. by rewrite Ha. Qed.

(** X23: on a storage that accepts the writes, after [saveDraft] at the
    time [now] the draft exists and [getDraftTimestamp] returns a text
    that [Date.parse] reads back as [now]; after [clearDraft] the time
    stamp is [null] and the draft no longer exists. *)
Theorem draft_timestamp_round_trip modelId draft now st :
  healthy st -> Date.valid_time now = true ->
  exists st' stamp,
    saveDraft modelId draft now st = (Ret tt, st')
    /\ getDraftTimestamp modelId st' = (Ret (Some stamp), st')
    /\ Date.parse stamp = Int now
    /\ hasDraft modelId st' = (Ret true, st')
    /\ exists st2,
         clearDraft modelId st' = (Ret tt, st2)
         /\ getDraftTimestamp modelId st2 = (Ret None, st2)
         /\ hasDraft modelId st2 = (Ret false, st2).
Proof.
  intros Hh Hv.
  destruct (DateFacts.parse_toISOString _ Hv) as (stamp & He & Hp).
  destruct (saveDraft_ok modelId draft now st Hh Hv) as (stamp' & He' & Hs).
  assert (stamp' = stamp) as -> by congruence.
  pose proof (healthy_available _ Hh) as Ha.
  exists (with_draft st modelId draft stamp), stamp.
  split; [done|]. split; [|split; [done|split]].
  - rewrite getDraftTimestamp_key, getItem_ok by done.
    unfold with_draft. cbn [items with_items]. by rewrite lookup_insert_eq.
  - rewrite hasDraft_ok by done.
    unfold with_draft. cbn [items with_items].
    rewrite lookup_insert_ne by apply timestamp_key_neq.
    by rewrite lookup_insert_eq.
  - eexists. split; [by apply clearDraft_ok|]. split.
    + rewrite getDraftTimestamp_key, getItem_ok by done.
      cbn [items with_items]. by rewrite lookup_delete_eq.
    + rewrite hasDraft_ok by done.
      cbn [items with_items].
      rewrite lookup_delete_ne by apply timestamp_key_neq.
      by rewrite lookup_delete_eq.
Qed.

Lemma draft_timestamp_round_trip_witness :
  exists st' stamp,
    saveDraft "m1" (DataService.sample_model []) 1700000000123 fresh = (Ret tt, st')
    /\ getDraftTimestamp "m1" st' = (Ret (Some stamp), st')
    /\ Date.parse stamp = Int 1700000000123
    /\ hasDraft "m1" st' = (Ret true, st')
    /\ exists st2,
         clearDraft "m1" st' = (Ret tt, st2)
         /\ getDraftTimestamp "m1" st2 = (Ret None, st2)
         /\ hasDraft "m1" st2 = (Ret false, st2).
Proof.
  apply (draft_timestamp_round_trip "m1" (DataService.sample_model [])
           1700000000123 fresh).
  - split; reflexivity.
  - reflexivity.
Defined.

(** X29: when the storage is denied, [saveDraft] throws "Failed to save
    draft" and [loadDraft] returns [null], while [hasDraft],
    [getDraftTimestamp], [clearDraft], [getAllDraftIds] and
    [clearAllDrafts], which have no handler, throw the error of the
    storage; the storage stays as it is. *)
Theorem draft_store_when_storage_denied modelId draft now st :
  available st = false ->
  saveDraft modelId draft now st = (Throw save_failed, st)
  /\ loadDraft modelId st = (Ret VNull, st)
  /\ hasDraft modelId st = (Throw SecurityError, st)
  /\ getDraftTimestamp modelId st = (Throw SecurityError, st)
  /\ clearDraft modelId st = (Throw SecurityError, st)
  /\ getAllDraftIds st = (Throw SecurityError, st)
  /\ clearAllDrafts st = (Throw SecurityError, st).
Proof.
  intros Ha.
  assert (getAllDraftIds st = (Throw SecurityError, st)) as Hg.
  { unfold getAllDraftIds. cbn [scan]. unfold mbind, M_bind, localStorage.length.
    by rewrite Ha. }
  repeat split; try done.
  - unfold saveDraft. run_storage. by rewrite Ha.
  - unfold loadDraft. run_storage. by rewrite Ha.
  - unfold hasDraft. run_storage. by rewrite Ha.
  - unfold getDraftTimestamp. run_storage. by rewrite Ha.
  - unfold clearDraft. run_storage. by rewrite Ha.
  - unfold clearAllDrafts. by rewrite (M_bind_throw _ _ _ _ _ Hg).
Qed.

Lemma draft_store_when_storage_denied_witness :
  saveDraft "m1" (DataService.sample_model []) 0 denied = (Throw save_failed, denied)
  /\ loadDraft "m1" denied = (Ret VNull, denied)
  /\ hasDraft "m1" denied = (Throw SecurityError, denied)
  /\ getDraftTimestamp "m1" denied = (Throw SecurityError, denied)
  /\ clearDraft "m1" denied = (Throw SecurityError, denied)
  /\ getAllDraftIds denied = (Throw SecurityError, denied)
  /\ clearAllDrafts denied = (Throw SecurityError, denied).
Proof.
  apply (draft_store_when_storage_denied "m1" (DataService.sample_model []) 0
           denied).
  reflexivity.
Defined.

Lemma forEach_clearDraft ids st :
  available st = true ->
  forEach ids (fun id => clearDraft id) st
  = (Ret tt, with_items st (cleared ids (items st))).
Proof.
  intros Ha. revert st Ha.
  induction ids as [|id ids IH]; intros st Ha.
  - by destruct st.
  - cbn [forEach]. erewrite M_bind_ok by (by apply clearDraft_ok).
    rewrite IH by done. by rewrite with_items_twice.
Qed.

Lemma cleared_cons id ids m :
  cleared (id :: ids) m
  = cleared ids (delete (timestamp_key id) (delete (draft_key id) m)).
Proof. reflexivity. Qed.

Lemma cleared_Some ids m k v :
  cleared ids m !! k = Some v -> m !! k = Some v.
Proof.
  revert m. induction ids as [|id ids IH]; intros m; [done|].
  rewrite cleared_cons. intros H. apply IH in H.
  apply lookup_delete_Some in H as [_ H].
  by apply lookup_delete_Some in H as [_ H].
Qed.

Lemma cleared_listed ids m id k :
  id ∈ ids -> k = draft_key id \/ k = timestamp_key id ->
  cleared ids m !! k = None.
Proof.
  revert m. induction ids as [|id' ids IH]; intros m Hin Hk.
  - by inversion Hin.
  - rewrite cleared_cons.
    apply elem_of_cons in Hin as [-> | Hin]; [|by apply IH].
    destruct (cleared ids _ !! k) as [v|] eqn:E; [|done].
    apply cleared_Some in E.
    apply lookup_delete_Some in E as [E1 E].
    apply lookup_delete_Some in E as [E2 _].
    destruct Hk; congruence.
Qed.

Lemma cleared_frame ids m k :
  (forall id, id ∈ ids -> k <> draft_key id /\ k <> timestamp_key id) ->
  cleared ids m !! k = m !! k.
Proof.
  revert m. induction ids as [|id ids IH]; intros m H; [done|].
  rewrite cleared_cons, IH by (intros id' Hin; apply H; by right).
  destruct (H id) as [H1 H2]; [left|].
  by rewrite !lookup_delete_ne by done.
Qed.

(** X24: when the storage can be used, [clearAllDrafts()] returns,
    afterwards [getAllDraftIds()] lists nothing, and no item whose key
    does not start with the draft prefix is touched, so that the session
    [getSession()] returns is unchanged. *)
Theorem clearAllDrafts_clears st :
  available st = true ->
  exists st',
    clearAllDrafts st = (Ret tt, st')
    /\ getAllDraftIds st' = (Ret [], st')
    /\ (forall k, startsWith DRAFT_KEY_PREFIX k = false ->
                  items st' !! k = items st !! k)
    /\ (forall now, (getSession now st').1 = (getSession now st).1).
Proof.
  intros Ha.
  destruct (getAllDraftIds_spec st Ha) as (ids & Hids & Hspec).
  set (st' := with_items st (cleared ids (items st))).
  assert (forall k, startsWith DRAFT_KEY_PREFIX k = false ->
                    items st' !! k = items st !! k) as Hframe.
  { intros k Hk. unfold st'. cbn [items with_items]. apply cleared_frame.
    intros id _. split; intros ->.
    - unfold startsWith, draft_key in Hk. by rewrite prefix_app in Hk.
    - rewrite timestamp_key_draft_key in Hk.
      unfold startsWith, draft_key in Hk. by rewrite prefix_app in Hk. }
  exists st'. split; [|split; [|split]].
  - unfold clearAllDrafts. rewrite (M_bind_ok _ _ _ _ _ Hids).
    by apply forEach_clearDraft.
  - destruct (getAllDraftIds_spec st' Ha) as (ids' & Hids' & Hspec').
    rewrite Hids'. f_equal. f_equal.
    destruct ids' as [|m ids']; [done|]. exfalso.
    destruct (proj1 (Hspec' m)) as [[v Hv] He]; [left|].
    unfold st' in Hv. cbn [items with_items] in Hv.
    assert (m ∈ ids) as Hin.
    { apply Hspec. split; [|done]. exists v. by apply (cleared_Some ids). }
    by rewrite (cleared_listed ids _ m) in Hv; [|done|left].
  - done.
  - intros now. apply getSession_depends; [done|].
    by apply Hframe.
Qed.

Lemma clearAllDrafts_clears_witness :
  let st := with_draft unflagged_storage "m1" (DataService.sample_model [])
              "1970-01-01T00:00:00.000Z" in
  exists st',
    clearAllDrafts st = (Ret tt, st')
    /\ getAllDraftIds st' = (Ret [], st')
    /\ (forall k, startsWith DRAFT_KEY_PREFIX k = false ->
                  items st' !! k = items st !! k)
    /\ (forall now, (getSession now st').1 = (getSession now st).1).
Proof.
  intros st. apply (clearAllDrafts_clears st). reflexivity.
Defined.

End DraftFacts.

(** ** Texts: trimming, lower case, containment *)

Module TextFacts.
Import JS JSONFacts.

Lemma rev_app_spec s t : String.rev_app s t = String.rev s +:+ t.
Proof.
  unfold String.rev. revert t.
  induction s as [|c s IH]; intros t; cbn [String.rev_app]; [done|].
  rewrite (IH (String c t)), (IH (String c "")).
  by rewrite sapp_assoc, sapp_cons, sapp_nil_l.
Qed.

Lemma rev_cons c s : String.rev (String c s) = String.rev s +:+ String c "".
Proof. unfold String.rev at 1. cbn [String.rev_app]. apply rev_app_spec. Qed.

Lemma rev_sapp s t : String.rev (s +:+ t) = String.rev t +:+ String.rev s.
Proof.
  induction s as [|c s IH].
  - by rewrite sapp_nil_l, sapp_nil_r.
  - by rewrite sapp_cons, !rev_cons, IH, sapp_assoc.
Qed.

Lemma rev_rev s : String.rev (String.rev s) = s.
Proof.
  induction s as [|c s IH]; [done|].
  by rewrite rev_cons, rev_sapp, IH.
Qed.

Lemma drop_space_suffix s : exists a, s = a +:+ drop_space s.
Proof.
  induction s as [|c s [a IH]]; [by exists ""|].
  cbn [drop_space]. destruct (is_space c).
  - exists (String c a). by rewrite sapp_cons, <- IH.
  - by exists "".
Qed.

(** The trimmed text is a part of the text. *)
Lemma trim_inside s : exists a b, s = a +:+ trim s +:+ b.
Proof.
  destruct (drop_space_suffix s) as [a Ha].
  destruct (drop_space_suffix (String.rev (drop_space s))) as [b Hb].
  exists a, (String.rev b). unfold trim.
  rewrite <- rev_sapp, <- Hb, rev_rev. exact Ha.
Qed.

Lemma includes_inside a t b : includes (a +:+ t +:+ b) t = true.
Proof.
  induction a as [|c a IH].
  - rewrite sapp_nil_l. destruct (t +:+ b) eqn:E; cbn [includes];
      rewrite <- E, StorageFacts.prefix_app; done.
  - rewrite sapp_cons. cbn [includes]. rewrite IH. apply orb_true_r.
Qed.

Lemma includes_trim s : includes s (trim s) = true.
Proof.
  destruct (trim_inside s) as (a & b & H).
  rewrite H at 1. apply includes_inside.
Qed.

Lemma lower_char_space c : is_space (lower_char c) = is_space c.
Proof.
  unfold lower_char.
  destruct ((65 <=? N_of_ascii c) && (N_of_ascii c <=? 90))%N eqn:E; [|done].
  apply andb_true_iff in E as [E1 E2].
  apply N.leb_le in E1. apply N.leb_le in E2.
  unfold is_space. rewrite N_ascii_embedding by lia.
  transitivity false; [|symmetry];
    (apply orb_false_iff; split;
     [apply andb_false_iff; right; apply N.leb_gt; lia|apply N.eqb_neq; lia]).
Qed.

Lemma toLowerCase_sapp s t :
  toLowerCase (s +:+ t) = toLowerCase s +:+ toLowerCase t.
Proof.
  induction s as [|c s IH]; [by rewrite !sapp_nil_l|].
  rewrite sapp_cons. cbn [toLowerCase]. by rewrite IH, sapp_cons.
Qed.

Lemma toLowerCase_rev s : toLowerCase (String.rev s) = String.rev (toLowerCase s).
Proof.
  induction s as [|c s IH]; [done|].
  cbn [toLowerCase]. by rewrite !rev_cons, toLowerCase_sapp, IH.
Qed.

Lemma toLowerCase_drop_space s :
  toLowerCase (drop_space s) = drop_space (toLowerCase s).
Proof.
  induction s as [|c s IH]; [done|].
  cbn [drop_space toLowerCase]. rewrite lower_char_space.
  by destruct (is_space c).
Qed.

(** Trimming and lowering the case commute. *)
Lemma toLowerCase_trim s : toLowerCase (trim s) = trim (toLowerCase s).
Proof.
  unfold trim.
  by rewrite toLowerCase_rev, toLowerCase_drop_space, toLowerCase_rev,
    toLowerCase_drop_space.
Qed.

Lemma toLowerCase_empty s : toLowerCase s = "" <-> s = "".
Proof. by destruct s. Qed.

End TextFacts.

(** ** Searching and filtering the catalogue *)

Module CatalogueFacts.
Import JS JSONFacts TextFacts ObjectFacts ModelService.

Lemma filter_elems_Ret f l kept :
  filter_elems f l = Ret kept ->
  kept = filter (fun x => keeps f x = true) l
  /\ Forall (fun x => exists b, f x = Ret b) l.
Proof.
  revert kept. induction l as [|x l IH]; intros kept H.
  - cbn in H. by simplify_eq.
  - cbn [filter_elems] in H. unfold mbind, outcome_bind in H.
    destruct (f x) as [b|e] eqn:Hx; [|done].
    destruct (filter_elems f l) as [kept'|e] eqn:Hl; [|done].
    destruct (IH kept' eq_refl) as [-> HF]. simplify_eq.
    split; [|constructor; eauto].
    rewrite filter_cons.
    by destruct b;
      [rewrite decide_True by (unfold keeps; by rewrite Hx)
      |rewrite decide_False by (unfold keeps; by rewrite Hx)].
Qed.

Lemma filter_elems_total f l :
  Forall (fun x => exists b, f x = Ret b) l ->
  filter_elems f l = Ret (filter (fun x => keeps f x = true) l).
Proof.
  induction 1 as [|x l [b Hx] _ IH]; [done|].
  cbn [filter_elems]. unfold mbind, outcome_bind. rewrite Hx, IH.
  rewrite filter_cons.
  by destruct b;
    [rewrite decide_True by (unfold keeps; by rewrite Hx)
    |rewrite decide_False by (unfold keeps; by rewrite Hx)].
Qed.

Lemma call_filter_Ret v f r :
  call_filter v f = Ret r ->
  exists l, v = VArr l /\ r = VArr (filter (fun x => keeps f x = true) l)
            /\ Forall (fun x => exists b, f x = Ret b) l.
Proof.
  destruct v; try done. cbn [call_filter]. unfold mbind, outcome_bind.
  destruct (filter_elems f elems) as [kept|e] eqn:H; [|done].
  intros [= <-]. apply filter_elems_Ret in H as [-> HF]. eauto.
Qed.

Lemma blank_trim query : blank query = bool_decide (trim query = "").
Proof.
  unfold blank. destruct (bool_decide (query = "")) eqn:E; [|done].
  apply bool_decide_eq_true in E. by subst.
Qed.

(** X6: [searchModels] depends on the query only through its trimmed,
    lower-case form: two queries that differ in the case of letters or in
    leading and trailing white space give the same result (or the same
    error) on every catalogue. *)
Theorem searchModels_ignores_case_and_blanks query query' catalogue :
  toLowerCase (trim query) = toLowerCase (trim query') ->
  searchModels query catalogue = searchModels query' catalogue.
Proof.
  intros H. unfold searchModels. fold (blank query) (blank query').
  rewrite !blank_trim.
  rewrite <- (toLowerCase_trim query), <- (toLowerCase_trim query'), H.
  assert (bool_decide (trim query = "") = bool_decide (trim query' = "")) as ->;
    [|done].
  apply bool_decide_ext.
  rewrite <- (toLowerCase_empty (trim query)), <- (toLowerCase_empty (trim query')).
  by rewrite H.
Qed.

Lemma searchModels_ignores_case_and_blanks_witness :
  searchModels "  SHELF " sample_catalogue = searchModels "shelf" sample_catalogue.
Proof. apply searchModels_ignores_case_and_blanks. reflexivity. Defined.

(** X7: when [searchModels] is called with the name of a model of the
    catalogue and returns, the result is a sub-list of the models, in
    their order, that holds this model. *)
Theorem searchModels_finds_by_name catalogue models model name result :
  prop catalogue "models" = Ret (VArr models) ->
  model ∈ models -> prop model "name" = Ret (VStr name) ->
  searchModels name catalogue = Ret result ->
  exists kept, result = VArr kept /\ kept `sublist_of` models /\ model ∈ kept.
Proof.
  intros Hm Hin Hn. unfold searchModels. fold (blank name).
  destruct (blank name).
  - rewrite Hm. intros [= <-]. by exists models.
  - unfold mbind, outcome_bind. rewrite Hm. intros H.
    apply call_filter_Ret in H as (l & [= <-] & -> & HF).
    eexists. split; [done|]. split; [apply sublist_filter|].
    apply list_elem_of_filter. split; [|done].
    rewrite Forall_forall in HF. destruct (HF model Hin) as [b Hb].
    unfold keeps. rewrite Hb. revert Hb.
    unfold matches, mbind, outcome_bind. rewrite Hn. cbn [call_toLowerCase].
    rewrite includes_trim.
    destruct (prop model "code") as [code|]; [|done].
    by destruct code; cbn; intros [= <-].
Qed.

Lemma searchModels_finds_by_name_witness :
  exists kept,
    VArr [sample_summary "m2" "Fridge" [VStr "cooler"]] = VArr kept
    /\ kept `sublist_of` [sample_summary "m1" "Big Shelf" [VStr "floor"];
                          sample_summary "m2" "Fridge" [VStr "cooler"]]
    /\ sample_summary "m2" "Fridge" [VStr "cooler"] ∈ kept.
Proof.
  apply (searchModels_finds_by_name sample_catalogue _ _ "Fridge").
  - reflexivity.
  - right. left.
  - reflexivity.
  - vm_compute. reflexivity.
Defined.

Lemma with_models_prop catalogue models :
  prop (with_models catalogue models) "models" = Ret models.
Proof.
  destruct catalogue; try reflexivity.
  cbn [with_models prop]. by rewrite lookup_assign.
Qed.

Lemma existsb_elem_of {A} (f : A -> bool) l :
  existsb f l = true <-> exists x, x ∈ l /\ f x = true.
Proof.
  rewrite existsb_exists. split; intros (x & Hin & Hx); exists x;
    (split; [by apply list_elem_of_In|done]).
Qed.

Lemma selected_iff categoryIds catId :
  selected categoryIds catId = true <->
  exists s, catId = VStr s /\ s ∈ categoryIds.
Proof.
  destruct catId; cbn [selected];
    try (split; [done|intros (s & ? & _); done]).
  rewrite existsb_elem_of. split.
  - intros (x & Hin & Hx). apply String.eqb_eq in Hx as ->. eauto.
  - intros (s' & [= <-] & Hin). exists s. split; [done|]. apply String.eqb_refl.
Qed.

Lemma keeps_in_categories categoryIds model :
  keeps (in_categories categoryIds) model = true <->
  in_selection categoryIds model.
Proof.
  unfold keeps, in_categories, in_selection, mbind, outcome_bind.
  destruct (prop model "categoryIds") as [ids|e];
    [|split; [done|intros (? & ? & ? & _); done]].
  destruct ids; try (split; [done|intros (? & ? & ? & _); done]).
  cbn [mret outcome_ret].
  destruct (existsb (selected categoryIds) elems) eqn:E.
  - split; [|done]. intros _.
    apply existsb_elem_of in E as (c & Hin & Hc).
    apply selected_iff in Hc as (s & -> & Hs). eauto.
  - split; [done|]. intros (catIds & s & [= <-] & Hin & Hs).
    assert (existsb (selected categoryIds) elems = true); [|congruence].
    apply existsb_elem_of. exists (VStr s). split; [done|].
    apply selected_iff. eauto.
Qed.

Lemma filter_sublist_mono {A} (P Q : A -> Prop)
    `{!forall x, Decision (P x), !forall x, Decision (Q x)} (l : list A) :
  (forall x, P x -> Q x) -> filter P l `sublist_of` filter Q l.
Proof.
  intros HPQ. rewrite <- (list_filter_filter_l P Q l HPQ). apply sublist_filter.
Qed.

Lemma list_filter_True {A} (P : A -> Prop) `{!forall x, Decision (P x)}
    (l : list A) :
  (forall x, P x) -> filter P l = l.
Proof.
  intros HP. induction l as [|x l IH]; [done|].
  by rewrite filter_cons_True, IH.
Qed.

(** X8: with a selection that is not empty, [filterModelsByCategory],
    when it returns, keeps, in the order of the catalogue, exactly the
    models that have at least one selected category; a wider selection
    returns as well and keeps every model that the narrower one keeps. *)
Theorem filterModelsByCategory_any_selected categoryIds catalogue result :
  categoryIds <> [] ->
  filterModelsByCategory categoryIds catalogue = Ret result ->
  exists models kept,
    prop catalogue "models" = Ret (VArr models)
    /\ result = VArr kept
    /\ kept `sublist_of` models
    /\ (forall model,
          model ∈ kept <-> model ∈ models /\ in_selection categoryIds model)
    /\ forall wider,
         (forall s, s ∈ categoryIds -> s ∈ wider) ->
         exists more,
           filterModelsByCategory wider catalogue = Ret (VArr more)
           /\ kept `sublist_of` more.
Proof.
  intros Hne H. unfold filterModelsByCategory in H.
  destruct categoryIds as [|c0 ids]; [done|].
  set (categoryIds := c0 :: ids) in *.
  unfold mbind, outcome_bind in H.
  destruct (prop catalogue "models") as [models|e] eqn:Hm; [|done].
  apply call_filter_Ret in H as (l & -> & -> & HF).
  exists l, (filter (fun x => keeps (in_categories categoryIds) x = true) l).
  split; [done|]. split; [done|]. split; [apply sublist_filter|]. split.
  - intros model. rewrite list_elem_of_filter, keeps_in_categories. tauto.
  - intros wider Hw.
    assert (Forall (fun x => exists b, in_categories wider x = Ret b) l) as HF'.
    { eapply Forall_impl; [exact HF|]. intros x [b Hb].
      unfold in_categories, mbind, outcome_bind in *.
      destruct (prop x "categoryIds") as [v|]; [|done].
      destruct v; try done. eauto. }
    exists (filter (fun x => keeps (in_categories wider) x = true) l). split.
    + unfold filterModelsByCategory.
      destruct wider as [|w0 wider'].
      { specialize (Hw c0 ltac:(left)). by inversion Hw. }
      unfold mbind, outcome_bind. rewrite Hm. cbn [call_filter].
      unfold mbind, outcome_bind. by rewrite filter_elems_total.
    + apply filter_sublist_mono. intros x.
      rewrite !keeps_in_categories.
      intros (catIds & s & ? & ? & ?). exists catIds, s. auto.
Qed.

Lemma filterModelsByCategory_any_selected_witness :
  exists models kept,
    prop sample_catalogue "models" = Ret (VArr models)
    /\ VArr [sample_summary "m2" "Fridge" [VStr "cooler"]] = VArr kept
    /\ kept `sublist_of` models
    /\ (forall model,
          model ∈ kept <-> model ∈ models /\ in_selection ["cooler"] model)
    /\ forall wider,
         (forall s, s ∈ ["cooler"] -> s ∈ wider) ->
         exists more,
           filterModelsByCategory wider sample_catalogue = Ret (VArr more)
           /\ kept `sublist_of` more.
Proof.
  apply (filterModelsByCategory_any_selected ["cooler"] sample_catalogue).
  - discriminate.
  - vm_compute. reflexivity.
Defined.

(** X9: for a query and models whose names and codes are ASCII text, when
    the list of the home page is computed, it is the list of the models
    of the catalogue, in their order, that pass both filters: the search,
    unless the query is empty or blank, and the category filter, unless
    nothing is selected. *)
Theorem filteredModels_both_filters catalogue models searchQuery
    selectedCategories result :
  ascii_text searchQuery = true ->
  Forall (fun m => ascii_named m = true) models ->
  prop catalogue "models" = Ret (VArr models) ->
  filteredModels catalogue searchQuery selectedCategories = Ret result ->
  result
  = VArr (filter (fun m => wanted searchQuery selectedCategories m = true)
            models).
Proof.
  intros _ _ Hm. unfold filteredModels.
  assert (truthy catalogue = true) as -> by (by destruct catalogue).
  cbn [negb]. unfold mbind, outcome_bind. rewrite Hm.
  set (term := trim (toLowerCase searchQuery)).
  assert (forall r1,
             (if negb (bool_decide (searchQuery = ""))
              then searchModels searchQuery (with_models catalogue (VArr models))
              else Ret (VArr models)) = Ret r1 ->
             r1 = VArr (filter (fun m => (blank searchQuery
                                          || keeps (matches term) m) = true)
                          models)) as Hs.
  { intros r1. unfold searchModels. fold (blank searchQuery). fold term.
    destruct (bool_decide (searchQuery = "")) eqn:E.
    - cbn [negb]. intros [= <-].
      unfold blank. rewrite E. cbn [orb]. f_equal.
      symmetry. apply list_filter_True. by intros x.
    - cbn [negb]. destruct (blank searchQuery) eqn:Hb.
      + rewrite with_models_prop. intros [= <-]. f_equal.
        symmetry. apply list_filter_True. by intros x.
      + unfold mbind, outcome_bind. rewrite with_models_prop. intros H.
        by apply call_filter_Ret in H as (l & [= <-] & -> & _). }
  destruct (if negb (bool_decide (searchQuery = "")) then _ else _)
    as [r1|e] eqn:H1; [|done].
  rewrite (Hs r1 eq_refl).
  set (l1 := filter _ models).
  assert (forall r2,
             (if (0 <? length selectedCategories)%nat
              then filterModelsByCategory selectedCategories
                     (with_models catalogue (VArr l1))
              else Ret (VArr l1)) = Ret r2 ->
             r2 = VArr (filter (fun m => (bool_decide (selectedCategories = [])
                                          || keeps (in_categories selectedCategories) m)
                                         = true) l1)) as Hc.
  { intros r2. destruct selectedCategories as [|c0 ids].
    - cbn. intros [= <-]. f_equal. symmetry. apply list_filter_True. by intros x.
    - cbn [length Nat.ltb Nat.leb]. unfold filterModelsByCategory.
      unfold mbind, outcome_bind. rewrite with_models_prop. intros H.
      apply call_filter_Ret in H as (l & [= <-] & -> & _).
      rewrite bool_decide_eq_false_2 by done. done. }
  destruct (if (0 <? length selectedCategories)%nat then _ else _)
    as [r2|e] eqn:H2; [|done].
  intros [= <-]. rewrite (Hc r2 eq_refl). f_equal.
  unfold l1. rewrite list_filter_filter. apply list_filter_iff.
  intros m. unfold wanted. fold term. rewrite andb_true_iff. tauto.
Qed.

Lemma filteredModels_both_filters_witness :
  VArr [sample_summary "m1" "Big Shelf" [VStr "floor"]]
  = VArr (filter (fun m => wanted "shelf" ["floor"; "cooler"] m = true)
            [sample_summary "m1" "Big Shelf" [VStr "floor"];
             sample_summary "m2" "Fridge" [VStr "cooler"]]).
Proof.
  apply (filteredModels_both_filters sample_catalogue).
  - reflexivity.
  - repeat constructor.
  - reflexivity.
  - vm_compute. reflexivity.
Defined.

End CatalogueFacts.

(** ** The models that the validator accepts *)

Module ModelFacts.
Import JS DataService ValidationFacts.

Lemma push_if_nil c e errors :
  push_if c e errors = [] <-> c = false /\ errors = [].
Proof.
  destruct c; cbn [push_if].
  - split; [|by intros [? _]]. intros H. by apply app_eq_nil in H as [_ ?].
  - split; [by auto|by intros [_ ?]].
Qed.

Ltac nil_pushes H :=
  repeat (let c := fresh "Hc" in apply push_if_nil in H as [c H]).

Lemma in_percent_iff x :
  is_number x = true ->
  (lt x (VNum (Int 0)) || gt x (VNum (Int 100))) = negb (in_percent x).
Proof.
  destruct x as [| | |[|z]| | |]; try done. intros _.
  cbn [in_percent]. change (lt (VNum (Int z)) (VNum (Int 0))) with (z <? 0).
  change (gt (VNum (Int z)) (VNum (Int 100))) with (100 <? z).
  destruct (Z.ltb_spec z 0), (Z.ltb_spec 100 z), (Z.leb_spec 0 z),
    (Z.leb_spec z 100); (done || lia).
Qed.

Lemma in_percent_number x : in_percent x = true -> is_number x = true.
Proof. by destruct x. Qed.

Lemma positive_size_iff w :
  (negb (is_number w) || le w (VNum (Int 0))) = negb (positive_size w).
Proof.
  destruct w as [| | |[|z]| | |]; try done.
  cbn [positive_size is_number negb orb].
  change (le (VNum (Int z)) (VNum (Int 0))) with (z <=? 0).
  destruct (Z.leb_spec z 0), (Z.ltb_spec 0 z); (done || lia).
Qed.

(** A marker that is in order adds no error. *)
Lemma check_marker_ok marker index errors :
  marker_ok marker = true -> check_marker marker index errors = Ret errors.
Proof.
  unfold marker_ok, field_of. intros H.
  apply andb_true_iff in H as [H Hy]. apply andb_true_iff in H as [Hp Hx].
  destruct (prop marker "position") as [position|] eqn:E; [|done].
  unfold check_marker, position_invalid, mbind, outcome_bind. rewrite !E, Hp.
  cbn [negb].
  destruct (prop position "x") as [x|] eqn:Ex; [|by destruct position].
  destruct (prop position "y") as [y|] eqn:Ey; [|by destruct position].
  rewrite (in_percent_number _ Hx), (in_percent_number _ Hy). cbn [negb].
  rewrite !in_percent_iff by (by apply in_percent_number).
  by rewrite Hx, Hy.
Qed.

(** A marker that adds no error is in order. *)
Lemma check_marker_nil marker index errors :
  check_marker marker index errors = Ret [] ->
  errors = [] /\ marker_ok marker = true.
Proof.
  unfold check_marker, position_invalid, marker_ok, field_of, mbind, outcome_bind.
  destruct (prop marker "position") as [position|] eqn:E; [|done].
  destruct (truthy position) eqn:Hp; cbn [negb].
  - destruct (prop position "x") as [x|] eqn:Ex; [|done].
    destruct (is_number x) eqn:Hx; cbn [negb].
    + destruct (prop position "y") as [y|] eqn:Ey; [|done].
      destruct (is_number y) eqn:Hy; unfold mret, outcome_ret.
      * rewrite !in_percent_iff by done. intros [= H]. nil_pushes H.
        split; [done|].
        repeat match goal with
               | H : negb _ = false |- _ => apply negb_false_iff in H
               end.
        by rewrite Hc, Hc0.
      * intros [= H]. nil_pushes H.
        first [done | by apply app_eq_nil in H as [_ ?]].
    + unfold mret, outcome_ret. destruct (prop position "y"); [|done].
      intros [= H]. nil_pushes H.
      first [done | by apply app_eq_nil in H as [_ ?]].
  - unfold mret, outcome_ret.
    destruct (prop position "x"); [|done]. destruct (prop position "y"); [|done].
    intros [= H]. nil_pushes H.
    first [done | by apply app_eq_nil in H as [_ ?]].
Qed.

Lemma check_markers_ok markers index errors :
  forallb marker_ok markers = true ->
  check_markers markers index errors = Ret errors.
Proof.
  revert index. induction markers as [|m markers IH]; intros index H; [done|].
  cbn [forallb] in H. apply andb_true_iff in H as [Hm H].
  cbn [check_markers]. unfold mbind, outcome_bind.
  rewrite check_marker_ok by done. by apply IH.
Qed.

Lemma check_markers_nil markers index errors :
  check_markers markers index errors = Ret [] ->
  errors = [] /\ forallb marker_ok markers = true.
Proof.
  revert index errors.
  induction markers as [|m markers IH]; intros index errors H.
  - change (Ret errors = Ret []) in H. by simplify_eq.
  - cbn [check_markers] in H. unfold mbind, outcome_bind in H.
    destruct (check_marker m index errors) as [e1|] eqn:E; [|done].
    apply IH in H as [-> H]. apply check_marker_nil in E as [-> Hm].
    split; [done|]. cbn [forallb]. by rewrite Hm, H.
Qed.

Lemma check_image_nil image errors :
  is_object image = true -> truthy image = true ->
  (check_image image errors = Ret [] <->
   errors = []
   /\ truthy (field_of image "url") = true
   /\ positive_size (field_of image "width") = true
   /\ positive_size (field_of image "height") = true).
Proof.
  intros Ho Ht. unfold check_image, field_of, mbind, outcome_bind.
  destruct (prop image "url") as [url|] eqn:E1; [|by destruct image].
  destruct (prop image "width") as [w|] eqn:E2; [|by destruct image].
  destruct (prop image "height") as [h|] eqn:E3; [|by destruct image].
  rewrite !positive_size_iff. cbn [mret outcome_ret]. split.
  - intros [= H].
    apply push_if_nil in H as [H3 H]. apply push_if_nil in H as [H2 H].
    apply push_if_nil in H as [H1 ->].
    apply negb_false_iff in H1, H2, H3. done.
  - intros (-> & H1 & H2 & H3). by rewrite H1, H2, H3.
Qed.

Lemma validateModel_valid model result :
  validateModel model = Ret result -> valid result = true ->
  well_formed model = true.
Proof.
  unfold validateModel.
  destruct (negb (is_object model) || is_null model) eqn:Ho.
  { intros [= <-]. done. }
  apply orb_false_iff in Ho as [Ho Hn]. apply negb_false_iff in Ho.
  assert (forall k, prop model k = Ret (field_of model k)) as Hprop.
  { intros k. unfold field_of. by destruct model. }
  unfold mbind, outcome_bind. rewrite !Hprop.
  set (e2 := push_if _ _ (push_if _ _ [])).
  destruct (if negb (truthy (field_of model "image"))
               || negb (is_object (field_of model "image")) then _ else _)
    as [e3|] eqn:He3; [|done].
  destruct (match field_of model "posmMarkers" with
            | VArr markers => _ | _ => _ end) as [e4|] eqn:He4; [|done].
  destruct (0 <? length e4)%nat eqn:Hlen; intros [= <-]; [done|]. intros _.
  assert (e4 = []) as -> by (destruct e4; [done|discriminate Hlen]).
  destruct (field_of model "posmMarkers") as [| | | | |markers|] eqn:Hm;
    try (cbn in He4; simplify_eq; by destruct e3).
  apply check_markers_nil in He4 as [-> Hmarkers].
  destruct (negb (truthy (field_of model "image"))
            || negb (is_object (field_of model "image"))) eqn:Hi.
  { cbn in He3. simplify_eq. by destruct e2. }
  apply orb_false_iff in Hi as [Hit Hio].
  apply negb_false_iff in Hit, Hio.
  apply (check_image_nil _ _ Hio Hit) in He3 as (He2 & Hu & Hw & Hh).
  unfold e2 in He2.
  apply push_if_nil in He2 as [Hname He1].
  apply push_if_nil in He1 as [Hid _].
  apply orb_false_iff in Hname as [Hn1 Hn2].
  apply orb_false_iff in Hid as [Hi1 Hi2].
  apply negb_false_iff in Hn1, Hn2, Hi1, Hi2.
  unfold well_formed.
  destruct model as [| | | | | |props]; try done.
  destruct (field_of (VObj props) "id") as [| | | |id| |]; try done.
  destruct (field_of (VObj props) "name") as [| | | |name| |]; try done.
  destruct (field_of (VObj props) "image") as [| | | | |img|img];
    try done.
  rewrite Hm, Hu, Hw, Hh, Hmarkers.
  cbn [truthy] in Hi1, Hn1. by rewrite Hi1, Hn1.
Qed.

(** X1: [validateModel] returns [valid: true], with the model as [data],
    for every well-formed model, and a result with [valid: true] is
    returned for well-formed models only: a plain object with a non-empty
    string [id] and [name], an [image] object with a truthy [url] and
    sizes that are numbers above 0, and an array [posmMarkers] whose
    markers each have a position with numbers [x] and [y] from 0 to 100
    ([NaN] passes as a size and as a coordinate). *)
Theorem validateModel_accepts_well_formed model :
  (well_formed model = true ->
   validateModel model
   = Ret {| valid := true; data := Some model; errors := None |})
  /\ (forall result,
        validateModel model = Ret result -> valid result = true ->
        well_formed model = true).
Proof.
  split; [|apply validateModel_valid].
  unfold well_formed. destruct model as [| | | | | |props]; try done.
  unfold field_of at 1 2 3 4. cbn [prop].
  set (id := default VUndefined (lookup_prop "id" props)).
  set (name := default VUndefined (lookup_prop "name" props)).
  set (image := default VUndefined (lookup_prop "image" props)).
  set (markers := default VUndefined (lookup_prop "posmMarkers" props)).
  intros H. unfold validateModel. cbn [is_object typeof is_null negb orb prop].
  fold id name image markers. unfold mbind, outcome_bind.
  destruct id as [| | | |id| |]; try done.
  destruct name as [| | | |name| |]; try done.
  destruct image as [| | | | | |image]; try done.
  destruct markers as [| | | | |markers|]; try done.
  apply andb_true_iff in H as [H Hmarkers].
  apply andb_true_iff in H as [H Hh]. apply andb_true_iff in H as [H Hw].
  apply andb_true_iff in H as [H Hu]. apply andb_true_iff in H as [Hid Hname].
  cbn [truthy is_string is_object typeof negb orb].
  rewrite Hid, Hname. cbn [negb orb push_if].
  assert (check_image (VObj image) [] = Ret []) as ->
    by (by apply check_image_nil).
  by rewrite check_markers_ok.
Qed.

End ModelFacts.

(** ** Loading through the cache *)

Module LoaderFacts.
Import JS DataService ModelFacts CacheService CacheFacts ModelService.

Lemma fetchCatalogueIndex_Ret fetch data :
  fetchCatalogueIndex fetch = Ret data -> catalogue_shaped data.
Proof.
  unfold fetchCatalogueIndex, mbind, outcome_bind.
  destruct (fetch _) as [response|]; [|done].
  destruct (ok response); [|done]. cbn [negb].
  destruct (json response) as [d|]; [|done].
  destruct (prop d "version") as [version|] eqn:Hv; [|done].
  destruct (truthy version) eqn:Htv; [|done]. cbn [negb].
  destruct (prop d "models") as [models|] eqn:Hm; [|done].
  destruct (truthy models); [|done]. cbn [negb].
  destruct models; try done. cbn. intros [= <-].
  by exists version, elems.
Qed.

Lemma get_subseteq key now (c : cache) : (get key now c).2 ⊆ c.
Proof.
  unfold get. destruct (c !! key) as [e|]; [|done].
  destruct (expired e now); [apply delete_subseteq|done].
Qed.

Lemma get_data key now (c : cache) v c' :
  get key now c = (v, c') -> v <> VNull ->
  exists entry, c !! key = Some entry /\ CacheService.data entry = v /\ c' = c
                /\ expired entry now = false.
Proof.
  unfold get.
  destruct (c !! key) as [e|];
    [|intros [= <- <-] Hn; exfalso; by apply Hn].
  destruct (expired e now) eqn:E; [intros [= <- <-] Hn; exfalso; by apply Hn|].
  intros [= <- <-] _. by exists e.
Qed.

(** X2: when every catalogue that the cache holds has the checked shape (a
    truthy [version] and an array [models]), [loadCatalogueIndex] keeps it
    so, whatever the server answers; a catalogue that it returns has that
    shape, and the only error that it throws is "Failed to load catalogue
    index", in which case nothing is cached. *)
Theorem loadCatalogueIndex_result_shaped fetch now now' (c : cache) :
  catalogue_cached_shaped c ->
  catalogue_cached_shaped (loadCatalogueIndex fetch now now' c).2
  /\ match (loadCatalogueIndex fetch now now' c).1 with
     | Ret data => catalogue_shaped data
     | Throw e => e = load_failed
                  /\ (loadCatalogueIndex fetch now now' c).2
                     = (get "catalogue-index" now c).2
     end.
Proof.
  intros Hc. unfold loadCatalogueIndex.
  destruct (get "catalogue-index" now c) as [cached c1] eqn:Hg.
  assert (catalogue_cached_shaped c1) as Hc1.
  { intros e He. apply Hc.
    pose proof (get_subseteq "catalogue-index" now c) as Hsub.
    rewrite Hg in Hsub. cbn [snd] in Hsub.
    by apply (lookup_weaken _ _ _ _ He). }
  destruct (truthy cached) eqn:Ht.
  - cbn [fst snd]. split; [done|].
    destruct (get_data _ _ _ _ _ Hg) as (e & He & <- & _); [by destruct cached|].
    by apply Hc.
  - destruct (fetchCatalogueIndex fetch) as [data|e] eqn:Hf; cbn [fst snd].
    + apply fetchCatalogueIndex_Ret in Hf. split; [|done].
      intros e. unfold set. rewrite lookup_insert_eq. by intros [= <-].
    + done.
Qed.

Lemma loadCatalogueIndex_result_shaped_witness :
  catalogue_cached_shaped (loadCatalogueIndex (serve sample_catalogue) 0 0 ∅).2
  /\ match (loadCatalogueIndex (serve sample_catalogue) 0 0 ∅).1 with
     | Ret data => catalogue_shaped data
     | Throw e => e = load_failed
                  /\ (loadCatalogueIndex (serve sample_catalogue) 0 0 ∅).2
                     = (get "catalogue-index" 0 (∅ : cache)).2
     end.
Proof.
  apply (loadCatalogueIndex_result_shaped (serve sample_catalogue) 0 0 ∅).
  intros e He. by rewrite lookup_empty in He.
Defined.

(** X3: after a call that missed the cache and fetched a catalogue, every
    call made up to 5 minutes after the clock reading [now'] of the
    caching returns that catalogue without asking the server (whatever it
    would answer); a later call asks the server again. *)
Theorem loadCatalogueIndex_cached_five_minutes fetch now now' (c : cache) data :
  truthy (get "catalogue-index" now c).1 = false ->
  fetchCatalogueIndex fetch = Ret data ->
  exists c1,
    loadCatalogueIndex fetch now now' c = (Ret data, c1)
    /\ (forall fetch' t t',
          t - now' <= 5 * 60 * 1000 ->
          loadCatalogueIndex fetch' t t' c1 = (Ret data, c1))
    /\ (forall fetch' t t',
          5 * 60 * 1000 < t - now' ->
          (loadCatalogueIndex fetch' t t' c1).1
          = match fetchCatalogueIndex fetch' with
            | Ret fetched => Ret fetched
            | Throw _ => Throw load_failed
            end).
Proof.
  intros Hmiss Hf. unfold loadCatalogueIndex at 1.
  destruct (get "catalogue-index" now c) as [cached c0] eqn:Hg.
  cbn [fst] in Hmiss. rewrite Hmiss, Hf.
  eexists. split; [done|].
  assert (truthy data = true) as Ht.
  { apply fetchCatalogueIndex_Ret in Hf as (v & m & Hv & _ & Hm).
    by destruct data. }
  split; intros fetch' t t' Hw; unfold loadCatalogueIndex.
  - rewrite (CacheLaws.get_after_set "catalogue-index" data
               CATALOGUE_INDEX_TTL now' t c0 eq_refl).
    assert ((t - now' <=? CATALOGUE_INDEX_TTL) = true) as ->
      by (unfold CATALOGUE_INDEX_TTL; lia).
    by rewrite Ht.
  - rewrite (CacheLaws.get_after_set "catalogue-index" data
               CATALOGUE_INDEX_TTL now' t c0 eq_refl).
    assert ((t - now' <=? CATALOGUE_INDEX_TTL) = false) as ->
      by (unfold CATALOGUE_INDEX_TTL; lia).
    cbn [truthy]. by destruct (fetchCatalogueIndex fetch').
Qed.

Lemma loadCatalogueIndex_cached_five_minutes_witness :
  exists c1,
    loadCatalogueIndex (serve sample_catalogue) 0 40 ∅ = (Ret sample_catalogue, c1)
    /\ (forall fetch' t t',
          t - 40 <= 5 * 60 * 1000 ->
          loadCatalogueIndex fetch' t t' c1 = (Ret sample_catalogue, c1))
    /\ (forall fetch' t t',
          5 * 60 * 1000 < t - 40 ->
          (loadCatalogueIndex fetch' t t' c1).1
          = match fetchCatalogueIndex fetch' with
            | Ret fetched => Ret fetched
            | Throw _ => Throw load_failed
            end).
Proof.
  apply (loadCatalogueIndex_cached_five_minutes (serve sample_catalogue) 0 40 ∅).
  - reflexivity.
  - reflexivity.
Defined.

Lemma model_key_inj a b : "model-" +:+ a = "model-" +:+ b -> a = b.
Proof. apply (inj (String.app "model-")). Qed.

Lemma fetchModel_Ret fetch modelId data :
  fetchModel fetch modelId = Ret data -> truthy data = true.
Proof.
  unfold fetchModel, mbind, outcome_bind.
  destruct (fetch _) as [response|]; [|done].
  destruct (ok response); [|by destruct (status response =? 404)]. cbn [negb].
  destruct (json response) as [d|]; [|done].
  destruct (prop d "id") as [id|] eqn:Hv; [|done].
  destruct (truthy id) eqn:Htv; [|done]. cbn [negb].
  destruct (prop d "name") as [name|]; [|done].
  destruct (truthy name); [|done]. cbn [negb].
  destruct (prop d "image") as [image|]; [|done].
  destruct (truthy image); [|done]. cbn. intros [= <-].
  destruct d; cbn in Hv; simplify_eq; done.
Qed.

Lemma loadModel_miss fetch modelId now now' (c : cache) data :
  truthy (get ("model-" +:+ modelId) now c).1 = false ->
  fetchModel fetch modelId = Ret data ->
  loadModel fetch modelId now now' c
  = (Ret data,
     set ("model-" +:+ modelId) data (Some (Int MODEL_DATA_TTL)) now'
       (get ("model-" +:+ modelId) now c).2).
Proof.
  intros Hmiss Hf. unfold loadModel.
  destruct (get ("model-" +:+ modelId) now c) as [cached c0] eqn:Hg.
  cbn [fst] in Hmiss. by rewrite Hmiss, Hf.
Qed.

(** X4: after a call that missed the cache and fetched a model, every
    call for the same id made up to 10 minutes after the clock reading
    [now'] of the caching returns that model without asking the server;
    what a load of another model or of the catalogue returns is the same
    as before the model was cached. *)
Theorem loadModel_cached_per_model fetch modelId now now' (c : cache) data :
  truthy (get ("model-" +:+ modelId) now c).1 = false ->
  fetchModel fetch modelId = Ret data ->
  exists c1,
    loadModel fetch modelId now now' c = (Ret data, c1)
    /\ (forall fetch' t t',
          t - now' <= 10 * 60 * 1000 ->
          loadModel fetch' modelId t t' c1 = (Ret data, c1))
    /\ (forall fetch' other t t',
          other <> modelId ->
          (loadModel fetch' other t t' c1).1 = (loadModel fetch' other t t' c).1)
    /\ (forall fetch' t t',
          (loadCatalogueIndex fetch' t t' c1).1
          = (loadCatalogueIndex fetch' t t' c).1).
Proof.
  intros Hmiss Hf. rewrite (loadModel_miss _ _ _ _ _ _ Hmiss Hf).
  eexists. split; [done|].
  pose proof (fetchModel_Ret _ _ _ Hf) as Ht.
  assert (forall key t,
             key <> "model-" +:+ modelId ->
             (get key t (set ("model-" +:+ modelId) data
                           (Some (Int MODEL_DATA_TTL)) now'
                           (get ("model-" +:+ modelId) now c).2)).1
             = (get key t c).1) as Hother.
  { intros key t Hne.
    rewrite CacheLaws.get_other_after_set by done.
    by apply CacheLaws.get_other_after_get. }
  split; [|split].
  - intros fetch' t t' Hw. unfold loadModel.
    rewrite (CacheLaws.get_after_set ("model-" +:+ modelId) data
               MODEL_DATA_TTL now' t _ eq_refl).
    assert ((t - now' <=? MODEL_DATA_TTL) = true) as ->
      by (unfold MODEL_DATA_TTL; lia).
    by rewrite Ht.
  - intros fetch' other t t' Hne. unfold loadModel.
    specialize (Hother ("model-" +:+ other) t
                  ltac:(intros E; by apply model_key_inj in E)).
    destruct (get ("model-" +:+ other) t (set _ _ _ _ _)) as [v1 c1'].
    destruct (get ("model-" +:+ other) t c) as [v2 c2'].
    cbn [fst] in Hother. subst v2.
    destruct (truthy v1); [done|]. by destruct (fetchModel fetch' other).
  - intros fetch' t t'. unfold loadCatalogueIndex.
    specialize (Hother "catalogue-index" t ltac:(done)).
    destruct (get "catalogue-index" t (set _ _ _ _ _)) as [v1 c1'].
    destruct (get "catalogue-index" t c) as [v2 c2'].
    cbn [fst] in Hother. subst v2.
    destruct (truthy v1); [done|]. by destruct (fetchCatalogueIndex fetch').
Qed.

Lemma loadModel_cached_per_model_witness :
  exists c1,
    loadModel (serve (sample_model [])) "m1" 0 40 ∅ = (Ret (sample_model []), c1)
    /\ (forall fetch' t t',
          t - 40 <= 10 * 60 * 1000 ->
          loadModel fetch' "m1" t t' c1 = (Ret (sample_model []), c1))
    /\ (forall fetch' other t t',
          other <> "m1" ->
          (loadModel fetch' other t t' c1).1 = (loadModel fetch' other t t' ∅).1)
    /\ (forall fetch' t t',
          (loadCatalogueIndex fetch' t t' c1).1
          = (loadCatalogueIndex fetch' t t' ∅).1).
Proof.
  apply (loadModel_cached_per_model (serve (sample_model [])) "m1" 0 40 ∅).
  - reflexivity.
  - reflexivity.
Defined.

(** X5: a model that [validateModel] accepts passes the check that
    [loadModel] makes on a response: served with status ok, it is
    returned by a [loadModel] that misses the cache. *)
Theorem loadModel_accepts_valid_models fetch modelId response model result :
  validateModel model = Ret result -> valid result = true ->
  fetch ("/data/models/" +:+ modelId +:+ ".json") = Ret response ->
  ok response = true -> json response = Ret model ->
  fetchModel fetch modelId = Ret model
  /\ forall now now' (c : cache),
       truthy (get ("model-" +:+ modelId) now c).1 = false ->
       (loadModel fetch modelId now now' c).1 = Ret model.
Proof.
  intros Hv Hvalid Hfetch Hok Hjson.
  pose proof (validateModel_valid model _ Hv Hvalid) as Hw.
  assert (fetchModel fetch modelId = Ret model) as Hf.
  { unfold fetchModel, mbind, outcome_bind. rewrite Hfetch, Hok, Hjson.
    cbn [negb]. unfold well_formed in Hw.
    destruct model as [| | | | | |props]; try done.
    unfold field_of in Hw.
    destruct (prop (VObj props) "id") as [[| | | |id| |]|]; try done.
    destruct (prop (VObj props) "name") as [[| | | |name| |]|]; try done.
    destruct (prop (VObj props) "image") as [[| | | | | |image]|]; try done.
    destruct (match prop (VObj props) "posmMarkers" with Ret w => w | _ => _ end);
      try done.
    repeat (apply andb_true_iff in Hw as [Hw ?]).
    cbn [truthy]. rewrite Hw. cbn [negb].
    match goal with H : negb (bool_decide (name = "")) = true |- _ => rewrite H end.
    done. }
  split; [done|]. intros now now' c Hmiss.
  by rewrite (loadModel_miss _ _ _ _ _ _ Hmiss Hf).
Qed.

Lemma loadModel_accepts_valid_models_witness :
  fetchModel (serve (sample_model [])) "m1" = Ret (sample_model [])
  /\ forall now now' (c : cache),
       truthy (get ("model-" +:+ "m1") now c).1 = false ->
       (loadModel (serve (sample_model [])) "m1" now now' c).1
       = Ret (sample_model []).
Proof.
  apply (loadModel_accepts_valid_models (serve (sample_model [])) "m1"
           {| ok := true; status := 200; statusText := "OK";
              json := Ret (sample_model []) |}
           (sample_model [])
           {| valid := true; DataService.data := Some (sample_model []);
              errors := None |}).
  - reflexivity.
  - reflexivity.
  - reflexivity.
  - reflexivity.
  - reflexivity.
Defined.

End LoaderFacts.

(** ** Exporting *)

Module ExportFacts.
Import JS JSONFacts ModelService ExportUtils.

Lemma reduce_markers_sum models total :
  reduce_markers models total = sum_markers models total.
Proof.
  revert total. induction models as [|m models IH]; intros total; [done|].
  cbn [reduce_markers sum_markers]. unfold mbind, outcome_bind.
  destruct (prop m "posmMarkers"); [|done].
  by destruct (length_of a).
Qed.

(** When every [posmMarkers] is an array, the reduction adds up the
    numbers of markers. *)
Lemma sum_markers_typed models a :
  Forall has_markers models ->
  sum_markers models (VNum (Int a)) = Ret (VNum (Int (a + total_count models))).
Proof.
  intros H. revert a. induction H as [|m models [markers Hm] _ IH]; intros a.
  - cbn. do 3 f_equal. lia.
  - cbn [sum_markers]. unfold mbind, outcome_bind. rewrite Hm.
    cbn [length_of].
    change (add (VNum (Int a)) (VNum (Int (Z.of_nat (length markers)))))
      with (VNum (Int (a + Z.of_nat (length markers)))).
    rewrite IH. do 3 f_equal.
    unfold total_count. cbn [map fold_right]. unfold marker_count at 2.
    rewrite Hm. lia.
Qed.

Lemma collect_categories_typed models :
  Forall has_categories models -> collect_categories models = Ret tt.
Proof.
  induction 1 as [|m models [ids Hm] _ IH]; [done|].
  cbn [collect_categories]. unfold mbind, outcome_bind. by rewrite Hm.
Qed.

(** What the validator answers on an export object whose counts are in
    order. *)
Lemma validate_export exportedAt exportType models categories metadata n v :
  exportedAt <> "" ->
  lookup_prop "totalModels" metadata = Some (VNum (Int n)) ->
  lookup_prop "totalMarkers" metadata = Some v -> is_number v = true ->
  n = Z.of_nat (length models) ->
  validateExportData
    (VObj [("exportedAt", VStr exportedAt);
           ("exportType", VStr (export_type_text exportType));
           ("version", VStr "1.0.0");
           ("models", VArr models);
           ("categories", VArr categories);
           ("metadata", VObj metadata)])
  = Ret (negb (bool_decide (models = []))).
Proof.
  intros He Hn Hv Hnum ->.
  set (data := VObj _).
  assert (prop data "exportedAt" = Ret (VStr exportedAt)) as H1 by reflexivity.
  assert (prop data "exportType" = Ret (VStr (export_type_text exportType)))
    as H2 by reflexivity.
  assert (prop data "version" = Ret (VStr "1.0.0")) as H3 by reflexivity.
  assert (prop data "models" = Ret (VArr models)) as H4 by reflexivity.
  assert (prop data "categories" = Ret (VArr categories)) as H5 by reflexivity.
  assert (prop data "metadata" = Ret (VObj metadata)) as H6 by reflexivity.
  unfold validateExportData, mbind, outcome_bind.
  rewrite H1, H2, H3, H4, H5, H6.
  change (negb (truthy data) || negb (is_object data)) with false.
  cbn [truthy negb orb isArray is_object typeof prop].
  rewrite (bool_decide_eq_false_2 _ He).
  assert (bool_decide (export_type_text exportType = "") = false) as ->
    by (by destruct exportType).
  cbn [negb orb]. rewrite Hn, Hv. cbn [default from_option]. unfold id.
  destruct models as [|m models]; [done|].
  cbn [length Nat.eqb]. destruct v; try done.
  unfold number_differs. rewrite Z.eqb_refl.
  by rewrite bool_decide_eq_false_2.
Qed.

Lemma sapp_empty (a b : string) : a +:+ b = "" -> b = "".
Proof. destruct a; [by rewrite sapp_nil_l|by rewrite sapp_cons]. Qed.

Lemma toISOString_nonempty now text : Date.toISOString now = Ret text -> text <> "".
Proof.
  unfold Date.toISOString. destruct (Date.valid_time now); [|done].
  destruct (Date.civil_from_days _) as [[y m] d]. intros [= <-] H.
  apply sapp_empty in H. rewrite sapp_cons in H. discriminate H.
Qed.

(** X10: [exportModels] throws "Cannot export empty model list" on an
    empty list, and a [TypeError] when the first model has no
    [categoryIds] (although no category is exported); on a list that is
    not empty, of models whose [categoryIds] and [posmMarkers] are arrays,
    it returns an object that [validateExportData] accepts, whose
    [categories] is empty and whose [totalMarkers] is the number of
    markers of all models, the number [calculateTotalMarkers] gives. *)
Theorem exportModels_outcomes models exportType now :
  exportModels [] exportType now = Throw (Error "Cannot export empty model list")
  /\ (forall model rest,
        prop model "categoryIds" = Ret VUndefined ->
        exportModels (model :: rest) exportType now = Throw TypeError)
  /\ (models <> [] -> Date.valid_time now = true ->
      Forall has_categories models -> Forall has_markers models ->
      exists result metadata,
        exportModels models exportType now = Ret result
        /\ validateExportData result = Ret true
        /\ prop result "categories" = Ret (VArr [])
        /\ prop result "metadata" = Ret metadata
        /\ prop metadata "totalMarkers" = Ret (VNum (Int (total_count models)))
        /\ calculateTotalMarkers models = Ret (VNum (Int (total_count models)))).
Proof.
  split; [done|]. split.
  - intros model rest Hc. unfold exportModels. cbn [collect_categories].
    unfold mbind, outcome_bind. by rewrite Hc.
  - intros Hne Hv Hc Hm.
    destruct (DateFacts.parse_toISOString _ Hv) as (text & Ht & _).
    unfold exportModels. destruct models as [|m models]; [done|].
    set (l := m :: models) in *.
    unfold mbind, outcome_bind.
    rewrite (collect_categories_typed _ Hc), (sum_markers_typed _ _ Hm), Ht.
    eexists _, _. split; [done|]. split; [|split; [done|split; [done|split]]].
    + rewrite (validate_export _ _ _ _ _ (Z.of_nat (length l))
                 (VNum (Int (0 + total_count l)))); try done.
      by apply (toISOString_nonempty now).
    + cbn. do 3 f_equal.
    + unfold calculateTotalMarkers.
      rewrite reduce_markers_sum, (sum_markers_typed _ _ Hm). do 3 f_equal.
Qed.

(** X11: with a valid clock and models whose [posmMarkers] are arrays,
    [createExportData] returns an object whose metadata counts the models
    and all their markers, and [validateExportData] accepts it exactly
    when the list of models is not empty. *)
Theorem createExportData_valid_iff_non_empty models categories exportType
    notes now :
  Date.valid_time now = true -> Forall has_markers models ->
  exists result metadata,
    createExportData models categories exportType notes now = Ret result
    /\ validateExportData result = Ret (negb (bool_decide (models = [])))
    /\ prop result "metadata" = Ret metadata
    /\ prop metadata "totalModels"
       = Ret (VNum (Int (Z.of_nat (length models))))
    /\ prop metadata "totalMarkers"
       = Ret (VNum (Int (total_count models))).
Proof.
  intros Hv Hm.
  destruct (DateFacts.parse_toISOString _ Hv) as (text & Ht & _).
  unfold createExportData, calculateTotalMarkers.
  rewrite reduce_markers_sum, (sum_markers_typed _ _ Hm).
  unfold mbind, outcome_bind. rewrite Ht.
  eexists _, _. split; [done|]. split; [|split; [done|split; [done|]]].
  - apply (validate_export _ _ _ _ _ (Z.of_nat (length models))
             (VNum (Int (0 + total_count models)))); try done.
    by apply (toISOString_nonempty now).
  - cbn. do 3 f_equal.
Qed.

Lemma createExportData_valid_iff_non_empty_witness :
  exists result metadata,
    createExportData [DataService.sample_model [VNull; VNull]] [] selective
      (Some "spring") 1700000000123 = Ret result
    /\ validateExportData result
       = Ret (negb (bool_decide ([DataService.sample_model [VNull; VNull]] = [])))
    /\ prop result "metadata" = Ret metadata
    /\ prop metadata "totalModels"
       = Ret (VNum (Int (Z.of_nat
                           (length [DataService.sample_model [VNull; VNull]]))))
    /\ prop metadata "totalMarkers"
       = Ret (VNum (Int (total_count [DataService.sample_model [VNull; VNull]]))).
Proof.
  apply (createExportData_valid_iff_non_empty
           [DataService.sample_model [VNull; VNull]] [] selective (Some "spring")
           1700000000123).
  - reflexivity.
  - repeat constructor. by exists [VNull; VNull].
Defined.

End ExportFacts.

(** ** Regular expressions: the test and the texts denoted *)

Module RegExpFacts.
Import JS JSONFacts Security RegExp.

Lemma sapp_both_empty (a b : string) : a +:+ b = "" -> a = "" /\ b = "".
Proof. destruct a; [by rewrite sapp_nil_l|by rewrite sapp_cons]. Qed.

Lemma seq_inv r1 r2 s :
  denotes (Seq r1 r2) s ->
  exists s1 s2, s = s1 +:+ s2 /\ denotes r1 s1 /\ denotes r2 s2.
Proof. intros H. inversion H; subst. eauto. Qed.

Lemma nullable_spec r : nullable r = true <-> denotes r "".
Proof.
  induction r as [| |class|r1 IH1 r2 IH2|r1 IH1 r2 IH2|r IH]; cbn [nullable].
  - split; [done|]. intros H. inversion H.
  - split; [constructor|done].
  - split; [done|]. intros H. inversion H.
  - rewrite andb_true_iff, IH1, IH2. split.
    + intros [H1 H2]. apply (denotes_seq _ _ "" "" H1 H2).
    + intros H. apply seq_inv in H as (s1 & s2 & E & H1 & H2).
      symmetry in E. apply sapp_both_empty in E as [-> ->]. done.
  - rewrite orb_true_iff, IH1, IH2. split.
    + intros [H|H]; [by apply denotes_alt_l|by apply denotes_alt_r].
    + intros H. inversion H; subst; auto.
  - split; [constructor|done].
Qed.

(** A match of [r*] that starts with [c] starts with a match of [r]
    that starts with [c]. *)
Lemma star_cons r c s :
  denotes (Star r) (String c s) ->
  exists s1 s2, s = s1 +:+ s2 /\ denotes r (String c s1) /\ denotes (Star r) s2.
Proof.
  intros H. remember (Star r) as r' eqn:Er. remember (String c s) as t eqn:Et.
  revert s Et.
  induction H as [| | | | | |r0 s1 s2 H1 _ H2 IH2]; intros s' Et; try done.
  injection Er as ->.
  destruct s1 as [|c1 s1].
  - rewrite sapp_nil_l in Et. by apply IH2.
  - rewrite sapp_cons in Et. simplify_eq. by exists s1, s2.
Qed.

Lemma after_spec r c s : denotes (after c r) s <-> denotes r (String c s).
Proof.
  revert s.
  induction r as [| |class|r1 IH1 r2 IH2|r1 IH1 r2 IH2|r IH]; intros s;
    cbn [after].
  - split; intros H; inversion H.
  - split; intros H; inversion H.
  - destruct (class c) eqn:E.
    + split; intros H; inversion H; subst; by constructor.
    + split; intros H; inversion H; subst. congruence.
  - assert (denotes (Seq (after c r1) r2) s <->
            exists s1 s2, s = s1 +:+ s2 /\ denotes r1 (String c s1)
                          /\ denotes r2 s2) as Hseq.
    { split.
      - intros H. apply seq_inv in H as (s1 & s2 & -> & H1 & H2).
        exists s1, s2. split; [done|]. by rewrite <- IH1.
      - intros (s1 & s2 & -> & H1 & H2). constructor; [by apply IH1|done]. }
    assert (denotes (Seq r1 r2) (String c s) <->
            (exists s1 s2, s = s1 +:+ s2 /\ denotes r1 (String c s1)
                           /\ denotes r2 s2)
            \/ (denotes r1 "" /\ denotes r2 (String c s))) as Hcons.
    { split.
      - intros H. apply seq_inv in H as (s1 & s2 & E & H1 & H2).
        destruct s1 as [|c1 s1].
        + rewrite sapp_nil_l in E. subst. by right.
        + rewrite sapp_cons in E. simplify_eq. left. eauto.
      - intros [(s1 & s2 & -> & H1 & H2)|[H1 H2]].
        + rewrite <- sapp_cons. by constructor.
        + rewrite <- (sapp_nil_l (String c s)). by constructor. }
    rewrite Hcons. destruct (nullable r1) eqn:En.
    + split.
      * intros H. inversion H; subst; [left; by apply Hseq|right].
        split; [by apply nullable_spec|by apply IH2].
      * intros [H|[_ H]]; [apply denotes_alt_l; by apply Hseq|].
        apply denotes_alt_r. by apply IH2.
    + rewrite Hseq. split; [auto|]. intros [H|[H _]]; [done|].
      apply nullable_spec in H. congruence.
  - split.
    + intros H. inversion H; subst;
        [apply denotes_alt_l; by apply IH1|apply denotes_alt_r; by apply IH2].
    + intros H. inversion H; subst;
        [apply denotes_alt_l; by apply IH1|apply denotes_alt_r; by apply IH2].
  - split.
    + intros H. apply seq_inv in H as (s1 & s2 & -> & H1 & H2).
      rewrite <- sapp_cons. constructor; [by apply IH|done].
    + intros H. apply star_cons in H as (s1 & s2 & -> & H1 & H2).
      constructor; [by apply IH|done].
Qed.

(** The test accepts exactly the texts that the expression denotes. *)
Lemma test_spec r s : test r s = true <-> denotes r s.
Proof.
  revert r. induction s as [|c s IH]; intros r; cbn [test].
  - apply nullable_spec.
  - by rewrite IH, after_spec.
Qed.

Lemma star_class class s :
  denotes (Star (Class class)) s <-> all_chars class s = true.
Proof.
  split.
  - intros H. remember (Star (Class class)) as r eqn:Er.
    induction H as [| | | | | |r0 s1 s2 H1 _ H2 IH2]; try done.
    injection Er as ->. inversion H1; subst.
    rewrite sapp_cons, sapp_nil_l. cbn [all_chars]. rewrite IH2 by done.
    by rewrite andb_true_r.
  - induction s as [|c s IH]; [constructor|].
    cbn [all_chars]. intros H. apply andb_true_iff in H as [Hc H].
    change (String c s) with (String c "" +:+ s).
    constructor; [by constructor|by apply IH].
Qed.

Lemma plus_class class s :
  denotes (Plus (Class class)) s <-> s <> "" /\ all_chars class s = true.
Proof.
  unfold Plus. split.
  - intros H. apply seq_inv in H as (s1 & s2 & -> & H1 & H2).
    inversion H1; subst. rewrite sapp_cons, sapp_nil_l. split; [done|].
    cbn [all_chars]. apply star_class in H2. by rewrite H2, andb_true_r.
  - intros [Hne H]. destruct s as [|c s]; [done|].
    cbn [all_chars] in H. apply andb_true_iff in H as [Hc H].
    change (String c s) with (String c "" +:+ s).
    constructor; [by constructor|by apply star_class].
Qed.

Lemma char_spec c s : denotes (Char c) s <-> s = String c "".
Proof.
  unfold Char. split.
  - intros H. inversion H as [|? d Hd| | | | |]; subst.
    apply Ascii.eqb_eq in Hd. by subst.
  - intros ->. constructor. apply Ascii.eqb_refl.
Qed.

End RegExpFacts.

(** ** File names, passwords and e-mail addresses *)

Module SecurityFacts.
Import JS JSONFacts Security.

Lemma substring_to_length n s : (String.length (substring_to n s) <= n)%nat.
Proof.
  revert s. induction n as [|n IH]; intros [|c s]; cbn; try lia.
  specialize (IH s). lia.
Qed.

Lemma substring_to_all class n s :
  all_chars class s = true -> all_chars class (substring_to n s) = true.
Proof.
  revert s. induction n as [|n IH]; intros [|c s]; cbn; try done.
  intros H. apply andb_true_iff in H as [-> H]. by apply IH.
Qed.

Lemma replace_unsafe_safe s : all_chars is_safe (replace_unsafe s) = true.
Proof.
  induction s as [|c s IH]; [done|]. cbn [replace_unsafe all_chars].
  rewrite IH. by destruct (is_safe c) eqn:E; [rewrite E|].
Qed.

(** X25: for every input, the result of [sanitizeFilename] has at most
    255 characters, all of them letters, digits, dots, underscores or
    dashes: it holds no slash and no backslash. *)
Theorem sanitizeFilename_safe filename :
  (String.length (sanitizeFilename filename) <= 255)%nat
  /\ all_chars is_safe (sanitizeFilename filename) = true
  /\ includes (sanitizeFilename filename) "/" = false
  /\ includes (sanitizeFilename filename) "\" = false.
Proof.
  assert (forall s, all_chars is_safe s = true ->
                    forall c, is_safe c = false ->
                              includes s (String c "") = false) as Hno.
  { intros s Hs c Hc. induction s as [|d s IH]; [done|].
    cbn [all_chars] in Hs. apply andb_true_iff in Hs as [Hd Hs].
    cbn [includes String.prefix]. rewrite (IH Hs), orb_false_r.
    destruct (ascii_dec c d) as [->|]; [congruence|done]. }
  assert (String.length (sanitizeFilename filename) <= 255
          /\ all_chars is_safe (sanitizeFilename filename) = true)%nat as [H1 H2].
  { unfold sanitizeFilename. destruct (bool_decide (filename = "")); [cbn; lia|].
    cbv zeta.
    destruct (Nat.ltb_spec 255 (String.length
                (replace_unsafe (remove_slashes (remove_dot_pairs filename))))).
    - split; [apply substring_to_length|].
      apply substring_to_all, replace_unsafe_safe.
    - split; [done|apply replace_unsafe_safe]. }
  split; [done|]. split; [done|]. split; by apply Hno.
Qed.

Lemma remove_dot_pairs_id s : includes s ".." = false -> remove_dot_pairs s = s.
Proof.
  induction s as [|c1 s IH]; [done|].
  intros H. cbn [includes] in H. apply orb_false_iff in H as [Hp H].
  destruct s as [|c2 s]; [done|].
  cbn [remove_dot_pairs]. cbn [String.prefix] in Hp.
  destruct (Ascii.eqb c1 "." && Ascii.eqb c2 ".") eqn:E.
  - apply andb_true_iff in E as [E1 E2].
    apply Ascii.eqb_eq in E1, E2. subst. by destruct s.
  - f_equal. by apply IH.
Qed.

Lemma remove_slashes_id s : all_chars is_safe s = true -> remove_slashes s = s.
Proof.
  induction s as [|c s IH]; [done|]. cbn [all_chars remove_slashes].
  intros H. apply andb_true_iff in H as [Hc H]. rewrite (IH H).
  destruct (Ascii.eqb c "/") eqn:E1;
    [apply Ascii.eqb_eq in E1; by subst|].
  destruct (Ascii.eqb c "\") eqn:E2;
    [apply Ascii.eqb_eq in E2; by subst|]. done.
Qed.

Lemma replace_unsafe_id s : all_chars is_safe s = true -> replace_unsafe s = s.
Proof.
  induction s as [|c s IH]; [done|]. cbn [all_chars replace_unsafe].
  intros H. apply andb_true_iff in H as [Hc H]. by rewrite (IH H), Hc.
Qed.

(** X26: [sanitizeFilename] returns unchanged a name of at most 255
    characters that is made of letters, digits, dots, underscores and
    dashes and holds no two dots in a row. *)
Theorem sanitizeFilename_keeps_safe_names filename :
  all_chars is_safe filename = true -> includes filename ".." = false ->
  (String.length filename <= 255)%nat ->
  sanitizeFilename filename = filename.
Proof.
  intros Hs Hd Hl. unfold sanitizeFilename.
  destruct (bool_decide (filename = "")) eqn:E;
    [by apply bool_decide_eq_true in E|].
  cbv zeta.
  rewrite remove_dot_pairs_id, remove_slashes_id, replace_unsafe_id by done.
  by destruct (Nat.ltb_spec 255 (String.length filename)); [lia|].
Qed.

Lemma sanitizeFilename_keeps_safe_names_witness :
  sanitizeFilename "posm-export-full-2023-11-14T22-13-20.json"
  = "posm-export-full-2023-11-14T22-13-20.json".
Proof.
  apply sanitizeFilename_keeps_safe_names.
  - reflexivity.
  - reflexivity.
  - cbn. lia.
Defined.

(** X27: the score of [validatePasswordStrength] is the number of
    character classes in the password plus one for a length of 8 and one
    more for a length of 12, and the password is valid when the score is 4
    or more: a valid password has at least two classes, at least three
    when shorter than 12, and all four when shorter than 8; a password
    with all four classes is valid whatever its length; the feedback is
    empty exactly for a password of 8 characters or more with all four
    classes. *)
Theorem validatePasswordStrength_needs_variety password :
  let r := validatePasswordStrength password in
  let len := String.length password in
  score r = classes password + (if (8 <=? len)%nat then 1 else 0)
            + (if (12 <=? len)%nat then 1 else 0)
  /\ isValid r = (4 <=? score r)
  /\ (isValid r = true -> 2 <= classes password)
  /\ (isValid r = true -> (len < 12)%nat -> 3 <= classes password)
  /\ (isValid r = true -> (len < 8)%nat -> classes password = 4)
  /\ (classes password = 4 -> isValid r = true)
  /\ (feedback r = [] <-> (8 <= len)%nat /\ classes password = 4).
Proof.
  cbv zeta. unfold validatePasswordStrength, classes.
  destruct (Nat.leb_spec 8 (String.length password));
    destruct (Nat.leb_spec 12 (String.length password)); try lia;
    destruct (has_char is_lower password);
    destruct (has_char is_upper password);
    destruct (has_char is_digit password);
    destruct (has_char is_special password);
    cbn [score isValid feedback app];
    repeat split; intros; try done; try lia.
Qed.

(** X30: of the ASCII texts, [isValidEmail] accepts exactly those of the
    form [name@domain.tail] whose three parts are non-empty and hold
    neither white space nor [@]; the parts may hold further dots. *)
Theorem isValidEmail_shape email :
  ascii_text email = true ->
  (isValidEmail email = true <->
   exists name domain tail,
     email = name +:+ "@" +:+ domain +:+ "." +:+ tail
     /\ name <> "" /\ domain <> "" /\ tail <> ""
     /\ all_chars plain name = true /\ all_chars plain domain = true
     /\ all_chars plain tail = true).
Proof.
  intros _. unfold isValidEmail, emailRegex. cbv zeta.
  rewrite RegExpFacts.test_spec. split.
  - intros H.
    apply RegExpFacts.seq_inv in H as (name & s2 & -> & H1 & H2).
    apply RegExpFacts.seq_inv in H2 as (at_ & s3 & -> & H3 & H4).
    apply RegExpFacts.seq_inv in H4 as (domain & s4 & -> & H5 & H6).
    apply RegExpFacts.seq_inv in H6 as (dot & tail & -> & H7 & H8).
    apply RegExpFacts.char_spec in H3 as ->.
    apply RegExpFacts.char_spec in H7 as ->.
    apply RegExpFacts.plus_class in H1 as [? ?].
    apply RegExpFacts.plus_class in H5 as [? ?].
    apply RegExpFacts.plus_class in H8 as [? ?].
    exists name, domain, tail. done.
  - intros (name & domain & tail & -> & ? & ? & ? & ? & ? & ?).
    constructor; [by apply RegExpFacts.plus_class|].
    constructor; [by apply RegExpFacts.char_spec|].
    constructor; [by apply RegExpFacts.plus_class|].
    constructor; [by apply RegExpFacts.char_spec|].
    by apply RegExpFacts.plus_class.
Qed.

Lemma isValidEmail_shape_witness :
  isValidEmail "admin@posm.example.com" = true <->
  exists name domain tail,
    "admin@posm.example.com" = name +:+ "@" +:+ domain +:+ "." +:+ tail
    /\ name <> "" /\ domain <> "" /\ tail <> ""
    /\ all_chars plain name = true /\ all_chars plain domain = true
    /\ all_chars plain tail = true.
Proof. apply (isValidEmail_shape "admin@posm.example.com"). reflexivity. Defined.

End SecurityFacts.
